(** * Points ledger of the match-tracking backend

    A shallow embedding of the match routes of the backend
    ([backend/routes/matches.js]), of the session-creating route that shares
    the file, and of the Mongoose schema and [stats] virtual of
    [backend/models/session.js], together with the properties of the points
    ledger they maintain.

    Modelling conventions.
    - JavaScript numbers are IEEE 754 binary64 values: [number] is the
      Standard Library's [spec_float], and [+], [-], [*], [/] and [<] are its
      operations at precision 53 and maximal exponent 1024 (round to nearest,
      ties to even).  A decimal literal denotes the binary64 number nearest
      to it.  [Math.round] and [Math.max] follow ECMAScript.  A Number path
      of a schema rejects NaN when it casts.
    - Strings are kept as their UTF-8 bytes.  [trim] strips the white space
      and line terminators of ECMAScript, U+00A0 and the other Unicode
      spaces included; the length that [maxlength] bounds counts UTF-16 code
      units.
    - Mongo ObjectIds are natural numbers ([N]).  The id of a new document is
      an argument of the request; the id of a pushed match is assumed not to
      occur in the session yet ([fresh_for]).
    - The collection of sessions is a finite map from the session's [_id] to
      the stored document.  A handler loads a document, mutates the loaded
      copy and calls [save]; [save] runs the schema validators and writes the
      document only when they pass.  The [trim] setters act when a field is
      assigned.  The records hold the fields the routes read and write; the
      [createdAt] and [updatedAt] stamps that [timestamps: true] maintains
      are not among them.
    - A request body field that is absent ([undefined]) is [None].  The string
      fields, when present, are strings; [customPointsAfter], when present,
      is a JSON number.
    - The post-save hook, which refreshes the owner's aggregate statistics in
      another collection, does not touch a session's matches: [save] does not
      run it, and it is modelled on its own (module [PostSave]).  The routes
      that rename or remove a session are left out.
    - The deck routes of a session, the tier-list votes, the tournament
      registration and the deck-list statistics each have a module of their
      own, with the slice of the document they read and write; the current
      time of the tournament code is an argument [now].  The participant
      counts of a tournament are whole numbers and are kept as exact
      rationals. *)

From Stdlib Require Import QArith ZArith Lia String Ascii.
From Stdlib Require Import SpecFloat.
From stdpp Require Import base list gmap.

(** ** JavaScript numbers *)

Definition number : Set := spec_float.

Definition fadd : number -> number -> number := SFadd 53 1024.
Definition fsub : number -> number -> number := SFsub 53 1024.
Definition fmul : number -> number -> number := SFmul 53 1024.
Definition fdiv : number -> number -> number := SFdiv 53 1024.

(** [x < y] and [x <= y]; both are false when an operand is NaN. *)
Definition flt (x y : number) : bool := SFltb x y.
Definition fle (x y : number) : bool := SFleb x y.

(** [x === y]: false on NaN, true on [0] and [-0]. *)
Definition feq (x y : number) : bool := SFeqb x y.

Definition is_nan (x : number) : bool :=
  match x with
  | S754_nan => true
  | _ => false
  end.

(** The binary64 number nearest to an integer. *)
Definition of_Z (z : Z) : number := binary_normalize 53 1024 z 0 false.

(** A decimal literal: an integer, or a quotient of two integers that are
    binary64 numbers themselves, which the division rounds once. *)
Definition of_literal (n : Number.number) : option spec_float :=
  match n with
  | Number.Decimal (Decimal.Decimal i f) =>
      let num := Z.of_int (Decimal.app_int i f) in
      let den := Nat.iter (Decimal.nb_digits f) (Z.mul 10) 1%Z in
      if (den =? 1)%Z then Some (of_Z num)
      else if ((Z.abs num <=? 2 ^ 53) && (den <=? 10 ^ 22))%Z
           then Some (fdiv (of_Z num) (of_Z den))
           else None
  | _ => None
  end.

Definition to_literal (x : spec_float) : option Number.number := None.

Declare Scope number_scope.
Delimit Scope number_scope with num.
Bind Scope number_scope with number.
Bind Scope number_scope with spec_float.
Number Notation spec_float of_literal to_literal : number_scope.
Infix "+" := fadd : number_scope.
Infix "-" := fsub : number_scope.
Infix "*" := fmul : number_scope.
Infix "/" := fdiv : number_scope.
Infix "<?" := flt : number_scope.
Infix "<=?" := fle : number_scope.
Infix "=?" := feq : number_scope.

Open Scope number_scope.

(** JavaScript truthiness of a number: [0], [-0] and NaN are falsy. *)
Definition falsy (x : number) : bool :=
  match x with
  | S754_zero _ | S754_nan => true
  | _ => false
  end.

(** A length as a JavaScript number. *)
Definition num (n : nat) : number := of_Z (Z.of_nat n).

(** [Math.round]: the nearest integer, halves going up; a negative number
    that rounds to zero gives [-0]. *)
Definition Math_round (x : number) : number :=
  match x with
  | S754_finite s m e =>
      if (0 <=? e)%Z then x
      else
        let z := if s then Z.neg m else Z.pos m in
        binary_normalize 53 1024
          (Z.shiftr (2 * z + 2 ^ (- e)) (1 - e)) 0 s
  | _ => x
  end.

(** One step of [Math.max], which starts from [-Infinity]: NaN is
    contagious and [+0] is above [-0]. *)
Definition max_step (highest x : number) : number :=
  match highest, x with
  | S754_nan, _ | _, S754_nan => S754_nan
  | S754_zero true, S754_zero false => x
  | _, _ => if highest <? x then x else highest
  end.

Definition Math_max (args : list number) : number :=
  fold_left max_step args (S754_infinity true).

(** ** JavaScript strings *)

(** The white space and line terminators of ECMAScript by their UTF-8
    bytes: one byte (U+0009 to U+000D, U+0020), two bytes (U+00A0), three
    bytes (U+1680, U+2000 to U+200A, U+2028, U+2029, U+202F, U+205F, U+3000,
    U+FEFF). *)
Definition white_space1 (a : ascii) : bool :=
  let x := nat_of_ascii a in
  ((9 <=? x) && (x <=? 13) || (x =? 32))%nat.

Definition white_space2 (a b : ascii) : bool :=
  ((nat_of_ascii a =? 194) && (nat_of_ascii b =? 160))%nat.

Definition white_space3 (a b c : ascii) : bool :=
  let x := nat_of_ascii a in
  let y := nat_of_ascii b in
  let z := nat_of_ascii c in
  ((x =? 225) && (y =? 154) && (z =? 128)
   || (x =? 226) && (y =? 128)
      && ((128 <=? z) && (z <=? 138) || (z =? 168) || (z =? 169) || (z =? 175))
   || (x =? 226) && (y =? 129) && (z =? 159)
   || (x =? 227) && (y =? 128) && (z =? 128)
   || (x =? 239) && (y =? 187) && (z =? 191))%nat.

Section DropSpaces.
Variable p1 : ascii -> bool.
Variable p2 : ascii -> ascii -> bool.
Variable p3 : ascii -> ascii -> ascii -> bool.

(** Drop the characters at the head of [l] that [p1], [p2] or [p3]
    recognises by their one, two or three bytes. *)
Fixpoint drop_spaces (l : list ascii) : list ascii :=
  match l with
  | a :: r1 =>
      if p1 a then drop_spaces r1
      else
        match r1 with
        | b :: r2 =>
            if p2 a b then drop_spaces r2
            else
              match r2 with
              | c :: r3 => if p3 a b c then drop_spaces r3 else l
              | [] => l
              end
        | [] => l
        end
  | [] => []
  end.

(** [l] begins with such a character. *)
Definition starts_space (l : list ascii) : bool :=
  match l with
  | a :: r1 =>
      p1 a
      || match r1 with
         | b :: r2 =>
             p2 a b
             || match r2 with
                | c :: _ => p3 a b c
                | [] => false
                end
         | [] => false
         end
  | [] => false
  end.

End DropSpaces.

Definition trim_start : list ascii -> list ascii :=
  drop_spaces white_space1 white_space2 white_space3.

(** At the end of the string the bytes of a character come in reverse. *)
Definition trim_end (l : list ascii) : list ascii :=
  rev (drop_spaces white_space1 (fun b a => white_space2 a b)
                   (fun c b a => white_space3 a b c) (rev l)).

(** [String.prototype.trim], which the [trim: true] setter of the schema
    applies. *)
Definition trim (s : string) : string :=
  string_of_list_ascii (trim_end (trim_start (list_ascii_of_string s))).

(** The UTF-16 code units of a character, counted at its first byte: one for
    a character of one to three bytes, two for a character of four. *)
Definition code_units (a : ascii) : nat :=
  let x := nat_of_ascii a in
  if (x <? 128)%nat then 1%nat
  else if (x <? 192)%nat then 0%nat
  else if (x <? 240)%nat then 1%nat
  else 2%nat.

(** [String.prototype.length]. *)
Definition js_length (s : string) : nat :=
  fold_right (fun a n => (code_units a + n)%nat) 0%nat
             (list_ascii_of_string s).

(** U+00A0, the no-break space. *)
Definition nbsp : string :=
  String (ascii_of_nat 194) (String (ascii_of_nat 160) EmptyString).

(** ** Documents (models/session.js) *)

Record Match := mkMatch {
  _id : N;
  deck : string;
  opp : string;
  result : string;
  turn : string;
  pointsBefore : number;
  pointsAfter : number;
  customPointsAfter : option number
}.

Record Session := mkSession {
  user : N;
  name : string;
  matches : list Match;
  pointsFormula : string;
  pointsStart : number
}.

Abbreviation Store := (gmap N Session).

(** Field assignments on a match sub-document. *)

Definition set_deck (v : string) (m : Match) : Match :=
  mkMatch (_id m) v (opp m) (result m) (turn m)
          (pointsBefore m) (pointsAfter m) (customPointsAfter m).

Definition set_opp (v : string) (m : Match) : Match :=
  mkMatch (_id m) (deck m) v (result m) (turn m)
          (pointsBefore m) (pointsAfter m) (customPointsAfter m).

Definition set_result (v : string) (m : Match) : Match :=
  mkMatch (_id m) (deck m) (opp m) v (turn m)
          (pointsBefore m) (pointsAfter m) (customPointsAfter m).

Definition set_turn (v : string) (m : Match) : Match :=
  mkMatch (_id m) (deck m) (opp m) (result m) v
          (pointsBefore m) (pointsAfter m) (customPointsAfter m).

Definition set_pointsBefore (v : number) (m : Match) : Match :=
  mkMatch (_id m) (deck m) (opp m) (result m) (turn m)
          v (pointsAfter m) (customPointsAfter m).

Definition set_pointsAfter (v : number) (m : Match) : Match :=
  mkMatch (_id m) (deck m) (opp m) (result m) (turn m)
          (pointsBefore m) v (customPointsAfter m).

Definition set_customPointsAfter (v : number) (m : Match) : Match :=
  mkMatch (_id m) (deck m) (opp m) (result m) (turn m)
          (pointsBefore m) (pointsAfter m) (Some v).

Definition set_matches (ms : list Match) (s : Session) : Session :=
  mkSession (user s) (name s) ms (pointsFormula s) (pointsStart s).

(** ** Schema setters and validators *)

(** [required: true] on a String path rejects the empty string. *)
Definition required_string (s : string) : bool := negb (s =? EmptyString)%string.

Definition enum_member (allowed : list string) (s : string) : bool :=
  existsb (String.eqb s) allowed.

(** A Number path casts its value, and the cast fails on NaN. *)
Definition cast_number (x : number) : bool := negb (is_nan x).

Definition validate_match (m : Match) : bool :=
  required_string (deck m)
  && required_string (opp m)
  && required_string (result m) && enum_member ["Win"; "Loss"]%string (result m)
  && required_string (turn m) && enum_member ["1st"; "2nd"]%string (turn m)
  && cast_number (pointsBefore m)
  && cast_number (pointsAfter m)
  && match customPointsAfter m with
     | Some c => cast_number c
     | None => true
     end.

Definition validate_session (s : Session) : bool :=
  required_string (name s)
  && (js_length (name s) <=? 100)%nat
  && forallb validate_match (matches s)
  && enum_member ["rated"; "dc"]%string (pointsFormula s)
  && cast_number (pointsStart s).

(** [doc.save()]: validate, then write the whole document. *)
Definition save (sid : N) (doc : Session) (st : Store) : option Store :=
  if validate_session doc then Some (<[sid := doc]> st) else None.

(** [Session.findOne({ _id, user })]. *)
Definition findOne (sid reqUser : N) (st : Store) : option Session :=
  match st !! sid with
  | Some s => if (user s =? reqUser)%N then Some s else None
  | None => None
  end.

(** [matches.findIndex(match => match._id.toString() === matchId)];
    [None] stands for the result -1. *)
Fixpoint findIndex (matchId : N) (ms : list Match) : option nat :=
  match ms with
  | [] => None
  | m :: r =>
      if (_id m =? matchId)%N then Some 0%nat
      else option_map S (findIndex matchId r)
  end.

(** ** Requests and responses *)

Record MatchBody := mkMatchBody {
  b_deck : option string;
  b_opp : option string;
  b_result : option string;
  b_turn : option string;
  b_customPointsAfter : option number
}.

Record SessionBody := mkSessionBody {
  b_name : option string;
  b_pointsFormula : option string;
  b_pointsStart : option number
}.

Record Response := mkResponse {
  status : nat;
  success : bool;
  message : string;
  resMatch : option Match;
  resSession : option Session
}.

(** What a handler leaves behind: the response, the session document it holds
    in memory when it responds (if it loaded one) and the collection. *)
Record Outcome := mkOutcome {
  response : Response;
  document : option Session;
  store : Store
}.

Definition failure (code : nat) (msg : string) : Response :=
  mkResponse code false msg None None.

(** JavaScript truthiness of an optional string field. *)
Definition truthy (v : option string) : bool :=
  match v with
  | Some s => negb (s =? EmptyString)%string
  | None => false
  end.

Definition str (v : option string) : string := default EmptyString v.

(** ** POST /api/sessions (create a session) *)

Definition create_session (newId reqUser : N) (body : SessionBody) (st : Store)
  : Outcome :=
  if negb (truthy (b_name body)) then
    mkOutcome (failure 400 "Session name is required") None st
  else
    let startPoints :=
      match b_pointsStart body with
      | Some p => if falsy p then
                    (if (str (b_pointsFormula body) =? "dc")%string then 0 else 1500)
                  else p
      | None => if (str (b_pointsFormula body) =? "dc")%string then 0 else 1500
      end in
    let doc :=
      mkSession reqUser (trim (str (b_name body))) []
                (if truthy (b_pointsFormula body)
                 then str (b_pointsFormula body) else "rated"%string)
                startPoints in
    match st !! newId with
    | Some _ =>
        mkOutcome (failure 500 "Server error while creating session") None st
    | None =>
        match save newId doc st with
        | Some st' =>
            mkOutcome (mkResponse 201 true "Session created successfully"
                                  None (Some doc)) (Some doc) st'
        | None =>
            mkOutcome (failure 500 "Server error while creating session") None st
        end
    end.

(** ** POST /api/sessions/:id/matches (append a match) *)

(** Lines 38-52: the points of the new match. *)
Definition post_newPoints (formula result : string) (lastPoints : number)
           (customPointsAfter : option number) : number :=
  match customPointsAfter with
  | Some c => c
  | None =>
      if (formula =? "rated")%string then
        (if (result =? "Win")%string then lastPoints + 7 else lastPoints - 7)
      else
        if (result =? "Win")%string then lastPoints + 1
        else if lastPoints <? 15 then lastPoints - 0.5 else lastPoints - 1
  end.

Definition post_match (newId reqUser sid : N) (body : MatchBody) (st : Store)
  : Outcome :=
  if negb (truthy (b_deck body)) || negb (truthy (b_opp body))
     || negb (truthy (b_result body)) || negb (truthy (b_turn body)) then
    mkOutcome
      (failure 400 "Please provide deck, opponent, result, and turn order")
      None st
  else
    match findOne sid reqUser st with
    | None => mkOutcome (failure 404 "Session not found") None st
    | Some session =>
        let lastMatch := last (matches session) in
        let lastPoints :=
          match lastMatch with
          | Some m => pointsAfter m
          | None => pointsStart session
          end in
        let newPoints :=
          post_newPoints (pointsFormula session) (str (b_result body))
                         lastPoints (b_customPointsAfter body) in
        let matchData :=
          mkMatch newId (trim (str (b_deck body))) (trim (str (b_opp body)))
                  (str (b_result body)) (str (b_turn body))
                  lastPoints newPoints (b_customPointsAfter body) in
        let session' := set_matches (matches session ++ [matchData]) session in
        match save sid session' st with
        | Some st' =>
            mkOutcome (mkResponse 201 true "Match added successfully"
                                  (last (matches session')) (Some session'))
                      (Some session') st'
        | None =>
            mkOutcome (failure 500 "Server error while adding match")
                      (Some session') st
        end
    end.

(** ** The recompute loops

    [for (let i = start; i < matches.length; i++) body]: the array keeps its
    length, so the body runs [matches.length - start] times; [n] counts the
    iterations that remain. *)
Fixpoint for_loop (body : nat -> list Match -> list Match) (n i : nat)
         (ms : list Match) : list Match :=
  match n with
  | O => ms
  | S n' => for_loop body n' (S i) (body i ms)
  end.

(** ** PUT /api/sessions/:sessionId/matches/:matchId (edit a match) *)

(** Lines 129-148: the body of the loop.  The loop starts at
    [matchIndex + 1], so [i - 1] is an index of the array; at [i = 0] the
    source would read [matches[-1]], which does not occur. *)
Definition put_recalc_step (formula : string) (i : nat) (ms : list Match)
  : list Match :=
  match i with
  | O => ms
  | S j =>
      match ms !! j, ms !! i with
      | Some prevMatch, Some cur =>
          let cur1 := set_pointsBefore (pointsAfter prevMatch) cur in
          let cur2 :=
            match customPointsAfter cur1 with
            | None =>
                if (formula =? "rated")%string then
                  set_pointsAfter
                    (if (result cur1 =? "Win")%string
                     then pointsBefore cur1 + 7 else pointsBefore cur1 - 7) cur1
                else
                  if (result cur1 =? "Win")%string then
                    set_pointsAfter (pointsBefore cur1 + 1) cur1
                  else
                    set_pointsAfter
                      (if pointsBefore cur1 <? 15
                       then pointsBefore cur1 - 0.5
                       else pointsBefore cur1 - 1) cur1
            | Some _ => cur1
            end in
          <[i := cur2]> ms
      | _, _ => ms
      end
  end.

Definition put_recalc (formula : string) (start : nat) (ms : list Match)
  : list Match :=
  for_loop (put_recalc_step formula) (length ms - start) start ms.

(** Lines 116-150: the mutations of the loaded document. *)
Definition put_mutate (formula : string) (matchIndex : nat) (body : MatchBody)
           (ms : list Match) : list Match :=
  let ms := if truthy (b_deck body)
            then alter (set_deck (trim (str (b_deck body)))) matchIndex ms
            else ms in
  let ms := if truthy (b_opp body)
            then alter (set_opp (trim (str (b_opp body)))) matchIndex ms
            else ms in
  let ms := if truthy (b_result body)
            then alter (set_result (str (b_result body))) matchIndex ms
            else ms in
  let ms := if truthy (b_turn body)
            then alter (set_turn (str (b_turn body))) matchIndex ms
            else ms in
  let ms := match b_customPointsAfter body with
            | Some c =>
                alter (fun m => set_pointsAfter c (set_customPointsAfter c m))
                      matchIndex ms
            | None => ms
            end in
  match b_customPointsAfter body with
  | Some _ => put_recalc formula (S matchIndex) ms
  | None => ms
  end.

Definition put_match (reqUser sid matchId : N) (body : MatchBody) (st : Store)
  : Outcome :=
  match findOne sid reqUser st with
  | None => mkOutcome (failure 404 "Session not found") None st
  | Some session =>
      match findIndex matchId (matches session) with
      | None => mkOutcome (failure 404 "Match not found") (Some session) st
      | Some matchIndex =>
          let session' :=
            set_matches
              (put_mutate (pointsFormula session) matchIndex body
                          (matches session)) session in
          match save sid session' st with
          | Some st' =>
              mkOutcome (mkResponse 200 true "Match updated successfully"
                                    (matches session' !! matchIndex)
                                    (Some session'))
                        (Some session') st'
          | None =>
              mkOutcome (failure 500 "Server error while updating match")
                        (Some session') st
          end
      end
  end.

(** ** DELETE /api/sessions/:sessionId/matches/:matchId (delete a match) *)

(** Lines 202-220: the body of the loop; [start0] is [session.pointsStart]. *)
Definition delete_recalc_step (formula : string) (start0 : number) (i : nat)
           (ms : list Match) : list Match :=
  let prev :=
    if (i =? 0)%nat then Some start0
    else pointsAfter <$> ms !! (i - 1)%nat in
  match prev, ms !! i with
  | Some prevPoints, Some cur =>
      let cur1 := set_pointsBefore prevPoints cur in
      let cur2 :=
        match customPointsAfter cur1 with
        | None =>
            if (formula =? "rated")%string then
              set_pointsAfter
                (if (result cur1 =? "Win")%string
                 then prevPoints + 7 else prevPoints - 7) cur1
            else
              if (result cur1 =? "Win")%string then
                set_pointsAfter (prevPoints + 1) cur1
              else
                set_pointsAfter
                  (if prevPoints <? 15
                   then prevPoints - 0.5 else prevPoints - 1) cur1
        | Some _ => cur1
        end in
      <[i := cur2]> ms
  | _, _ => ms
  end.

Definition delete_recalc (formula : string) (start0 : number) (start : nat)
           (ms : list Match) : list Match :=
  for_loop (delete_recalc_step formula start0) (length ms - start) start ms.

Definition delete_match (reqUser sid matchId : N) (st : Store) : Outcome :=
  match findOne sid reqUser st with
  | None => mkOutcome (failure 404 "Session not found") None st
  | Some session =>
      match findIndex matchId (matches session) with
      | None => mkOutcome (failure 404 "Match not found") (Some session) st
      | Some matchIndex =>
          let spliced := delete matchIndex (matches session) in
          let session' :=
            set_matches
              (delete_recalc (pointsFormula session) (pointsStart session)
                             matchIndex spliced) session in
          match save sid session' st with
          | Some st' =>
              mkOutcome (mkResponse 200 true "Match deleted successfully"
                                    None (Some session'))
                        (Some session') st'
          | None =>
              mkOutcome (failure 500 "Server error while deleting match")
                        (Some session') st
          end
      end
  end.

(** ** DELETE /api/sessions/:id/matches (clear the matches) *)

Definition clear_matches (reqUser sid : N) (st : Store) : Outcome :=
  match findOne sid reqUser st with
  | None => mkOutcome (failure 404 "Session not found") None st
  | Some session =>
      let session' := set_matches [] session in
      match save sid session' st with
      | Some st' =>
          mkOutcome (mkResponse 200 true "All matches cleared successfully"
                                None (Some session'))
                    (Some session') st'
      | None =>
          mkOutcome (failure 500 "Server error while clearing matches")
                    (Some session') st
      end
  end.

(** ** The [stats] virtual of a session (models/session.js, lines 78-106) *)

Record Stats := mkStats {
  total : nat;
  wins : nat;
  losses : nat;
  winRate : number;
  winRate1st : number;
  winRate2nd : number;
  currentPoints : number;
  peakPoints : number
}.

Definition isWin (m : Match) : bool := (result m =? "Win")%string.
Definition is1st (m : Match) : bool := (turn m =? "1st")%string.
Definition is2nd (m : Match) : bool := (turn m =? "2nd")%string.

Definition stats (s : Session) : Stats :=
  let ms := matches s in
  let total := length ms in
  let wins := length (List.filter isWin ms) in
  let losses := (total - wins)%nat in
  let winRate :=
    if (0 <? total)%nat
    then Math_round ((num wins / num total) * 1000) / 10 else 0 in
  let matches1st := List.filter is1st ms in
  let wins1st := length (List.filter isWin matches1st) in
  let winRate1st :=
    if (0 <? length matches1st)%nat
    then Math_round ((num wins1st / num (length matches1st)) * 1000) / 10
    else 0 in
  let matches2nd := List.filter is2nd ms in
  let wins2nd := length (List.filter isWin matches2nd) in
  let winRate2nd :=
    if (0 <? length matches2nd)%nat
    then Math_round ((num wins2nd / num (length matches2nd)) * 1000) / 10
    else 0 in
  let currentPoints :=
    if (0 <? total)%nat
    then default (pointsStart s) (pointsAfter <$> ms !! (length ms - 1)%nat)
    else pointsStart s in
  let peakPoints := Math_max (map pointsAfter ms ++ [pointsStart s]) in
  mkStats total wins losses winRate winRate1st winRate2nd
          currentPoints peakPoints.

(** Counting, as the specification words the aggregates. *)
Fixpoint count_matches (P : Match -> bool) (ms : list Match) : nat :=
  match ms with
  | [] => O
  | m :: rest => ((if P m then 1 else 0) + count_matches P rest)%nat
  end.

(** A win rate as the specification words it: 0 when [total = 0], and
    [round(wins/total * 1000) / 10] when [total > 0], in the arithmetic of
    the program's numbers. *)
Definition rate_spec (winsN totalN : nat) : number :=
  match totalN with
  | O => 0
  | S _ => Math_round (num winsN / num totalN * 1000) / 10
  end.

(** ** The API as a transition system *)

Inductive Request :=
| CreateSession (newId reqUser : N) (body : SessionBody)
| AddMatch (newId reqUser sid : N) (body : MatchBody)
| UpdateMatch (reqUser sid matchId : N) (body : MatchBody)
| DeleteMatch (reqUser sid matchId : N)
| ClearMatches (reqUser sid : N).

Definition handle (r : Request) (st : Store) : Outcome :=
  match r with
  | CreateSession newId reqUser body => create_session newId reqUser body st
  | AddMatch newId reqUser sid body => post_match newId reqUser sid body st
  | UpdateMatch reqUser sid matchId body => put_match reqUser sid matchId body st
  | DeleteMatch reqUser sid matchId => delete_match reqUser sid matchId st
  | ClearMatches reqUser sid => clear_matches reqUser sid st
  end.

(** The [_id] given to a pushed sub-document is not yet used in the session. *)
Definition fresh_id (newId : N) (ms : list Match) : bool :=
  forallb (fun m => negb (_id m =? newId)%N) ms.

Definition fresh_for (r : Request) (st : Store) : bool :=
  match r with
  | AddMatch newId _ sid _ =>
      match st !! sid with
      | Some s => fresh_id newId (matches s)
      | None => true
      end
  | _ => true
  end.

Inductive reachable : Store -> Prop :=
| reachable_empty : reachable ∅
| reachable_step st r :
    reachable st -> fresh_for r st = true -> reachable (store (handle r st)).

Fixpoint run (rs : list Request) (st : Store) : Store :=
  match rs with
  | [] => st
  | r :: rs' => run rs' (store (handle r st))
  end.

Fixpoint fresh_run (rs : list Request) (st : Store) : bool :=
  match rs with
  | [] => true
  | r :: rs' => fresh_for r st && fresh_run rs' (store (handle r st))
  end.

(** ** The ledger as the specification words it *)

Inductive ResultE := Win | Loss.
Inductive FormulaE := rated | dc.

Definition result_of (s : string) : option ResultE :=
  if (s =? "Win")%string then Some Win
  else if (s =? "Loss")%string then Some Loss else None.

Definition formula_of (s : string) : option FormulaE :=
  if (s =? "rated")%string then Some rated
  else if (s =? "dc")%string then Some dc else None.

(** Scoring rule: rated is +7 / -7; dc is +1 on a win and, on a loss, -1 when
    the prior points are at least 15 and -0.5 otherwise. *)
Definition scoring_rule (priorPoints : number) (r : ResultE) (f : FormulaE) : number :=
  match f, r with
  | rated, Win => priorPoints + 7
  | rated, Loss => priorPoints - 7
  | dc, Win => priorPoints + 1
  | dc, Loss =>
      if 15 <=? priorPoints then priorPoints - 1 else priorPoints - 0.5
  end.

(** The scoring rule on stored strings; a string outside the enumerations is
    outside the data model and leaves the points where they are. *)
Definition scoring_rule_str (priorPoints : number) (result formula : string) : number :=
  match result_of result, formula_of formula with
  | Some r, Some f => scoring_rule priorPoints r f
  | _, _ => priorPoints
  end.

(** Forward recompute: carry the prior points through the sequence; an
    override wins over the scoring rule. *)
Fixpoint forward_recompute (formula : string) (prior : number) (ms : list Match)
  : list Match :=
  match ms with
  | [] => []
  | m :: rest =>
      let after :=
        match customPointsAfter m with
        | Some c => c
        | None => scoring_rule_str prior (result m) formula
        end in
      set_pointsAfter after (set_pointsBefore prior m)
        :: forward_recompute formula after rest
  end.

(** Prior points for position [k]: the preceding match's [pointsAfter], or
    [pointsStart] at the head. *)
Definition prior_points (s : Session) (k : nat) : number :=
  match k with
  | O => pointsStart s
  | S j => default (pointsStart s) (pointsAfter <$> matches s !! j)
  end.

(** The chain invariant of a session, by index. *)
Definition chain_invariant (s : Session) : Prop :=
  (forall m, matches s !! 0%nat = Some m -> pointsBefore m = pointsStart s)
  /\ (forall i m' m,
        matches s !! i = Some m' -> matches s !! S i = Some m ->
        pointsBefore m = pointsAfter m').

(** * Notions used in the statements and proofs *)

(** ** The recompute as one pass over a suffix *)

(** What one iteration does to the match it visits, given the prior points. *)
Definition recalc_elem (formula : string) (p : number) (m : Match) : Match :=
  match customPointsAfter m with
  | None =>
      set_pointsAfter (post_newPoints formula (result m) p None)
                      (set_pointsBefore p m)
  | Some _ => set_pointsBefore p m
  end.

(** Apply [elem] along the list, handing each match the [pointsAfter] its
    predecessor was left with. *)
Fixpoint rechain (elem : number -> Match -> Match) (p : number) (ms : list Match)
  : list Match :=
  match ms with
  | [] => []
  | m :: rest =>
      let m' := elem p m in m' :: rechain elem (pointsAfter m') rest
  end.

(** Points carried out of a prefix. *)
Definition last_points (p : number) (ms : list Match) : number :=
  default p (pointsAfter <$> last ms).

(** The fields of the target match an edit assigns (lines 117-124). *)
Definition put_target (body : MatchBody) (m : Match) : Match :=
  let m := if truthy (b_deck body)
           then set_deck (trim (str (b_deck body))) m else m in
  let m := if truthy (b_opp body)
           then set_opp (trim (str (b_opp body))) m else m in
  let m := if truthy (b_result body)
           then set_result (str (b_result body)) m else m in
  let m := if truthy (b_turn body)
           then set_turn (str (b_turn body)) m else m in
  match b_customPointsAfter body with
  | Some c => set_pointsAfter c (set_customPointsAfter c m)
  | None => m
  end.

(** ** Well-formed sessions *)

(** The chain invariant by recursion on the sequence, entered with points
    [p]. *)
Fixpoint chained (p : number) (ms : list Match) : Prop :=
  match ms with
  | [] => True
  | m :: rest => pointsBefore m = p /\ chained (pointsAfter m) rest
  end.

(** A match that carries an override has it as its [pointsAfter]. *)
Definition override_ok (m : Match) : Prop :=
  forall c, customPointsAfter m = Some c -> pointsAfter m = c.

(** What holds of every stored session: it passes the schema, its points are
    chained, overrides are pinned and the matches have distinct ids. *)
Record wf_session (s : Session) : Prop := mk_wf {
  wf_valid : validate_session s = true;
  wf_chain : chained (pointsStart s) (matches s);
  wf_override : Forall override_ok (matches s);
  wf_ids : NoDup (map _id (matches s))
}.

(** ** The documents the handlers write *)

(** The match a POST pushes onto session [s]. *)
Definition appended (newId : N) (body : MatchBody) (s : Session) : Match :=
  let lastPoints := last_points (pointsStart s) (matches s) in
  mkMatch newId (trim (str (b_deck body))) (trim (str (b_opp body)))
          (str (b_result body)) (str (b_turn body)) lastPoints
          (post_newPoints (pointsFormula s) (str (b_result body)) lastPoints
                          (b_customPointsAfter body))
          (b_customPointsAfter body).

(** Session [s] after a POST. *)
Definition after_post (newId : N) (body : MatchBody) (s : Session) : Session :=
  set_matches (matches s ++ [appended newId body s]) s.

(** Session [s], whose matches are [l1 ++ m :: l2], after a PUT on [m]. *)
Definition after_put (body : MatchBody) (s : Session) (l1 l2 : list Match)
           (m : Match) : Session :=
  set_matches
    (l1 ++ put_target body m
        :: match b_customPointsAfter body with
           | Some c => rechain (recalc_elem (pointsFormula s)) c l2
           | None => l2
           end) s.

(** Session [s], whose matches are [l1 ++ m :: l2], after a DELETE of [m]. *)
Definition after_delete (s : Session) (l1 l2 : list Match) : Session :=
  set_matches
    (l1 ++ rechain (recalc_elem (pointsFormula s))
                   (last_points (pointsStart s) l1) l2) s.

(** ** The two halves of the match validators *)

(** The String paths of a match. *)
Definition strings_ok (m : Match) : bool :=
  required_string (deck m)
  && required_string (opp m)
  && required_string (result m) && enum_member ["Win"; "Loss"]%string (result m)
  && required_string (turn m) && enum_member ["1st"; "2nd"]%string (turn m).

(** The Number paths of a match. *)
Definition points_ok (m : Match) : bool :=
  cast_number (pointsBefore m)
  && cast_number (pointsAfter m)
  && match customPointsAfter m with
     | Some c => cast_number c
     | None => true
     end.

(** ** The order of the numbers *)

(** A rank that orders the numbers other than NaN as [<] does. *)
Definition rank (x : number) : Z * Z * Z :=
  match x with
  | S754_nan => (0, 0, 0)
  | S754_infinity true => (-2, 0, 0)
  | S754_infinity false => (2, 0, 0)
  | S754_zero _ => (0, 0, 0)
  | S754_finite false m e => (1, e, Z.pos m)
  | S754_finite true m e => (-1, - e, Z.neg m)
  end%Z.

Definition lex_lt (a b : Z * Z * Z) : Prop :=
  let '(a1, a2, a3) := a in
  let '(b1, b2, b3) := b in
  (a1 < b1 \/ (a1 = b1 /\ (a2 < b2 \/ (a2 = b2 /\ a3 < b3))))%Z.

(** A rank that also puts [-0] below [0], as [Math.max] does. *)
Definition max_rank (x : number) : Z * Z * Z :=
  match x with
  | S754_zero false => (0, 0, 1)%Z
  | _ => rank x
  end.

(** ** Payloads the handler and the schema accept *)

(** The number of an override, when there is one, passes its cast. *)
Definition custom_ok (body : MatchBody) : bool :=
  match b_customPointsAfter body with
  | Some c => cast_number c
  | None => true
  end.

(** A POST body: the four fields are present and their stored values pass the
    validators. *)
Definition post_body_ok (body : MatchBody) : bool :=
  truthy (b_deck body) && truthy (b_opp body)
  && truthy (b_result body) && truthy (b_turn body)
  && required_string (trim (str (b_deck body)))
  && required_string (trim (str (b_opp body)))
  && enum_member ["Win"; "Loss"]%string (str (b_result body))
  && enum_member ["1st"; "2nd"]%string (str (b_turn body))
  && custom_ok body.

(** A PUT body: each field that is assigned passes its validators. *)
Definition put_body_ok (body : MatchBody) : bool :=
  (negb (truthy (b_deck body)) || required_string (trim (str (b_deck body))))
  && (negb (truthy (b_opp body)) || required_string (trim (str (b_opp body))))
  && (negb (truthy (b_result body))
      || enum_member ["Win"; "Loss"]%string (str (b_result body)))
  && (negb (truthy (b_turn body))
      || enum_member ["1st"; "2nd"]%string (str (b_turn body)))
  && custom_ok body.

(** ** A concrete history *)

Definition ex_body (r : string) : MatchBody :=
  mkMatchBody (Some "Branded"%string) (Some "Maliss"%string) (Some r)
              (Some "1st"%string) None.

(** A rated session starting at 1500 with a Win, a Loss and a Win. *)
Definition ex_requests : list Request :=
  [ CreateSession 1 7 (mkSessionBody (Some "Ladder"%string) None None);
    AddMatch 10 7 1 (ex_body "Win");
    AddMatch 11 7 1 (ex_body "Loss");
    AddMatch 12 7 1 (ex_body "Win") ].

(** The collection those requests leave, and the session stored in it. *)
Definition ex_store : Store := run ex_requests ∅.

Definition ex_match (id : N) (r : string) (before after : number) : Match :=
  mkMatch id "Branded" "Maliss" r "1st" before after None.

Definition ex_session : Session :=
  mkSession 7 "Ladder"
            [ ex_match 10 "Win" 1500 1507;
              ex_match 11 "Loss" 1507 1500;
              ex_match 12 "Win" 1500 1507 ]
            "rated" 1500.

(** ** Statement vocabulary *)

Definition points_of (m : Match) : number * number := (pointsBefore m, pointsAfter m).

Definition result_name (r : ResultE) : string :=
  match r with Win => "Win" | Loss => "Loss" end.

Definition formula_name (f : FormulaE) : string :=
  match f with rated => "rated" | dc => "dc" end.




(** [x] is not above [v]: the test [v < x] fails. *)
Definition not_above (x v : number) : Prop := (v <? x) = false.

(** The peak of a session: one of its point values, which none of them is
    above. *)
Definition is_peak (s : Session) (v : number) : Prop :=
  not_above (pointsStart s) v
  /\ (forall m, In m (matches s) -> not_above (pointsAfter m) v)
  /\ (v = pointsStart s \/ exists m, In m (matches s) /\ v = pointsAfter m).

(** One win out of three matches. *)
Definition ex_session_1of3 : Session :=
  mkSession 7 "Ladder"
            [ ex_match 10 "Loss" 1500 1493;
              ex_match 11 "Win" 1493 1500;
              ex_match 12 "Loss" 1500 1493 ]
            "rated" 1500.

(** [m'] is the match [m] with its override, if it had one, still set. *)
Definition kept (m m' : Match) : Prop :=
  _id m' = _id m
  /\ (is_Some (customPointsAfter m) -> is_Some (customPointsAfter m')).

(** Every match of [s] that carries an override is still in [s'], at the same
    index, and still carries one. *)
Definition overrides_kept (s s' : Session) : Prop :=
  forall j m, matches s !! j = Some m -> is_Some (customPointsAfter m) ->
    exists m', matches s' !! j = Some m' /\ _id m' = _id m
               /\ is_Some (customPointsAfter m').

(** The concrete history followed by an edit that pins the second match at
    1490, and the session it leaves. *)
Definition ex_pinned : list Request :=
  ex_requests
  ++ [ UpdateMatch 7 1 11 (mkMatchBody None None None None (Some 1490)) ].

Definition ex_pinned_session : Session :=
  mkSession 7 "Ladder"
            [ ex_match 10 "Win" 1500 1507;
              mkMatch 11 "Branded" "Maliss" "Loss" "1st" 1507 1490 (Some 1490);
              ex_match 12 "Win" 1490 1497 ]
            "rated" 1500.

(** * Further notions: requests, frames and the derived ledger *)

(** The authenticated user of a request. *)
Definition request_user (r : Request) : N :=
  match r with
  | CreateSession _ reqUser _ => reqUser
  | AddMatch _ reqUser _ _ => reqUser
  | UpdateMatch reqUser _ _ _ => reqUser
  | DeleteMatch reqUser _ _ => reqUser
  | ClearMatches reqUser _ => reqUser
  end.

(** The session a match route addresses. *)
Definition request_session (r : Request) : option N :=
  match r with
  | CreateSession _ _ _ => None
  | AddMatch _ _ sid _ => Some sid
  | UpdateMatch _ sid _ _ => Some sid
  | DeleteMatch _ sid _ => Some sid
  | ClearMatches _ sid => Some sid
  end.

(** Everything of a match but its two point fields. *)
Definition descr (m : Match)
  : N * string * string * string * string * option number :=
  (_id m, deck m, opp m, result m, turn m, customPointsAfter m).

(** The points of every match are the ones the scoring rule and the overrides
    give, entered with points [p]. *)
Fixpoint derived_from (formula : string) (p : number) (ms : list Match) : Prop :=
  match ms with
  | [] => True
  | m :: rest =>
      pointsBefore m = p
      /\ pointsAfter m
         = match customPointsAfter m with
           | Some c => c
           | None => scoring_rule_str p (result m) formula
           end
      /\ derived_from formula (pointsAfter m) rest
  end.

Definition derived (s : Session) : Prop :=
  derived_from (pointsFormula s) (pointsStart s) (matches s).

(** An edit that assigns [result] and carries no override. *)
Definition bare_result_edit (r : Request) : Prop :=
  match r with
  | UpdateMatch _ _ _ body =>
      b_customPointsAfter body = None /\ truthy (b_result body) = true
  | _ => False
  end.

(** * The deck routes of a session (routes/matches.js, lines 453-537) *)

Module Decks.

(** A session document together with its [decks] array
    ([decks: [{ type: String, trim: true }]]). *)
Record SessionDoc := mkSessionDoc {
  session : Session;
  decks : list string
}.

Record Response := mkResponse {
  status : nat;
  success : bool;
  message : string;
  resSession : option SessionDoc
}.

Record Outcome := mkOutcome {
  response : Response;
  store : gmap N SessionDoc
}.

Definition failure (code : nat) (msg : string) : Response :=
  mkResponse code false msg None.

(** [Session.findOne({ _id, user })]. *)
Definition findOne (sid reqUser : N) (st : gmap N SessionDoc)
  : option SessionDoc :=
  match st !! sid with
  | Some doc => if (user (session doc) =? reqUser)%N then Some doc else None
  | None => None
  end.

(** [doc.save()]: the [decks] path has no validator of its own. *)
Definition save (sid : N) (doc : SessionDoc) (st : gmap N SessionDoc)
  : option (gmap N SessionDoc) :=
  if validate_session (session doc) then Some (<[sid := doc]> st) else None.

(** [decks.includes(deckName)]. *)
Definition includes (deckName : string) (l : list string) : bool :=
  existsb (fun deck => (deck =? deckName)%string) l.

(** POST /api/sessions/:id/decks. *)
Definition add_deck (reqUser sid : N) (deckName : option string)
           (st : gmap N SessionDoc) : Outcome :=
  if negb (truthy deckName) then
    mkOutcome (failure 400 "Deck name is required") st
  else
    match findOne sid reqUser st with
    | None => mkOutcome (failure 404 "Session not found") st
    | Some doc =>
        if includes (str deckName) (decks doc) then
          mkOutcome (failure 400 "Deck already exists in this session") st
        else
          let doc' :=
            mkSessionDoc (session doc) (decks doc ++ [trim (str deckName)]) in
          match save sid doc' st with
          | Some st' =>
              mkOutcome (mkResponse 200 true "Deck added successfully"
                                    (Some doc')) st'
          | None =>
              mkOutcome (failure 500 "Server error while adding deck") st
          end
    end.

(** DELETE /api/sessions/:id/decks/:deckName; the assigned array goes through
    the [trim] setter. *)
Definition remove_deck (reqUser sid : N) (deckName : string)
           (st : gmap N SessionDoc) : Outcome :=
  match findOne sid reqUser st with
  | None => mkOutcome (failure 404 "Session not found") st
  | Some doc =>
      let doc' :=
        mkSessionDoc
          (session doc)
          (map trim
               (List.filter (fun deck => negb (deck =? deckName)%string)
                            (decks doc))) in
      match save sid doc' st with
      | Some st' =>
          mkOutcome (mkResponse 200 true "Deck removed successfully"
                                (Some doc')) st'
      | None =>
          mkOutcome (failure 500 "Server error while removing deck") st
      end
  end.

(** Stored deck names have been through the [trim] setter. *)
Definition trimmed (l : list string) : Prop := Forall (fun d => trim d = d) l.

(** A concrete document: the example session with two decks. *)
Definition ex_doc : SessionDoc :=
  mkSessionDoc ex_session ["Branded"; "Maliss"]%string.

Definition ex_docs : gmap N SessionDoc := {[ 1%N := ex_doc ]}.

End Decks.

(** * The post-save hook of a session (models/session.js, lines 108-142) *)

Module PostSave.

(** The fields of [user.stats] the hook assigns. *)
Record UserStats := mkUserStats {
  totalMatches : nat;
  wins : nat;
  losses : nat;
  currentPoints : number;
  peakPoints : number
}.

(** The body of [sessions.forEach], on the four variables it updates:
    [totalMatches], [wins], [currentPoints], [peakPoints]. *)
Definition forEach_body (acc : nat * nat * number * number) (session : Session)
  : nat * nat * number * number :=
  let '(totalMatches, wins, currentPoints, peakPoints) := acc in
  let totalMatches := (totalMatches + length (matches session))%nat in
  let wins := (wins + length (List.filter isWin (matches session)))%nat in
  if (0 <? length (matches session))%nat then
    let sessionPoints :=
      default currentPoints
              (pointsAfter
                 <$> matches session !! (length (matches session) - 1)%nat) in
    (totalMatches, wins, sessionPoints,
     Math_max (peakPoints :: map pointsAfter (matches session)))
  else (totalMatches, wins, currentPoints, peakPoints).

(** The hook, given the saved session [this] and the active sessions of its
    user as the query returns them. *)
Definition post_save (this : Session) (sessions : list Session) : UserStats :=
  let currentPoints :=
    if (pointsFormula this =? "rated")%string then 1500 else 0 in
  let peakPoints := currentPoints in
  let '(totalMatches, wins, currentPoints, peakPoints) :=
    fold_left forEach_body sessions (0%nat, 0%nat, currentPoints, peakPoints) in
  mkUserStats totalMatches wins (totalMatches - wins) currentPoints peakPoints.

(** The starting value of the hook. *)
Definition initial (this : Session) : number :=
  if (pointsFormula this =? "rated")%string then 1500 else 0.

(** All matches of the listed sessions, in order. *)
Definition all_matches (sessions : list Session) : list Match :=
  concat (map matches sessions).

End PostSave.

(** * The tier list: model methods (routes/matches.js, lines 836-907) and the
    vote route (routes/leaderboard.js, lines 438-503) *)

Module TierList.

Record Vote := mkVote {
  user : N;
  type : string
}.

Record TierItem := mkTierItem {
  title : option string;
  imageUrl : string;
  category : string;
  votes : list Vote;
  submittedBy : N;
  isApproved : bool;
  score : Z
}.

Definition set_type (t : string) (v : Vote) : Vote := mkVote (user v) t.

Definition set_votes (vs : list Vote) (i : TierItem) : TierItem :=
  mkTierItem (title i) (imageUrl i) (category i) vs (submittedBy i)
             (isApproved i) (score i).

Definition set_score (n : Z) (i : TierItem) : TierItem :=
  mkTierItem (title i) (imageUrl i) (category i) (votes i) (submittedBy i)
             (isApproved i) n.

(** [calculateScore]: likes minus dislikes. *)
Definition calculateScore (this : TierItem) : Z :=
  let likes :=
    length (List.filter (fun v => (type v =? "like")%string) (votes this)) in
  let dislikes :=
    length (List.filter (fun v => (type v =? "dislike")%string) (votes this)) in
  (Z.of_nat likes - Z.of_nat dislikes)%Z.

(** [hasUserVoted]: the user's vote, or [undefined]. *)
Definition hasUserVoted (this : TierItem) (userId : N) : option Vote :=
  List.find (fun v => (user v =? userId)%N) (votes this).

(** [getUserVote]: the type of the user's vote, or [null]. *)
Definition getUserVote (this : TierItem) (userId : N) : option string :=
  match List.find (fun v => (user v =? userId)%N) (votes this) with
  | Some vote => Some (type vote)
  | None => None
  end.

(** [votes.findIndex(v => v.user.toString() === req.user.id)]. *)
Fixpoint findIndex (userId : N) (vs : list Vote) : option nat :=
  match vs with
  | [] => None
  | v :: r =>
      if (user v =? userId)%N then Some 0%nat
      else option_map S (findIndex userId r)
  end.

(** The validators of the two schemas. *)
Definition validate_vote (v : Vote) : bool :=
  required_string (type v) && enum_member ["like"; "dislike"]%string (type v).

Definition validate_item (i : TierItem) : bool :=
  match title i with
  | Some t => (js_length t <=? 200)%nat
  | None => true
  end
  && required_string (imageUrl i)
  && enum_member ["non-engine"; "engine"; "staple"; "tech"]%string (category i)
  && forallb validate_vote (votes i).

(** [save]: the validators, then the pre-save hook that refreshes [score]. *)
Definition save (id : N) (item : TierItem) (st : gmap N TierItem)
  : option (gmap N TierItem) :=
  if validate_item item
  then Some (<[id := set_score (calculateScore item) item]> st)
  else None.

Record Response := mkResponse {
  status : nat;
  success : bool;
  message : string;
  tierItem : option TierItem;
  userVote : option string
}.

Record Outcome := mkOutcome {
  response : Response;
  store : gmap N TierItem
}.

Definition failure (code : nat) (msg : string) : Response :=
  mkResponse code false msg None None.

(** POST /api/tier-list/:id/vote. *)
Definition vote_route (reqUser id : N) (vote : option string)
           (st : gmap N TierItem) : Outcome :=
  if negb (truthy vote)
     || negb (existsb (String.eqb (str vote)) ["like"; "dislike"]%string) then
    mkOutcome
      (failure 400 "Please provide a valid vote type (like or dislike)") st
  else
    match st !! id with
    | None => mkOutcome (failure 404 "Tier item not found") st
    | Some tierItem =>
        let votes' :=
          match findIndex reqUser (votes tierItem) with
          | Some existingVoteIndex =>
              match votes tierItem !! existingVoteIndex with
              | Some existing =>
                  if (type existing =? str vote)%string
                  then delete existingVoteIndex (votes tierItem)
                  else alter (set_type (str vote)) existingVoteIndex
                             (votes tierItem)
              | None => votes tierItem
              end
          | None => votes tierItem ++ [mkVote reqUser (str vote)]
          end in
        let item1 := set_votes votes' tierItem in
        let item2 := set_score (calculateScore item1) item1 in
        match save id item2 st with
        | Some st' =>
            let saved := set_score (calculateScore item2) item2 in
            mkOutcome
              (mkResponse 200 true "Vote submitted successfully"
                          (Some saved) (getUserVote saved reqUser)) st'
        | None =>
            mkOutcome (failure 500 "Server error while submitting vote") st
        end
    end.

(** A concrete item with one like and one dislike. *)
Definition ex_item : TierItem :=
  mkTierItem (Some "Maxx C"%string) "maxx.png" "staple"
             [mkVote 7 "like"; mkVote 8 "dislike"] 1 true 0.

Definition ex_items : gmap N TierItem := {[ 5%N := ex_item ]}.

End TierList.

(** ** Notions for the statements about votes *)

(** The votes after the route has applied the caller's vote (the branch on
    [existingVoteIndex], leaderboard.js lines 459-478). *)
Definition cast_vote (reqUser : N) (vote : string) (vs : list TierList.Vote)
  : list TierList.Vote :=
  match TierList.findIndex reqUser vs with
  | Some existingVoteIndex =>
      match vs !! existingVoteIndex with
      | Some existing =>
          if (TierList.type existing =? vote)%string
          then delete existingVoteIndex vs
          else alter (TierList.set_type vote) existingVoteIndex vs
      | None => vs
      end
  | None => vs ++ [TierList.mkVote reqUser vote]
  end.

(** What a vote contributes to the score. *)
Definition vote_value (t : option string) : Z :=
  match t with
  | Some s =>
      if (s =? "like")%string then 1%Z
      else if (s =? "dislike")%string then (-1)%Z else 0%Z
  | None => 0%Z
  end.

(** The type of a user's vote in a list of votes. *)
Definition vote_of (vs : list TierList.Vote) (userId : N) : option string :=
  TierList.type <$> List.find (fun v => (TierList.user v =? userId)%N) vs.

(** * Tournaments: the [status] virtual (models/tournament.js, lines 57-62),
    the status filter of the list route and the register route
    (routes/matches.js, lines 557-570 and 787-832) *)

Module Tournaments.

Local Open Scope Q_scope.

(** Dates are their time value in milliseconds. *)
Record Tournament := mkTournament {
  title : string;
  description : string;
  date : Z;
  format : string;
  platform : string;
  createdBy : N;
  isActive : bool;
  maxParticipants : option Q;
  currentParticipants : Q
}.

Definition set_currentParticipants (n : Q) (t : Tournament) : Tournament :=
  mkTournament (title t) (description t) (date t) (format t) (platform t)
               (createdBy t) (isActive t) (maxParticipants t) n.

(** [7 * 24 * 60 * 60 * 1000]. *)
Definition week : Z := (7 * 24 * 60 * 60 * 1000)%Z.

(** The [status] virtual, read at time [now]. *)
Definition status (now : Z) (this : Tournament) : string :=
  if (date this <? now)%Z then "completed"
  else if (date this <? now + week)%Z then "upcoming"
  else "scheduled".

(** The condition [filter.date] that GET /api/tournaments builds from the
    [status] query parameter, as a test on a date. *)
Definition date_filter (now : Z) (status : option string) (d : Z) : bool :=
  if truthy status then
    if (str status =? "upcoming")%string then
      (now <=? d)%Z && (d <=? now + week)%Z
    else if (str status =? "scheduled")%string then (now + week <? d)%Z
    else if (str status =? "completed")%string then (d <? now)%Z
    else true
  else true.

Definition validate_tournament (t : Tournament) : bool :=
  required_string (title t) && (js_length (title t) <=? 200)%nat
  && required_string (description t)
  && (js_length (description t) <=? 1000)%nat
  && enum_member
       ["single-elimination"; "double-elimination"; "swiss"; "round-robin"]%string
       (format t)
  && enum_member ["masterduel"; "duelingbook"; "other"]%string (platform t).

Definition save (id : N) (t : Tournament) (st : gmap N Tournament)
  : option (gmap N Tournament) :=
  if validate_tournament t then Some (<[id := t]> st) else None.

Record Response := mkResponse {
  code : nat;
  success : bool;
  message : string;
  tournament : option Tournament
}.

Record Outcome := mkOutcome {
  response : Response;
  store : gmap N Tournament
}.

Definition failure (c : nat) (msg : string) : Response :=
  mkResponse c false msg None.

(** JavaScript truthiness of an optional number. *)
Definition truthy_number (n : option Q) : bool :=
  match n with
  | Some q => negb (Qeq_bool q 0)
  | None => false
  end.

(** POST /api/tournaments/:id/register, run at time [now]. *)
Definition register (now : Z) (id : N) (st : gmap N Tournament) : Outcome :=
  match st !! id with
  | None => mkOutcome (failure 404 "Tournament not found") st
  | Some tournament =>
      if (date tournament <? now)%Z then
        mkOutcome
          (failure 400 "Cannot register for completed tournament") st
      else if truthy_number (maxParticipants tournament)
              && Qle_bool (default 0 (maxParticipants tournament))
                          (currentParticipants tournament) then
        mkOutcome (failure 400 "Tournament is full") st
      else
        let tournament' :=
          set_currentParticipants (currentParticipants tournament + 1)
                                  tournament in
        match save id tournament' st with
        | Some st' =>
            mkOutcome (mkResponse 200 true
                         "Successfully registered for tournament"
                         (Some tournament')) st'
        | None =>
            mkOutcome
              (failure 500 "Server error while registering for tournament")
              st
        end
  end.

(** A concrete tournament on day 10 with room for two, one place taken. *)
Definition ex_tournament : Tournament :=
  mkTournament "Weekly" "Open cup" (10 * 86400000) "swiss" "masterduel" 1
               true (Some 2) 1.


End Tournaments.

(** * The statistics of a deck list (routes/matches.js, lines 951-982) *)

Module DeckLists.

(** [session.matches], named apart from the [matches] counter below. *)
Definition session_matches (session : Session) : list Match := matches session.

(** The fields of [this.stats] that [updateStats] assigns. *)
Record DeckStats := mkDeckStats {
  matches : nat;
  wins : nat;
  overallWR : string;
  wrGoing1st : string;
  wrGoing2nd : string
}.

Section UpdateStats.

(** The conversion of a number to a string done by the template literal. *)
Variable toString : number -> string.

(** The body of [sessions.forEach], on the six counters [matches], [wins],
    [matches1st], [wins1st], [matches2nd], [wins2nd]. *)
Definition forEach_body (name : string)
           (acc : nat * nat * nat * nat * nat * nat) (session : Session)
  : nat * nat * nat * nat * nat * nat :=
  let '(matches, wins, matches1st, wins1st, matches2nd, wins2nd) := acc in
  let deckMatches :=
    List.filter (fun m => (deck m =? name)%string) (session_matches session) in
  let matches := (matches + length deckMatches)%nat in
  let wins := (wins + length (List.filter isWin deckMatches))%nat in
  let firstMatches := List.filter is1st deckMatches in
  let matches1st := (matches1st + length firstMatches)%nat in
  let wins1st := (wins1st + length (List.filter isWin firstMatches))%nat in
  let secondMatches := List.filter is2nd deckMatches in
  let matches2nd := (matches2nd + length secondMatches)%nat in
  let wins2nd := (wins2nd + length (List.filter isWin secondMatches))%nat in
  (matches, wins, matches1st, wins1st, matches2nd, wins2nd).

(** [updateStats], given the deck list's [name] and the active sessions of
    its user as the query returns them. *)
Definition updateStats (name : string) (sessions : list Session) : DeckStats :=
  let '(matches, wins, matches1st, wins1st, matches2nd, wins2nd) :=
    fold_left (forEach_body name) sessions
              (0%nat, 0%nat, 0%nat, 0%nat, 0%nat, 0%nat) in
  mkDeckStats
    matches wins
    (if (0 <? matches)%nat
     then (toString (Math_round ((num wins / num matches) * 1000) / 10)
           ++ "%")%string
     else "0%"%string)
    (if (0 <? matches1st)%nat
     then (toString (Math_round ((num wins1st / num matches1st) * 1000) / 10)
           ++ "%")%string
     else "0%"%string)
    (if (0 <? matches2nd)%nat
     then (toString (Math_round ((num wins2nd / num matches2nd) * 1000) / 10)
           ++ "%")%string
     else "0%"%string).

End UpdateStats.

(** All matches of the listed sessions played with the deck [name]. *)
Definition played_with (name : string) (sessions : list Session)
  : list Match :=
  List.filter (fun m => (deck m =? name)%string)
              (concat (map session_matches sessions)).

(** A session holding just the matches [ms]; only its matches matter to the
    win rates. *)
Definition session_of (ms : list Match) : Session :=
  mkSession 0 EmptyString ms "rated" 1500.

(** 201 wins out of 400 matches, all with one deck. *)
Definition ex_session_201of400 : Session :=
  mkSession 7 "Ladder"
            (map (fun i => ex_match (N.of_nat i)
                             (if (i <? 201)%nat then "Win" else "Loss")
                             1500 1500)
                 (seq 0 400))
            "rated" 1500.

End DeckLists.

(** * Proofs *)

(** ** Numbers: rounding never yields NaN *)

Lemma shr_1_nonneg (r : shr_record) :
  (0 <= shr_m r)%Z -> (0 <= shr_m (shr_1 r))%Z.
Proof. destruct r as [[|[p|p|]|p] r s]; simpl; lia. Qed.

Lemma iter_pos_shr_1_nonneg (n : positive) (r : shr_record) :
  (0 <= shr_m r)%Z -> (0 <= shr_m (SpecFloat.iter_pos shr_1 n r))%Z.
Proof.
  revert r. induction n as [n IH|n IH|]; intros r Hr; simpl;
    auto using shr_1_nonneg.
Qed.

Lemma shr_fexp_nonneg (m e : Z) (l : location) :
  (0 <= m)%Z -> (0 <= shr_m (fst (shr_fexp 53 1024 m e l)))%Z.
Proof.
  intros Hm. unfold shr_fexp, shr.
  assert (H0 : (0 <= shr_m (shr_record_of_loc m l))%Z)
    by (by destruct l as [|[]]).
  destruct (fexp 53 1024 (Zdigits2 m + e) - e)%Z; simpl; [done| |done].
  by apply iter_pos_shr_1_nonneg.
Qed.

Lemma round_nearest_even_nonneg (m : Z) (l : location) :
  (0 <= m)%Z -> (0 <= round_nearest_even m l)%Z.
Proof.
  intros Hm. destruct l as [|[]]; simpl; [done| |done|lia].
  destruct (Z.even m); lia.
Qed.

Lemma binary_round_aux_not_nan (s : bool) (m e : Z) (l : location) :
  (0 <= m)%Z -> is_nan (binary_round_aux 53 1024 s m e l) = false.
Proof.
  intros Hm. unfold binary_round_aux.
  pose proof (shr_fexp_nonneg m e l Hm) as H1.
  destruct (shr_fexp 53 1024 m e l) as [mrs' e'] eqn:E1. simpl in H1.
  pose proof (shr_fexp_nonneg
                (round_nearest_even (shr_m mrs') (loc_of_shr_record mrs')) e'
                loc_Exact (round_nearest_even_nonneg _ _ H1)) as H2.
  destruct (shr_fexp 53 1024 _ e' loc_Exact) as [mrs'' e''] eqn:E2.
  simpl in H2. destruct (shr_m mrs''); [done| |lia].
  by destruct (e'' <=? 1024 - 53)%Z.
Qed.

Lemma binary_normalize_not_nan (m e : Z) (s : bool) :
  is_nan (binary_normalize 53 1024 m e s) = false.
Proof.
  destruct m as [|p|p]; simpl; [done|..]; unfold binary_round;
    destruct (shl_align _ _ _) as [mz ez]; by apply binary_round_aux_not_nan.
Qed.

Lemma fadd_not_nan (x : number) (s : bool) (m : positive) (e : Z) :
  is_nan x = false -> is_nan (x + S754_finite s m e) = false.
Proof.
  destruct x as [sx|sx| |sx mx ex]; try done; intros _.
  apply binary_normalize_not_nan.
Qed.

Lemma fsub_not_nan (x : number) (s : bool) (m : positive) (e : Z) :
  is_nan x = false -> is_nan (x - S754_finite s m e) = false.
Proof.
  destruct x as [sx|sx| |sx mx ex]; try done; intros _.
  apply binary_normalize_not_nan.
Qed.

(** ** Numbers: the order *)

Lemma SFcompare_not_nan (x y : number) :
  is_nan x = false -> is_nan y = false -> is_Some (SFcompare x y).
Proof. destruct x, y; simpl; try done; intros _ _; by eexists. Qed.

Lemma compare_cont_opp (p q : positive) :
  Pos.compare_cont Eq q p = CompOpp (Pos.compare_cont Eq p q).
Proof. by rewrite Pos.compare_cont_antisym. Qed.

Lemma SFcompare_opp (x y : number) (c : comparison) :
  SFcompare x y = Some c -> SFcompare y x = Some (CompOpp c).
Proof.
  destruct x as [sx|sx| |sx mx ex], y as [sy|sy| |sy my ey]; simpl;
    try done;
    try (intros [= <-];
         repeat match goal with s : bool |- _ => destruct s end; done).
  intros [= <-]. f_equal. rewrite (Z.compare_antisym ex ey).
  rewrite (compare_cont_opp mx my).
  destruct sx, sy, (ex ?= ey)%Z; simpl; done.
Qed.

(** Away from NaN, [x < y] is the negation of [y <= x]. *)
Lemma flt_fle (x y : number) :
  is_nan x = false -> is_nan y = false -> (x <? y) = negb (y <=? x).
Proof.
  intros Hx Hy. unfold flt, fle, SFltb, SFleb.
  destruct (SFcompare_not_nan x y Hx Hy) as [c Hc].
  rewrite Hc, (SFcompare_opp x y c Hc). by destruct c.
Qed.

Lemma flt_irrefl (x : number) : (x <? x) = false.
Proof.
  destruct x as [s|s| |s m e]; try done.
  - by destruct s.
  - unfold flt, SFltb. simpl. rewrite Z.compare_refl.
    rewrite (Pos.compare_cont_refl m Eq). by destruct s.
Qed.

Lemma flt_asym (x y : number) : (x <? y) = true -> (y <? x) = false.
Proof.
  unfold flt, SFltb. destruct (SFcompare x y) as [[]|] eqn:E; try done.
  intros _. by rewrite (SFcompare_opp x y Lt E).
Qed.

Lemma flt_nan_l (x : number) : (S754_nan <? x) = false.
Proof. done. Qed.

Lemma flt_nan_r (x : number) : (x <? S754_nan) = false.
Proof. by destruct x. Qed.

Lemma flt_rank (x y : number) :
  is_nan x = false -> is_nan y = false ->
  (x <? y) = true <-> lex_lt (rank x) (rank y).
Proof.
  unfold flt, SFltb.
  destruct x as [sx|sx| |sx mx ex], y as [sy|sy| |sy my ey]; try done;
    intros _ _; simpl;
    repeat match goal with s : bool |- _ => destruct s end; simpl;
    try (split; [done | lia]); try (split; [lia | done]);
    (destruct (Z.compare_spec ex ey) as [-> | H | H]; simpl;
     [ rewrite Pos.compare_cont_spec; simpl;
       destruct (Pos.compare_spec mx my) as [-> | H | H]; simpl;
       split; try done; lia
     | split; try done; lia
     | split; try done; lia ]).
Qed.

Lemma not_above_trans (x y z : number) :
  is_nan y = false ->
  not_above x y -> not_above y z -> not_above x z.
Proof.
  unfold not_above. intros Hy Hxy Hyz.
  destruct (is_nan x) eqn:Hx; [destruct x; try done; apply flt_nan_r|].
  destruct (is_nan z) eqn:Hz; [by destruct z|].
  destruct (z <? x) eqn:E; [|done]. exfalso.
  apply flt_rank in E; try done.
  apply not_true_iff_false in Hxy, Hyz.
  rewrite flt_rank in Hxy, Hyz by done.
  destruct (rank x) as [[a1 a2] a3], (rank y) as [[b1 b2] b3],
    (rank z) as [[c1 c2] c3]; simpl in *; lia.
Qed.

(** Away from NaN, "not above" is [<=]. *)
Lemma not_above_fle (x v : number) :
  is_nan x = false -> is_nan v = false ->
  not_above x v <-> (x <=? v) = true.
Proof.
  intros Hx Hv. unfold not_above. rewrite (flt_fle v x Hv Hx).
  by destruct (x <=? v).
Qed.

(** ** Numbers: [Math.max] *)

Lemma max_step_cases (h x : number) :
  max_step h x = h \/ max_step h x = x.
Proof.
  unfold max_step.
  destruct h as [[]|?| |? ? ?], x as [[]|?| |? ? ?]; auto;
    match goal with |- context [if ?b then _ else _] => destruct b end; auto.
Qed.

Lemma max_step_nan (h x : number) :
  is_nan (max_step h x) = is_nan h || is_nan x.
Proof.
  unfold max_step.
  destruct h as [[]|?| |? ? ?], x as [[]|?| |? ? ?]; try done;
    match goal with |- context [if ?b then _ else _] => destruct b end; done.
Qed.

Lemma max_step_ge_l (h x : number) : not_above h (max_step h x).
Proof.
  unfold not_above.
  destruct (is_nan h) eqn:Hh; [by destruct h|].
  destruct (is_nan x) eqn:Hx;
    [by destruct h as [[]|?| |? ? ?], x as [[]|?| |? ? ?]|].
  assert (E : max_step h x = (if h <? x then x else h)
              \/ (max_step h x = x /\ (x <? h) = false)).
  { destruct h as [[]|sh| |sh mh eh], x as [[]|sx| |sx mx ex]; try done;
      by auto. }
  destruct E as [-> | [-> E]]; [|done].
  destruct (h <? x) eqn:F; [by apply flt_asym | apply flt_irrefl].
Qed.

Lemma max_step_ge_r (h x : number) : not_above x (max_step h x).
Proof.
  unfold not_above.
  destruct (is_nan h) eqn:Hh; [by destruct h|].
  destruct (is_nan x) eqn:Hx;
    [by destruct h as [[]|?| |? ? ?], x as [[]|?| |? ? ?]|].
  assert (E : max_step h x = (if h <? x then x else h)
              \/ max_step h x = x).
  { destruct h as [[]|sh| |sh mh eh], x as [[]|sx| |sx mx ex]; try done;
      by auto. }
  destruct E as [-> | ->]; [|apply flt_irrefl].
  destruct (h <? x) eqn:F; [apply flt_irrefl | done].
Qed.

Lemma fold_max_cases (xs : list number) (h : number) :
  fold_left max_step xs h = h \/ In (fold_left max_step xs h) xs.
Proof.
  revert h. induction xs as [|x xs IH]; intros h; simpl; [by left|].
  destruct (IH (max_step h x)) as [H | H]; [|by right; right].
  rewrite H.
  destruct (max_step_cases h x) as [-> | ->]; [by left | by right; left].
Qed.

Lemma fold_max_nan (xs : list number) (h : number) :
  is_nan (fold_left max_step xs h) = is_nan h || existsb is_nan xs.
Proof.
  revert h. induction xs as [|x xs IH]; intros h; simpl.
  - by rewrite orb_false_r.
  - by rewrite IH, max_step_nan, orb_assoc.
Qed.

Lemma not_above_nan (x v : number) : is_nan v = true -> not_above x v.
Proof. unfold not_above. by destruct v. Qed.

Lemma fold_max_ge_init (xs : list number) (h : number) :
  not_above h (fold_left max_step xs h).
Proof.
  revert h. induction xs as [|x xs IH]; intros h; simpl.
  - apply flt_irrefl.
  - destruct (is_nan (max_step h x)) eqn:E.
    + apply not_above_nan. by rewrite fold_max_nan, E.
    + eapply not_above_trans; [exact E | apply max_step_ge_l | apply IH].
Qed.

Lemma fold_max_ge_elem (xs : list number) (h y : number) :
  In y xs -> not_above y (fold_left max_step xs h).
Proof.
  revert h. induction xs as [|x xs IH]; intros h; simpl; [done|].
  intros [-> | Hin]; [|by apply IH].
  destruct (is_nan (max_step h y)) eqn:E.
  - apply not_above_nan. by rewrite fold_max_nan, E.
  - eapply not_above_trans;
      [exact E | apply max_step_ge_r | apply fold_max_ge_init].
Qed.

(** [Math.max] of a non-empty argument list is one of the arguments. *)
Lemma Math_max_attained (x : number) (xs : list number) :
  In (Math_max (x :: xs)) (x :: xs).
Proof.
  unfold Math_max. cbn [fold_left].
  assert (H1 : max_step (S754_infinity true) x = x).
  { destruct x as [[]|[]| |[] m e]; done. }
  rewrite H1. destruct (fold_max_cases xs x) as [-> | H]; [by left | by right].
Qed.

Lemma Math_max_ge (args : list number) (y : number) :
  In y args -> not_above y (Math_max args).
Proof. apply fold_max_ge_elem. Qed.

(** ** Numbers: the order of the arguments of [Math.max] *)

Lemma max_rank_inj (x y : number) :
  is_nan x = false -> is_nan y = false -> max_rank x = max_rank y -> x = y.
Proof.
  destruct x as [[]|[]| |[] mx ex], y as [[]|[]| |[] my ey]; try done;
    simpl; intros _ _ H; inversion H; subst; try done.
  by replace ex with ey by lia.
Qed.

Lemma lex_lt_cases (a b : Z * Z * Z) : lex_lt a b \/ a = b \/ lex_lt b a.
Proof.
  destruct a as [[a1 a2] a3], b as [[b1 b2] b3]. unfold lex_lt.
  destruct (Z.lt_trichotomy a1 b1) as [?|[->|?]]; [lia| |lia].
  destruct (Z.lt_trichotomy a2 b2) as [?|[->|?]]; [lia| |lia].
  destruct (Z.lt_trichotomy a3 b3) as [?|[->|?]]; [lia| |lia].
  auto.
Qed.

Lemma lex_lt_asym (a b : Z * Z * Z) : lex_lt a b -> ~ lex_lt b a.
Proof.
  destruct a as [[a1 a2] a3], b as [[b1 b2] b3]. unfold lex_lt. lia.
Qed.

Lemma lex_lt_irrefl (a : Z * Z * Z) : ~ lex_lt a a.
Proof. destruct a as [[a1 a2] a3]. unfold lex_lt. lia. Qed.

Lemma lex_lt_trans (a b c : Z * Z * Z) : lex_lt a b -> lex_lt b c -> lex_lt a c.
Proof.
  destruct a as [[a1 a2] a3], b as [[b1 b2] b3], c as [[c1 c2] c3].
  unfold lex_lt. lia.
Qed.

(** [Math.max] of two numbers other than NaN is the one of larger rank. *)
Lemma max_step_rank (h x : number) :
  is_nan h = false -> is_nan x = false ->
  (lex_lt (max_rank h) (max_rank x) -> max_step h x = x)
  /\ (~ lex_lt (max_rank h) (max_rank x) -> max_step h x = h).
Proof.
  intros Hh Hx. pose proof (flt_rank h x Hh Hx) as Hr.
  destruct h as [[]|[]| |[] mh eh], x as [[]|[]| |[] mx ex]; try done;
    simpl in *; unfold lex_lt in *;
    try (split; intros; (done || lia));
    (destruct (_ <? _) eqn:Hlt;
     [ assert (Ht := proj1 Hr eq_refl); split; intros; (done || lia)
     | assert (Hf : ~ _) by (intros Ht; apply Hr in Ht; done);
       split; intros; (done || lia) ]).
Qed.

Lemma is_nan_true (x : number) : is_nan x = true -> x = S754_nan.
Proof. by destruct x. Qed.

Lemma max_step_nan_l (x : number) : max_step S754_nan x = S754_nan.
Proof. done. Qed.

Lemma max_step_nan_r (h : number) : max_step h S754_nan = S754_nan.
Proof. by destruct h as [[]|[]| |[] m e]. Qed.

(** The order in which [Math.max] meets its arguments does not matter. *)
Lemma max_step_swap (a b x : number) :
  max_step (max_step a b) x = max_step (max_step a x) b.
Proof.
  destruct (is_nan a) eqn:Ha;
    [apply is_nan_true in Ha; subst; by rewrite !max_step_nan_l|].
  destruct (is_nan b) eqn:Hb;
    [apply is_nan_true in Hb; subst;
     by rewrite !max_step_nan_r, ?max_step_nan_l|].
  destruct (is_nan x) eqn:Hx;
    [apply is_nan_true in Hx; subst;
     by rewrite !max_step_nan_r, ?max_step_nan_l|].
  assert (Hpick : forall u v, is_nan u = false -> is_nan v = false ->
            (lex_lt (max_rank u) (max_rank v) /\ max_step u v = v)
            \/ (~ lex_lt (max_rank u) (max_rank v) /\ max_step u v = u)).
  { intros u v Hu Hv. destruct (max_step_rank u v Hu Hv) as [H1 H2].
    destruct (lex_lt_cases (max_rank u) (max_rank v)) as [H | [H | H]].
    - left. auto.
    - right. assert (~ lex_lt (max_rank u) (max_rank v))
        by (rewrite H; apply lex_lt_irrefl). auto.
    - right. assert (~ lex_lt (max_rank u) (max_rank v))
        by (by apply lex_lt_asym). auto. }
  assert (Heq : forall u v, is_nan u = false -> is_nan v = false ->
            ~ lex_lt (max_rank u) (max_rank v) ->
            ~ lex_lt (max_rank v) (max_rank u) -> u = v).
  { intros u v Hu Hv H1 H2. apply max_rank_inj; [done..|].
    by destruct (lex_lt_cases (max_rank u) (max_rank v)) as [H | [H | H]]. }
  destruct (Hpick a b Ha Hb) as [[Lab Eab] | [Lab Eab]];
    destruct (Hpick a x Ha Hx) as [[Lax Eax] | [Lax Eax]];
    rewrite ?Eab, ?Eax, ?Eab, ?Eax.
  - destruct (Hpick b x Hb Hx) as [[Lbx ->] | [Lbx ->]];
      destruct (Hpick x b Hx Hb) as [[Lxb ->] | [Lxb ->]]; try done.
    + by destruct (lex_lt_asym _ _ Lbx).
    + by apply Heq.
  - destruct (Hpick b x Hb Hx) as [[Lbx ->] | [Lbx ->]]; [|done].
    destruct Lax. by apply (lex_lt_trans _ (max_rank b)).
  - destruct (Hpick x b Hx Hb) as [[Lxb ->] | [Lxb ->]]; [|done].
    destruct Lab. by apply (lex_lt_trans _ (max_rank x)).
  - done.
Qed.

Lemma fold_max_step_out (xs : list number) (a b : number) :
  fold_left max_step xs (max_step a b) = max_step (fold_left max_step xs a) b.
Proof.
  revert a. induction xs as [|x xs IH]; intros a; simpl; [done|].
  by rewrite max_step_swap, IH.
Qed.

(** [Math.max] of a list and one more value, at either end. *)
Lemma Math_max_snoc (xs : list number) (p : number) :
  Math_max (xs ++ [p]) = fold_left max_step xs p.
Proof.
  unfold Math_max. rewrite fold_left_app. simpl.
  rewrite <- fold_max_step_out. by destruct p as [[]|[]| |[] m e].
Qed.

(** ** Numbers: a win rate lies between 0 and 100 *)

Section RoundingFacts.
Local Open Scope Z_scope.

Lemma digits2_pos_bounds (p : positive) :
  2 ^ (Zpos (digits2_pos p) - 1) <= Zpos p < 2 ^ Zpos (digits2_pos p).
Proof.
  induction p as [p IH | p IH |]; simpl digits2_pos.
  - rewrite Pos2Z.inj_succ.
    replace (Z.succ (Zpos (digits2_pos p)) - 1)
      with (Zpos (digits2_pos p)) by lia.
    rewrite Z.pow_succ_r by lia.
    replace (Zpos (digits2_pos p))
      with (Z.succ (Zpos (digits2_pos p) - 1)) at 1 by lia.
    rewrite Z.pow_succ_r by lia. lia.
  - rewrite Pos2Z.inj_succ.
    replace (Z.succ (Zpos (digits2_pos p)) - 1)
      with (Zpos (digits2_pos p)) by lia.
    rewrite Z.pow_succ_r by lia.
    replace (Zpos (digits2_pos p))
      with (Z.succ (Zpos (digits2_pos p) - 1)) at 1 by lia.
    rewrite Z.pow_succ_r by lia. lia.
  - simpl. lia.
Qed.

Lemma digits2_pos_unique (p : positive) (k : Z) :
  2 ^ (k - 1) <= Zpos p < 2 ^ k -> Zpos (digits2_pos p) = k.
Proof.
  intros [Hl Hu]. pose proof (digits2_pos_bounds p) as [Dl Du].
  assert (0 < k).
  { destruct k as [|k|k]; [|lia|].
    - change (2 ^ 0) with 1 in Hu. lia.
    - rewrite Z.pow_neg_r in Hu by lia. lia. }
  destruct (Z.lt_trichotomy (Zpos (digits2_pos p)) k) as [Hlt | [Heq | Hgt]];
    [|done|].
  - assert (2 ^ Zpos (digits2_pos p) <= 2 ^ (k - 1))
      by (apply Z.pow_le_mono_r; lia). lia.
  - assert (2 ^ k <= 2 ^ (Zpos (digits2_pos p) - 1))
      by (apply Z.pow_le_mono_r; lia). lia.
Qed.

(** The record after [n] right shifts. *)
Lemma shr_1_spec (mrs : shr_record) :
  0 <= shr_m mrs ->
  shr_m (shr_1 mrs) = shr_m mrs / 2
  /\ (loc_of_shr_record mrs = loc_Exact -> shr_m mrs mod 2 = 0 ->
      loc_of_shr_record (shr_1 mrs) = loc_Exact).
Proof.
  destruct mrs as [m r s]. simpl. intros Hm.
  destruct m as [|[p|p|]|p]; try lia.
  - by destruct r, s.
  - split; [rewrite Pos2Z.inj_xI; simpl; apply Z.div_unique with 1; lia|].
    intros _ H. rewrite Pos2Z.inj_xI in H.
    assert ((2 * Z.pos p + 1) mod 2 = 1)
      by (symmetry; apply Z.mod_unique with (Z.pos p); lia). lia.
  - split; [rewrite Pos2Z.inj_xO; simpl; apply Z.div_unique with 0; lia|].
    by destruct r, s.
  - split; [done|]. intros _ H. by compute in H.
Qed.

Lemma iter_shr_1_spec (n : positive) (mrs : shr_record) :
  0 <= shr_m mrs ->
  shr_m (SpecFloat.iter_pos shr_1 n mrs) = shr_m mrs / 2 ^ Zpos n
  /\ (loc_of_shr_record mrs = loc_Exact -> shr_m mrs mod 2 ^ Zpos n = 0 ->
      loc_of_shr_record (SpecFloat.iter_pos shr_1 n mrs) = loc_Exact).
Proof.
  assert (Hcomp : forall (j k : Z) (a b c : shr_record),
            0 < j -> 0 < k -> 0 <= shr_m a ->
            (shr_m b = shr_m a / 2 ^ j
             /\ (loc_of_shr_record a = loc_Exact -> shr_m a mod 2 ^ j = 0 ->
                 loc_of_shr_record b = loc_Exact)) ->
            (shr_m c = shr_m b / 2 ^ k
             /\ (loc_of_shr_record b = loc_Exact -> shr_m b mod 2 ^ k = 0 ->
                 loc_of_shr_record c = loc_Exact)) ->
            shr_m c = shr_m a / 2 ^ (j + k)
            /\ (loc_of_shr_record a = loc_Exact -> shr_m a mod 2 ^ (j + k) = 0 ->
                loc_of_shr_record c = loc_Exact)).
  { intros j k a b c Hj Hk Ha [Hb1 Hb2] [Hc1 Hc2].
    assert (0 < 2 ^ j) by (apply Z.pow_pos_nonneg; lia).
    assert (0 < 2 ^ k) by (apply Z.pow_pos_nonneg; lia).
    rewrite Z.pow_add_r by lia. split.
    - rewrite Hc1, Hb1. by rewrite Z.div_div by lia.
    - intros He Hmod.
      rewrite Z.rem_mul_r in Hmod by lia.
      assert (0 <= shr_m a mod 2 ^ j < 2 ^ j) by (apply Z.mod_pos_bound; lia).
      assert (0 <= (shr_m a / 2 ^ j) mod 2 ^ k < 2 ^ k)
        by (apply Z.mod_pos_bound; lia).
      assert (shr_m a mod 2 ^ j = 0) by nia.
      assert ((shr_m a / 2 ^ j) mod 2 ^ k = 0) by nia.
      apply Hc2; [by apply Hb2|]. by rewrite Hb1. }
  revert mrs. induction n as [n IH | n IH |]; intros mrs Hm.
  - cbn [SpecFloat.iter_pos].
    assert (H1 := shr_1_spec mrs Hm).
    assert (Hm1 : 0 <= shr_m (shr_1 mrs)).
    { destruct H1 as [-> _]. apply Z.div_pos; lia. }
    assert (H2 := IH _ Hm1).
    assert (Hm2 : 0 <= shr_m (SpecFloat.iter_pos shr_1 n (shr_1 mrs))).
    { destruct H2 as [-> _]. apply Z.div_pos; [lia|].
      apply Z.pow_pos_nonneg; lia. }
    assert (H3 := IH _ Hm2).
    replace (Zpos n~1) with (1 + (Zpos n + Zpos n)) by lia.
    apply (Hcomp 1 (Zpos n + Zpos n) mrs (shr_1 mrs)); [lia..| |].
    + by rewrite Z.pow_1_r.
    + by apply (Hcomp (Zpos n) (Zpos n) _
                  (SpecFloat.iter_pos shr_1 n (shr_1 mrs))).
  - cbn [SpecFloat.iter_pos].
    assert (H2 := IH _ Hm).
    assert (Hm2 : 0 <= shr_m (SpecFloat.iter_pos shr_1 n mrs)).
    { destruct H2 as [-> _]. apply Z.div_pos; [lia|].
      apply Z.pow_pos_nonneg; lia. }
    assert (H3 := IH _ Hm2).
    replace (Zpos n~0) with (Zpos n + Zpos n) by lia.
    by apply (Hcomp (Zpos n) (Zpos n) _ (SpecFloat.iter_pos shr_1 n mrs)).
  - cbn [SpecFloat.iter_pos]. rewrite Z.pow_1_r. by apply shr_1_spec.
Qed.

Lemma round_nearest_even_cases (m : Z) (l : location) :
  (l = loc_Exact -> round_nearest_even m l = m)
  /\ m <= round_nearest_even m l <= m + 1.
Proof.
  split; [by intros ->|].
  destruct l as [|[]]; simpl; try lia. destruct (Z.even m); lia.
Qed.

Lemma loc_of_shr_record_of_loc (m : Z) (l : location) :
  loc_of_shr_record (shr_record_of_loc m l) = l
  /\ shr_m (shr_record_of_loc m l) = m.
Proof. by destruct l as [|[]]. Qed.

Lemma Zdigits2_bounds (m : Z) :
  0 < m -> 2 ^ (Zdigits2 m - 1) <= m < 2 ^ Zdigits2 m.
Proof. destruct m as [|p|p]; try lia. intros _. apply digits2_pos_bounds. Qed.

Lemma Zdigits2_unique (m k : Z) :
  0 < m -> 2 ^ (k - 1) <= m < 2 ^ k -> Zdigits2 m = k.
Proof. destruct m as [|p|p]; try lia. intros _. apply digits2_pos_unique. Qed.

(** The first step of a rounding, on a mantissa of 53 bits or more in the
    normal range: the mantissa is cut to 53 bits. *)
Lemma shr_fexp_spec (mx ex : Z) (lx : location) :
  2 ^ 52 <= mx -> -1074 <= Zdigits2 mx + ex - 53 ->
  exists mrs,
    shr_fexp 53 1024 mx ex lx = (mrs, ex + (Zdigits2 mx - 53))
    /\ 0 <= Zdigits2 mx - 53
    /\ shr_m mrs = mx / 2 ^ (Zdigits2 mx - 53)
    /\ 2 ^ 52 <= shr_m mrs < 2 ^ 53
    /\ (lx = loc_Exact -> mx mod 2 ^ (Zdigits2 mx - 53) = 0 ->
        loc_of_shr_record mrs = loc_Exact).
Proof.
  intros Hm He.
  assert (Hpos : 0 < mx) by lia.
  destruct (Zdigits2_bounds mx Hpos) as [Dl Du].
  set (d := Zdigits2 mx) in *.
  assert (Hd : 53 <= d).
  { destruct (Z.le_gt_cases 53 d); [done|].
    assert (2 ^ d <= 2 ^ 52) by (apply Z.pow_le_mono_r; lia). lia. }
  assert (Hn : fexp 53 1024 (d + ex) - ex = d - 53)
    by (unfold fexp, emin; lia).
  assert (Hp : 0 < 2 ^ (d - 53)) by (apply Z.pow_pos_nonneg; lia).
  assert (Hrange : 2 ^ 52 <= mx / 2 ^ (d - 53) < 2 ^ 53).
  { split.
    - apply Z.div_le_lower_bound; [done|].
      rewrite <- Z.pow_add_r by lia.
      by replace (d - 53 + 52) with (d - 1) by lia.
    - apply Z.div_lt_upper_bound; [done|].
      rewrite <- Z.pow_add_r by lia.
      by replace (d - 53 + 53) with d by lia. }
  unfold shr_fexp. fold d. rewrite Hn. unfold shr.
  destruct (loc_of_shr_record_of_loc mx lx) as [Hl Hr].
  destruct (d - 53) as [|n|n] eqn:Hdn; [| |lia].
  - exists (shr_record_of_loc mx lx).
    rewrite Hr. change (2 ^ 0) with 1 in *. rewrite Z.div_1_r in *.
    split; [by rewrite Z.add_0_r|]. split; [done|]. split; [done|].
    split; [lia|]. intros -> _. by rewrite Hl.
  - destruct (iter_shr_1_spec n (shr_record_of_loc mx lx)) as [H1 H2];
      [rewrite Hr; lia|].
    exists (SpecFloat.iter_pos shr_1 n (shr_record_of_loc mx lx)).
    rewrite H1, Hr. split; [done|]. split; [done|]. split; [done|].
    split; [lia|]. intros -> Hmod. apply H2; [by rewrite Hl | by rewrite Hr].
Qed.

(** Rounding does not pass a number of the format: a positive value of 53
    bits or more that is at most [mb * 2^eb] rounds to a normal number that
    is at most [mb * 2^eb]. *)
Lemma binary_round_aux_bound (mx ex mb eb : Z) (lx : location) :
  2 ^ 52 <= mx -> -1074 <= Zdigits2 mx + ex - 53 ->
  2 ^ 52 <= mb < 2 ^ 53 -> eb <= 971 -> ex <= eb ->
  mx + match lx with loc_Exact => 0 | _ => 1 end <= mb * 2 ^ (eb - ex) ->
  exists m e,
    binary_round_aux 53 1024 false mx ex lx = S754_finite false m e
    /\ 2 ^ 52 <= Zpos m < 2 ^ 53 /\ -1074 <= e <= eb
    /\ Zpos m <= mb * 2 ^ (eb - e).
Proof.
  intros Hm He Hmb Heb Hex Hle.
  destruct (shr_fexp_spec mx ex lx Hm He) as (mrs & E1 & Hn & Hv & Hr & Hx).
  assert (Hpos : 0 < mx) by lia.
  destruct (Zdigits2_bounds mx Hpos) as [Dl Du].
  set (n := Zdigits2 mx - 53) in *.
  assert (Ed : Zdigits2 mx = n + 53) by lia. rewrite Ed in Dl, Du.
  set (K := eb - ex) in *.
  assert (Hp : 0 < 2 ^ n) by (apply Z.pow_pos_nonneg; lia).
  assert (HK : n <= K).
  { destruct (Z.le_gt_cases n K) as [|Hgt]; [done|].
    assert (2 ^ (53 + K) <= 2 ^ (n + 53 - 1))
      by (apply Z.pow_le_mono_r; lia).
    assert (0 < 2 ^ K) by (apply Z.pow_pos_nonneg; lia).
    rewrite Z.pow_add_r in H by lia.
    assert (mx <= mb * 2 ^ K) by (destruct lx; lia). nia. }
  set (M := mb * 2 ^ (K - n)).
  assert (HM : mb * 2 ^ K = M * 2 ^ n).
  { unfold M. rewrite <- Z.mul_assoc, <- Z.pow_add_r by lia.
    by replace (K - n + n) with K by lia. }
  rewrite HM in Hle.
  set (m2 := round_nearest_even (shr_m mrs) (loc_of_shr_record mrs)).
  assert (Hm2 : 2 ^ 52 <= m2 <= M /\ m2 <= 2 ^ 53).
  { destruct (round_nearest_even_cases (shr_m mrs) (loc_of_shr_record mrs))
      as [Hexact Hnear]. fold m2 in Hexact, Hnear.
    assert (Hfloor : shr_m mrs <= M).
    { rewrite Hv. apply Z.div_le_upper_bound; [done|]. destruct lx; lia. }
    assert (Hstrict : mx < M * 2 ^ n -> shr_m mrs < M).
    { intros Hlt. rewrite Hv. apply Z.div_lt_upper_bound; [done|]. lia. }
    destruct lx as [|c].
    - destruct (Z.eq_dec (mx mod 2 ^ n) 0) as [Hz | Hnz].
      + rewrite (Hexact (Hx eq_refl Hz)). lia.
      + assert (mx <> M * 2 ^ n)
          by (intros E; rewrite E, Z.mod_mul in Hnz by lia; done).
        assert (shr_m mrs < M) by (apply Hstrict; lia). lia.
    - assert (shr_m mrs < M) by (apply Hstrict; lia). lia. }
  assert (Hm2' : 2 ^ 52 <= m2) by lia.
  assert (He2 : -1074 <= Zdigits2 m2 + (ex + n) - 53).
  { destruct (Zdigits2_bounds m2 ltac:(lia)) as [_ Du2].
    destruct (Z.le_gt_cases 53 (Zdigits2 m2)); [lia|].
    assert (2 ^ Zdigits2 m2 <= 2 ^ 52) by (apply Z.pow_le_mono_r; lia). lia. }
  destruct (shr_fexp_spec m2 (ex + n) loc_Exact Hm2' He2)
    as (mrs2 & E2 & Hn2 & Hv2 & Hr2 & _).
  unfold binary_round_aux. rewrite E1. fold m2. rewrite E2.
  assert (Hcase : (Zdigits2 m2 - 53 = 0 /\ shr_m mrs2 = m2)
                  \/ (Zdigits2 m2 - 53 = 1 /\ m2 = 2 ^ 53
                      /\ shr_m mrs2 = 2 ^ 52)).
  { destruct (Z.eq_dec m2 (2 ^ 53)) as [E | NE].
    - right. rewrite E in *.
      change (Zdigits2 (2 ^ 53)) with 54 in *.
      split; [done|]. split; [done|]. by rewrite Hv2.
    - left. rewrite (Zdigits2_unique m2 53) in * by lia.
      split; [done|]. rewrite Hv2. change (2 ^ (53 - 53)) with 1.
      apply Z.div_1_r. }
  destruct (shr_m mrs2) as [|m|m] eqn:Hs; [lia| |lia].
  destruct Hcase as [[En2 Em] | (En2 & Em & Es)]; rewrite En2.
  - assert (Hleb : (ex + n + 0 <=? 1024 - 53) = true)
      by (apply Z.leb_le; lia).
    rewrite Hleb. exists m, (ex + n + 0).
    split; [done|]. split; [lia|]. split; [lia|].
    replace (eb - (ex + n + 0)) with (K - n) by lia. fold M. lia.
  - assert (HK1 : n + 1 <= K).
    { destruct (Z.le_gt_cases (n + 1) K); [done|].
      assert (K - n = 0) by lia. unfold M in Hm2.
      rewrite H0 in Hm2. change (2 ^ 0) with 1 in Hm2. lia. }
    assert (Hleb : (ex + n + 1 <=? 1024 - 53) = true)
      by (apply Z.leb_le; lia).
    rewrite Hleb. exists m, (ex + n + 1).
    split; [done|]. split; [lia|]. split; [lia|].
    replace (eb - (ex + n + 1)) with (K - n - 1) by lia.
    assert (M = mb * 2 ^ (K - n - 1) * 2).
    { unfold M. replace (K - n) with (K - n - 1 + 1) at 1 by lia.
      rewrite Z.pow_add_r by lia. change (2 ^ 1) with 2. lia. }
    change (2 ^ 53) with (2 ^ 52 * 2) in Em. lia.
Qed.

(** A normal number rounds to itself. *)
Lemma binary_round_aux_exact (m : positive) (e : Z) :
  2 ^ 52 <= Zpos m < 2 ^ 53 -> -1074 <= e <= 971 ->
  binary_round_aux 53 1024 false (Zpos m) e loc_Exact = S754_finite false m e.
Proof.
  intros Hm He.
  assert (Hd : Zpos (digits2_pos m) = 53) by (by apply digits2_pos_unique).
  assert (Hn : fexp 53 1024 (53 + e) - e = 0) by (unfold fexp, emin; lia).
  unfold binary_round_aux, shr_fexp. simpl Zdigits2. rewrite Hd, Hn. simpl.
  rewrite Hd, Hn. simpl.
  assert (Hleb : (e <=? 1024 - 53) = true) by (apply Z.leb_le; lia).
  by rewrite Hleb.
Qed.

Lemma pos_iter_xO (p n : positive) :
  Zpos (Pos.iter xO p n) = Zpos p * 2 ^ Zpos n.
Proof.
  rewrite <- Z.shiftl_mul_pow2 by lia. simpl.
  apply (Pos.iter_swap_gen _ _ Zpos xO (Z.mul 2)). done.
Qed.

(** A count below [2^53] is represented exactly, by a normal number. *)
Lemma of_Z_exact (w : Z) :
  0 < w < 2 ^ 53 ->
  exists m,
    of_Z w = S754_finite false m (Zdigits2 w - 53)
    /\ 2 ^ 52 <= Zpos m < 2 ^ 53
    /\ 1 <= Zdigits2 w <= 53
    /\ Zpos m = w * 2 ^ (53 - Zdigits2 w).
Proof.
  intros [Hw0 Hw]. destruct w as [|p|p]; try lia.
  destruct (digits2_pos_bounds p) as [Dl Du].
  simpl Zdigits2. set (d := Zpos (digits2_pos p)) in *.
  assert (Hd : 1 <= d <= 53).
  { split; [unfold d; lia|].
    destruct (Z.le_gt_cases d 53); [done|].
    assert (2 ^ 53 <= 2 ^ (d - 1)) by (apply Z.pow_le_mono_r; lia). lia. }
  assert (Hf : fexp 53 1024 (d + 0) = d - 53)
    by (unfold fexp, emin; lia).
  unfold of_Z, binary_normalize, binary_round, shl_align. fold d.
  rewrite Hf, Z.sub_0_r. destruct (d - 53) as [|n|n] eqn:Hdn; [|lia|].
  - exists p. assert (d = 53) by lia.
    replace (53 - d) with 0 by lia. change (2 ^ 0) with 1.
    assert (2 ^ 52 <= Zpos p < 2 ^ 53).
    { replace (d - 1) with 52 in Dl by lia.
      replace d with 53 in Du by lia. lia. }
    split; [by apply binary_round_aux_exact|]. lia.
  - exists (Pos.iter xO p n).
    assert (Hv : Zpos (Pos.iter xO p n) = Zpos p * 2 ^ (53 - d)).
    { rewrite pos_iter_xO. f_equal. f_equal. lia. }
    assert (Hp : 0 < 2 ^ (53 - d)) by (apply Z.pow_pos_nonneg; lia).
    assert (2 ^ 52 <= Zpos (Pos.iter xO p n) < 2 ^ 53).
    { rewrite Hv. split.
      - replace 52 with (d - 1 + (53 - d)) by lia.
        rewrite Z.pow_add_r by lia. nia.
      - replace 53 with (d + (53 - d)) at 2 by lia.
        rewrite Z.pow_add_r by lia. nia. }
    split; [apply binary_round_aux_exact; lia|]. lia.
Qed.

Lemma new_location_cases (nb r : Z) :
  (r = 0 /\ new_location nb r = loc_Exact)
  \/ (r <> 0 /\ exists c, new_location nb r = loc_Inexact c).
Proof.
  unfold new_location, new_location_even, new_location_odd.
  destruct (Z.eqb_spec r 0) as [-> | Hnz].
  - left. split; [done|]. by destruct (IntDef.Z.even nb).
  - right. split; [done|]. apply Z.eqb_neq in Hnz.
    destruct (IntDef.Z.even nb); rewrite Hnz; by eexists.
Qed.

(** The quotient of two counts, the first not above the second, is a normal
    number that is at most 1. *)
Lemma fdiv_counts_bound (w t : Z) :
  0 < w -> w <= t -> t < 2 ^ 53 ->
  exists m e,
    (of_Z w / of_Z t)%num = S754_finite false m e
    /\ 2 ^ 52 <= Zpos m < 2 ^ 53 /\ -1074 <= e <= -52
    /\ Zpos m <= 2 ^ 52 * 2 ^ (-52 - e).
Proof.
  intros Hw Hwt Ht.
  destruct (of_Z_exact w ltac:(lia)) as (m1 & E1 & R1 & D1 & V1).
  destruct (of_Z_exact t ltac:(lia)) as (m2 & E2 & R2 & D2 & V2).
  destruct (Zdigits2_bounds w Hw) as [Wl Wu].
  destruct (Zdigits2_bounds t ltac:(lia)) as [Tl Tu].
  set (d1 := Zdigits2 w) in *. set (d2 := Zdigits2 t) in *.
  assert (Hd : d1 <= d2).
  { destruct (Z.le_gt_cases d1 d2); [done|].
    assert (2 ^ d2 <= 2 ^ (d1 - 1)) by (apply Z.pow_le_mono_r; lia). lia. }
  rewrite E1, E2. unfold fdiv, SFdiv, SFdiv_core_binary.
  simpl Zdigits2.
  rewrite (digits2_pos_unique m1 53 R1), (digits2_pos_unique m2 53 R2).
  assert (He : Z.min (fexp 53 1024 (53 + (d1 - 53) - (53 + (d2 - 53))))
                     (d1 - 53 - (d2 - 53)) = d1 - d2 - 53)
    by (unfold fexp, emin; lia).
  rewrite He.
  replace (d1 - 53 - (d2 - 53) - (d1 - d2 - 53)) with 53 by lia.
  rewrite Z.shiftl_mul_pow2 by lia.
  pose proof (Z.div_eucl_eq (Zpos m1 * 2 ^ 53) (Zpos m2) ltac:(lia)) as Hq.
  pose proof (Z.mod_pos_bound (Zpos m1 * 2 ^ 53) (Zpos m2) ltac:(lia)) as Hr.
  unfold Z.modulo in Hr.
  destruct (Z.div_eucl (Zpos m1 * 2 ^ 53) (Zpos m2)) as [q r].
  simpl xorb.
  set (P := 2 ^ (d2 - d1)).
  assert (HP : 0 < P) by (apply Z.pow_pos_nonneg; lia).
  assert (Hcmp : Zpos m1 <= Zpos m2 * P).
  { rewrite V1, V2. unfold P.
    rewrite <- Z.mul_assoc, <- Z.pow_add_r by lia.
    replace (53 - d2 + (d2 - d1)) with (53 - d1) by lia.
    assert (0 < 2 ^ (53 - d1)) by (apply Z.pow_pos_nonneg; lia). nia. }
  assert (Hq52 : 2 ^ 52 <= q) by nia.
  assert (Hloc : q + match new_location (Zpos m2) r with
                     | loc_Exact => 0 | _ => 1 end <= 2 ^ 53 * P).
  { assert (Hmul : Zpos m2 * q + r <= Zpos m2 * (2 ^ 53 * P)) by nia.
    destruct (new_location_cases (Zpos m2) r) as [[-> ->] | [Hnz [c ->]]].
    - rewrite Z.add_0_r in *. apply Z.mul_le_mono_pos_l in Hmul; lia.
    - assert (Hlt : Zpos m2 * q < Zpos m2 * (2 ^ 53 * P)) by lia.
      apply Z.mul_lt_mono_pos_l in Hlt; lia. }
  destruct (Zdigits2_bounds q ltac:(lia)) as [Ql Qu].
  assert (Hdq : 53 <= Zdigits2 q).
  { destruct (Z.le_gt_cases 53 (Zdigits2 q)); [done|].
    assert (2 ^ Zdigits2 q <= 2 ^ 52) by (apply Z.pow_le_mono_r; lia). lia. }
  assert (Hloc' : q + match new_location (Zpos m2) r with
                      | loc_Exact => 0 | _ => 1 end
                  <= 2 ^ 52 * 2 ^ (-52 - (d1 - d2 - 53))).
  { replace (-52 - (d1 - d2 - 53)) with (1 + (d2 - d1)) by lia.
    rewrite Z.pow_add_r by lia. fold P. lia. }
  destruct (binary_round_aux_bound q (d1 - d2 - 53) (2 ^ 52) (-52)
              (new_location (Zpos m2) r) Hq52 ltac:(lia) ltac:(lia)
              ltac:(lia) ltac:(lia) Hloc')
    as (m & e & E & Rm & Re & Vm).
  exists m, e. rewrite E. repeat split; lia.
Qed.

(** A normal number that is at most 1, times 1000, is at most 1000. *)
Lemma fmul_1000_bound (m : positive) (e : Z) :
  2 ^ 52 <= Zpos m < 2 ^ 53 -> -1074 <= e <= -52 ->
  Zpos m <= 2 ^ 52 * 2 ^ (-52 - e) ->
  exists m' e',
    (S754_finite false m e * 1000)%num = S754_finite false m' e'
    /\ 2 ^ 52 <= Zpos m' < 2 ^ 53 /\ -1074 <= e' <= -43
    /\ Zpos m' <= 1000 * 2 ^ (- e').
Proof.
  intros Rm Re Vm.
  change (S754_finite false m e * 1000)%num
    with (binary_round_aux 53 1024 false (Zpos (m * 8796093022208000))
            (e + -43) loc_Exact).
  rewrite Pos2Z.inj_mul.
  assert (Hp : 0 < 2 ^ (-52 - e)) by (apply Z.pow_pos_nonneg; lia).
  assert (Hlow : 2 ^ 104 <= Zpos m * 8796093022208000).
  { change (2 ^ 104) with (2 ^ 52 * 2 ^ 52).
    assert (2 ^ 52 <= 8796093022208000) by (by vm_compute).
    nia. }
  destruct (Zdigits2_bounds (Zpos m * 8796093022208000) ltac:(lia)) as [Dl Du].
  assert (Hd : 105 <= Zdigits2 (Zpos m * 8796093022208000)).
  { destruct (Z.le_gt_cases 105 (Zdigits2 (Zpos m * 8796093022208000)));
      [done|].
    assert (2 ^ Zdigits2 (Zpos m * 8796093022208000) <= 2 ^ 104)
      by (apply Z.pow_le_mono_r; lia). lia. }
  assert (H1 : 2 ^ 52 <= Zpos m * 8796093022208000).
  { assert (2 ^ 52 <= 2 ^ 104) by (by vm_compute). lia. }
  assert (H2 : 2 ^ 52 <= 8796093022208000 < 2 ^ 53)
    by (split; by vm_compute).
  assert (H3 : Zpos m * 8796093022208000 + 0
               <= 8796093022208000 * 2 ^ (-43 - (e + -43))).
  { replace (-43 - (e + -43)) with (52 + (-52 - e)) by lia.
    rewrite Z.pow_add_r by lia. nia. }
  destruct (binary_round_aux_bound (Zpos m * 8796093022208000) (e + -43)
              8796093022208000 (-43) loc_Exact H1 ltac:(lia) H2 ltac:(lia)
              ltac:(lia) H3)
    as (m' & e' & E & Rm' & Re' & Vm').
  exists m', e'. rewrite E. split; [done|]. split; [done|]. split; [done|].
  replace (- e') with (43 + (-43 - e')) by lia.
  rewrite Z.pow_add_r by lia.
  change 8796093022208000 with (1000 * 2 ^ 43) in Vm'. lia.
Qed.

(** [Math.round] of a normal number between 0 and 1000 is a whole number
    between 0 and 1000. *)
Lemma Math_round_bound (m : positive) (e : Z) :
  2 ^ 52 <= Zpos m < 2 ^ 53 -> -1074 <= e <= -43 ->
  Zpos m <= 1000 * 2 ^ (- e) ->
  exists k, Math_round (S754_finite false m e) = of_Z k /\ 0 <= k <= 1000.
Proof.
  intros Rm Re Vm. unfold Math_round.
  assert (Hneg : (0 <=? e) = false) by (apply Z.leb_gt; lia).
  rewrite Hneg. rewrite Z.shiftr_div_pow2 by lia.
  exists ((2 * Zpos m + 2 ^ (- e)) / 2 ^ (1 - e)). split; [done|].
  assert (Hp : 0 < 2 ^ (- e)) by (apply Z.pow_pos_nonneg; lia).
  assert (Hp1 : 2 ^ (1 - e) = 2 * 2 ^ (- e)).
  { replace (1 - e) with (1 + - e) by lia. by rewrite Z.pow_add_r by lia. }
  rewrite Hp1. split.
  - apply Z.div_pos; lia.
  - assert ((2 * Zpos m + 2 ^ (- e)) / (2 * 2 ^ (- e)) < 1001); [|lia].
    apply Z.div_lt_upper_bound; lia.
Qed.

Lemma rate_table :
  forallb (fun k => (0 <=? of_Z (Z.of_nat k) / 10)%num
                    && (of_Z (Z.of_nat k) / 10 <=? 100)%num)
          (seq 0 1001) = true.
Proof. by vm_compute. Qed.

(** A win rate lies between 0 and 100. *)
Lemma rate_range (w t : nat) :
  (0 < t)%nat -> (w <= t)%nat -> Z.of_nat t < 2 ^ 53 ->
  (0 <=? Math_round (num w / num t * 1000) / 10)%num = true
  /\ (Math_round (num w / num t * 1000) / 10 <=? 100)%num = true.
Proof.
  intros Ht Hwt Hb. unfold num.
  assert (Htable : forall k, 0 <= k <= 1000 ->
            (0 <=? of_Z k / 10)%num = true
            /\ (of_Z k / 10 <=? 100)%num = true).
  { intros k Hk. pose proof rate_table as Hall.
    rewrite forallb_forall in Hall.
    specialize (Hall (Z.to_nat k)). rewrite Z2Nat.id in Hall by lia.
    apply andb_true_iff, Hall, in_seq. lia. }
  destruct w as [|w].
  - destruct (of_Z_exact (Z.of_nat t) ltac:(lia)) as (m2 & -> & _).
    by vm_compute.
  - destruct (fdiv_counts_bound (Z.of_nat (S w)) (Z.of_nat t))
      as (m & e & -> & Rm & Re & Vm); [lia..|].
    destruct (fmul_1000_bound m e Rm Re Vm) as (m' & e' & -> & Rm' & Re' & Vm').
    destruct (Math_round_bound m' e' Rm' Re' Vm') as (k & -> & Hk).
    by apply Htable.
Qed.

Lemma rate_field_range (w t : nat) :
  (w <= t)%nat -> Z.of_nat t < 2 ^ 53 ->
  (0 <=? (if (0 <? t)%nat
          then Math_round (num w / num t * 1000) / 10 else 0))%num = true
  /\ ((if (0 <? t)%nat
       then Math_round (num w / num t * 1000) / 10 else 0) <=? 100)%num = true.
Proof.
  intros Hwt Hb. destruct (Nat.ltb_spec 0 t); [by apply rate_range | done].
Qed.

End RoundingFacts.

(** ** Strings: [trim] is idempotent *)

Section DropSpacesFacts.
Variable p1 : ascii -> bool.
Variable p2 : ascii -> ascii -> bool.
Variable p3 : ascii -> ascii -> ascii -> bool.

Lemma drop_spaces_fixed (l : list ascii) :
  starts_space p1 p2 p3 l = false -> drop_spaces p1 p2 p3 l = l.
Proof.
  destruct l as [|a [|b [|c r]]]; simpl; try done.
  - by intros ->%orb_false_elim%proj1.
  - intros [-> [-> _]%orb_false_elim]%orb_false_elim. done.
  - intros [-> [-> ->]%orb_false_elim]%orb_false_elim. done.
Qed.

Lemma drop_spaces_spec (n : nat) (l : list ascii) :
  (length l <= n)%nat ->
  starts_space p1 p2 p3 (drop_spaces p1 p2 p3 l) = false
  /\ exists pre, l = pre ++ drop_spaces p1 p2 p3 l.
Proof.
  revert l. induction n as [|n IH]; intros l Hl.
  - destruct l; [|simpl in Hl; lia]. split; [done | by exists []].
  - destruct l as [|a r1]; [split; [done | by exists []]|].
    simpl in Hl. cbn [drop_spaces].
    destruct (p1 a) eqn:E1.
    { destruct (IH r1) as [H (pre & Hp)]; [lia|].
      split; [done|]. exists (a :: pre). simpl. by rewrite <- Hp. }
    destruct r1 as [|b r2].
    { split; [simpl; by rewrite E1 | by exists []]. }
    simpl in Hl. destruct (p2 a b) eqn:E2.
    { destruct (IH r2) as [H (pre & Hp)]; [lia|].
      split; [done|]. exists (a :: b :: pre). simpl. by rewrite <- Hp. }
    destruct r2 as [|c r3].
    { split; [simpl; by rewrite E1, E2 | by exists []]. }
    simpl in Hl. destruct (p3 a b c) eqn:E3.
    { destruct (IH r3) as [H (pre & Hp)]; [lia|].
      split; [done|]. exists (a :: b :: c :: pre). simpl. by rewrite <- Hp. }
    split; [simpl; by rewrite E1, E2, E3 | by exists []].
Qed.

Lemma drop_spaces_starts (l : list ascii) :
  starts_space p1 p2 p3 (drop_spaces p1 p2 p3 l) = false.
Proof. by apply (drop_spaces_spec (length l) l). Qed.

Lemma drop_spaces_suffix (l : list ascii) :
  exists pre, l = pre ++ drop_spaces p1 p2 p3 l.
Proof. by apply (drop_spaces_spec (length l) l). Qed.

Lemma drop_spaces_idem (l : list ascii) :
  drop_spaces p1 p2 p3 (drop_spaces p1 p2 p3 l) = drop_spaces p1 p2 p3 l.
Proof. apply drop_spaces_fixed, drop_spaces_starts. Qed.

Lemma starts_space_app (l1 l2 : list ascii) :
  starts_space p1 p2 p3 l1 = true -> starts_space p1 p2 p3 (l1 ++ l2) = true.
Proof.
  destruct l1 as [|a [|b [|c r]]]; simpl; try done.
  - rewrite orb_false_r. by intros ->.
  - rewrite orb_false_r. intros [-> | ->]%orb_true_iff; [done|].
    by rewrite orb_true_r.
Qed.
End DropSpacesFacts.

Lemma trim_end_prefix (l : list ascii) : exists post, l = trim_end l ++ post.
Proof.
  unfold trim_end.
  destruct (drop_spaces_suffix white_space1 (fun b a => white_space2 a b)
              (fun c b a => white_space3 a b c) (rev l)) as [pre H].
  exists (rev pre). rewrite <- rev_app_distr, <- H. by rewrite rev_involutive.
Qed.

Lemma trim_end_idem (l : list ascii) : trim_end (trim_end l) = trim_end l.
Proof. unfold trim_end. by rewrite rev_involutive, drop_spaces_idem. Qed.

Lemma trim_start_trim_end (l : list ascii) :
  trim_start (trim_end (trim_start l)) = trim_end (trim_start l).
Proof.
  apply drop_spaces_fixed.
  destruct (starts_space _ _ _ (trim_end (trim_start l))) eqn:E; [|done].
  destruct (trim_end_prefix (trim_start l)) as [post Hp].
  pose proof (starts_space_app _ _ _ _ post E) as H.
  rewrite <- Hp in H. unfold trim_start in H.
  by rewrite drop_spaces_starts in H.
Qed.

Lemma trim_idem (s : string) : trim (trim s) = trim s.
Proof.
  unfold trim. rewrite list_ascii_of_string_of_list_ascii.
  by rewrite trim_start_trim_end, trim_end_idem.
Qed.


(** ** String tests and validators *)

Lemma enum_member_result (r : string) :
  enum_member ["Win"; "Loss"]%string r = true ->
  r = "Win"%string \/ r = "Loss"%string.
Proof.
  unfold enum_member. simpl. rewrite !orb_true_iff, !String.eqb_eq.
  intuition discriminate.
Qed.

Lemma enum_member_formula (f : string) :
  enum_member ["rated"; "dc"]%string f = true ->
  f = "rated"%string \/ f = "dc"%string.
Proof.
  unfold enum_member. simpl. rewrite !orb_true_iff, !String.eqb_eq.
  intuition discriminate.
Qed.

Lemma cast_number_true (x : number) : cast_number x = true <-> is_nan x = false.
Proof. unfold cast_number. by destruct (is_nan x). Qed.

Lemma validate_match_split (m : Match) :
  validate_match m = strings_ok m && points_ok m.
Proof.
  unfold validate_match, strings_ok, points_ok. by rewrite !andb_assoc.
Qed.

Lemma validate_match_result (m : Match) :
  validate_match m = true ->
  result m = "Win"%string \/ result m = "Loss"%string.
Proof.
  rewrite validate_match_split. unfold strings_ok. rewrite !andb_true_iff.
  intros [[[[[[_ _] _] H] _] _] _]. by apply enum_member_result.
Qed.

Lemma validate_match_points (m : Match) :
  validate_match m = true ->
  is_nan (pointsBefore m) = false /\ is_nan (pointsAfter m) = false.
Proof.
  rewrite validate_match_split. unfold points_ok.
  rewrite !andb_true_iff, !cast_number_true. tauto.
Qed.

Lemma validate_session_inv (s : Session) :
  validate_session s = true ->
  Forall (fun m => validate_match m = true) (matches s)
  /\ (pointsFormula s = "rated"%string \/ pointsFormula s = "dc"%string).
Proof.
  unfold validate_session. rewrite !andb_true_iff.
  intros [[[_ Hm] Hf] _]. split.
  - apply Forall_forall. intros m Hin. rewrite forallb_forall in Hm.
    apply Hm. by apply list_elem_of_In.
  - by apply enum_member_formula.
Qed.

Lemma validate_session_start (s : Session) :
  validate_session s = true -> is_nan (pointsStart s) = false.
Proof.
  unfold validate_session. rewrite !andb_true_iff, cast_number_true. tauto.
Qed.

(** ** The inline point calculations agree with the scoring rule *)

Lemma dc_loss_threshold (p : number) :
  (if p <? 15 then p - 0.5 else p - 1)
  = (if 15 <=? p then p - 1 else p - 0.5).
Proof.
  destruct (is_nan p) eqn:Hp; [by destruct p|].
  rewrite (flt_fle p 15 Hp eq_refl). by destruct (15 <=? p).
Qed.

Lemma post_newPoints_scoring (formula result : string) (p : number) :
  (result = "Win"%string \/ result = "Loss"%string) ->
  (formula = "rated"%string \/ formula = "dc"%string) ->
  post_newPoints formula result p None = scoring_rule_str p result formula.
Proof.
  intros [-> | ->] [-> | ->]; unfold post_newPoints, scoring_rule_str; simpl;
    try reflexivity.
  apply dc_loss_threshold.
Qed.

(** ** The loops as one pass over the suffix *)

Section Loop.
Variable elem : number -> Match -> Match.
Variable body : nat -> list Match -> list Match.
Variable prior : nat -> list Match -> option number.

Hypothesis body_at : forall i ms p cur,
  prior i ms = Some p -> ms !! i = Some cur ->
  body i ms = <[i := elem p cur]> ms.
Hypothesis prior_S : forall i ms, prior (S i) ms = pointsAfter <$> ms !! i.

Lemma for_loop_rechain (n i : nat) (ms : list Match) (p : number) :
  length ms = (i + n)%nat -> prior i ms = Some p ->
  for_loop body n i ms = take i ms ++ rechain elem p (drop i ms).
Proof.
  revert i ms p. induction n as [|n IH]; intros i ms p Hlen Hp; simpl.
  - rewrite drop_ge, take_ge by lia. by rewrite app_nil_r.
  - destruct (lookup_lt_is_Some_2 ms i) as [cur Hcur]; [lia|].
    rewrite (body_at i ms p cur Hp Hcur).
    assert (Hi : (i < length ms)%nat) by lia.
    rewrite (IH (S i) _ (pointsAfter (elem p cur))).
    + rewrite (take_S_r _ _ (elem p cur))
        by (by apply list_lookup_insert_eq).
      rewrite take_insert_ge by lia.
      rewrite drop_insert_lt by lia.
      rewrite (drop_S ms cur i Hcur). simpl.
      by rewrite <- app_assoc.
    + rewrite length_insert. lia.
    + rewrite prior_S, list_lookup_insert_eq by done. done.
Qed.
End Loop.

Lemma put_recalc_step_elem (formula : string) (j : nat) (ms : list Match)
      (prevMatch cur : Match) :
  ms !! j = Some prevMatch -> ms !! S j = Some cur ->
  put_recalc_step formula (S j) ms
  = <[S j := recalc_elem formula (pointsAfter prevMatch) cur]> ms.
Proof.
  intros Hp Hc. unfold put_recalc_step, recalc_elem, post_newPoints.
  rewrite Hp, Hc. simpl.
  destruct (customPointsAfter cur); [done|].
  destruct (formula =? "rated")%string, (result cur =? "Win")%string; done.
Qed.

Lemma delete_recalc_step_elem (formula : string) (start0 p : number) (i : nat)
      (ms : list Match) (cur : Match) :
  (if (i =? 0)%nat then Some start0 else pointsAfter <$> ms !! (i - 1)%nat)
  = Some p ->
  ms !! i = Some cur ->
  delete_recalc_step formula start0 i ms
  = <[i := recalc_elem formula p cur]> ms.
Proof.
  intros Hp Hc. unfold delete_recalc_step, recalc_elem, post_newPoints.
  rewrite Hp, Hc. simpl.
  destruct (customPointsAfter cur); [done|].
  destruct (formula =? "rated")%string, (result cur =? "Win")%string; done.
Qed.

(** The edit loop, started after index [j]. *)
Lemma put_recalc_rechain (formula : string) (j : nat) (ms : list Match)
      (prevMatch : Match) :
  ms !! j = Some prevMatch ->
  put_recalc formula (S j) ms
  = take (S j) ms
    ++ rechain (recalc_elem formula) (pointsAfter prevMatch) (drop (S j) ms).
Proof.
  intros Hj. unfold put_recalc.
  pose proof (lookup_lt_Some _ _ _ Hj) as Hlt.
  apply (for_loop_rechain (recalc_elem formula) (put_recalc_step formula)
           (fun i l => match i with
                       | O => None
                       | S k => pointsAfter <$> l !! k
                       end)).
  - intros [|k] l p cur Hp Hc; [done|].
    destruct (l !! k) as [pm|] eqn:Hk; [|done].
    simpl in Hp. injection Hp as <-. by apply put_recalc_step_elem.
  - done.
  - lia.
  - by rewrite Hj.
Qed.

(** The delete loop, started at index [k] of the spliced array. *)
Lemma delete_recalc_rechain (formula : string) (start0 p : number) (k : nat)
      (ms : list Match) :
  (k <= length ms)%nat ->
  (if (k =? 0)%nat then Some start0 else pointsAfter <$> ms !! (k - 1)%nat)
  = Some p ->
  delete_recalc formula start0 k ms
  = take k ms ++ rechain (recalc_elem formula) p (drop k ms).
Proof.
  intros Hk Hp. unfold delete_recalc.
  apply (for_loop_rechain (recalc_elem formula)
           (delete_recalc_step formula start0)
           (fun i l => if (i =? 0)%nat then Some start0
                       else pointsAfter <$> l !! (i - 1)%nat)).
  - intros i l q cur Hq Hc. by apply delete_recalc_step_elem.
  - intros i l. simpl. by rewrite Nat.sub_0_r.
  - lia.
  - done.
Qed.

(** ** Splitting the array at the located match *)

Lemma findIndex_split (matchId : N) (ms : list Match) (k : nat) :
  findIndex matchId ms = Some k ->
  exists l1 m l2,
    ms = l1 ++ m :: l2 /\ length l1 = k /\ _id m = matchId
    /\ Forall (fun x => _id x <> matchId) l1.
Proof.
  revert k. induction ms as [|a ms IH]; intros k; simpl; [done|].
  destruct (_id a =? matchId)%N eqn:E.
  - intros [= <-]. apply N.eqb_eq in E. by exists [], a, ms.
  - destruct (findIndex matchId ms) as [k'|]; [|done].
    intros [= <-]. destruct (IH k' eq_refl) as (l1 & m & l2 & -> & <- & Hid & Hl1).
    exists (a :: l1), m, l2. repeat split; try done.
    constructor; [|done]. by apply N.eqb_neq.
Qed.

Lemma findIndex_lookup (matchId : N) (ms : list Match) (k : nat) :
  findIndex matchId ms = Some k ->
  exists m, ms !! k = Some m /\ _id m = matchId.
Proof.
  intros H. destruct (findIndex_split _ _ _ H) as (l1 & m & l2 & -> & <- & Hid & _).
  exists m. split; [|done]. by rewrite list_lookup_middle.
Qed.

Lemma findIndex_None (matchId : N) (ms : list Match) :
  findIndex matchId ms = None <-> Forall (fun x => _id x <> matchId) ms.
Proof.
  induction ms as [|a ms IH]; simpl.
  - split; [constructor|done].
  - destruct (_id a =? matchId)%N eqn:E.
    + apply N.eqb_eq in E. split; [done|]. by inversion 1.
    + apply N.eqb_neq in E. destruct (findIndex matchId ms); simpl.
      * split; [done|]. inversion 1 as [|? ? _ Hms]. by apply IH in Hms.
      * split; [|done]. intros _. constructor; [done|]. by apply IH.
Qed.

(** With distinct ids the locator of the match at index [k] resolves to [k]. *)
Lemma findIndex_NoDup (ms : list Match) (k : nat) (m : Match) :
  NoDup (map _id ms) -> ms !! k = Some m -> findIndex (_id m) ms = Some k.
Proof.
  revert k. induction ms as [|a ms IH]; intros k Hnd Hk; [done|].
  simpl in Hnd. apply NoDup_cons in Hnd as [Hna Hnd].
  destruct k as [|k]; simpl in *.
  - injection Hk as ->. by rewrite N.eqb_refl.
  - destruct (_id a =? _id m)%N eqn:E.
    + apply N.eqb_eq in E. exfalso. apply Hna. rewrite E.
      apply list_elem_of_fmap. exists m. split; [done|].
      by eapply list_elem_of_lookup_2.
    + by rewrite (IH k Hnd Hk).
Qed.

Lemma alter_middle (f : Match -> Match) (l1 l2 : list Match) (m : Match) :
  alter f (length l1) (l1 ++ m :: l2) = l1 ++ f m :: l2.
Proof. induction l1 as [|a l1 IH]; simpl; [done|]. f_equal. exact IH. Qed.

Lemma last_points_nil (p : number) : last_points p [] = p.
Proof. done. Qed.

Lemma last_points_snoc (p : number) (ms : list Match) (m : Match) :
  last_points p (ms ++ [m]) = pointsAfter m.
Proof. unfold last_points. by rewrite last_snoc. Qed.

Lemma last_points_cons (p : number) (m : Match) (ms : list Match) :
  last_points p (m :: ms) = last_points (pointsAfter m) ms.
Proof.
  unfold last_points. destruct ms as [|b ms]; [done|].
  rewrite last_cons_cons. destruct (last (b :: ms)) eqn:E; [done|].
  by apply last_None in E.
Qed.

Lemma last_points_lookup (p : number) (ms : list Match) :
  last_points p ms
  = match length ms with
    | O => p
    | S j => default p (pointsAfter <$> ms !! j)
    end.
Proof.
  unfold last_points. rewrite last_lookup. by destruct ms.
Qed.

Lemma put_recalc_split (formula : string) (l1 l2 : list Match) (m : Match) :
  put_recalc formula (S (length l1)) (l1 ++ m :: l2)
  = l1 ++ m :: rechain (recalc_elem formula) (pointsAfter m) l2.
Proof.
  rewrite (put_recalc_rechain formula (length l1) _ m)
    by (by apply list_lookup_middle).
  rewrite (cons_middle m l1 l2), app_assoc.
  rewrite take_app_length', drop_app_length' by (rewrite length_app; simpl; lia).
  by rewrite <- app_assoc.
Qed.

Lemma put_mutate_split (formula : string) (body : MatchBody)
      (l1 l2 : list Match) (m : Match) :
  put_mutate formula (length l1) body (l1 ++ m :: l2)
  = l1 ++ put_target body m
       :: match b_customPointsAfter body with
          | Some c => rechain (recalc_elem formula) c l2
          | None => l2
          end.
Proof.
  unfold put_mutate, put_target.
  destruct (truthy (b_deck body)), (truthy (b_opp body)),
    (truthy (b_result body)), (truthy (b_turn body)),
    (b_customPointsAfter body) as [c|];
    rewrite ?alter_middle, ?put_recalc_split; done.
Qed.

Lemma delete_recalc_split (formula : string) (start0 : number)
      (l1 l2 : list Match) :
  delete_recalc formula start0 (length l1) (l1 ++ l2)
  = l1 ++ rechain (recalc_elem formula) (last_points start0 l1) l2.
Proof.
  rewrite (delete_recalc_rechain formula start0 (last_points start0 l1)).
  - by rewrite take_app_length, drop_app_length.
  - rewrite length_app. lia.
  - rewrite last_points_lookup. destruct (length l1) as [|j] eqn:E; [done|].
    simpl. rewrite Nat.sub_0_r.
    destruct (lookup_lt_is_Some_2 l1 j) as [x Hx]; [lia|].
    rewrite (lookup_app_l_Some _ _ _ _ Hx), Hx. done.
Qed.

(** ** The chain, structurally *)

Lemma chained_app (p : number) (l1 l2 : list Match) :
  chained p (l1 ++ l2) <-> chained p l1 /\ chained (last_points p l1) l2.
Proof.
  revert p. induction l1 as [|a l1 IH]; intros p; simpl.
  - rewrite last_points_nil. tauto.
  - rewrite last_points_cons, IH. tauto.
Qed.

Lemma chained_lookup (p : number) (ms : list Match) :
  chained p ms <->
  (forall m, ms !! 0%nat = Some m -> pointsBefore m = p)
  /\ (forall i m' m, ms !! i = Some m' -> ms !! S i = Some m ->
                     pointsBefore m = pointsAfter m').
Proof.
  revert p. induction ms as [|a ms IH]; intros p; simpl.
  - split; [|done]. intros _. split; intros; done.
  - rewrite IH. split.
    + intros [Ha [Hh Hi]]. split.
      * intros m [= <-]. done.
      * intros [|i] m' m; simpl.
        -- intros [= <-]. apply Hh.
        -- apply Hi.
    + intros [Hh Hi]. split; [by apply Hh|]. split.
      * intros m Hm. by apply (Hi 0%nat a m).
      * intros i m' m Hm' Hm. by apply (Hi (S i) m' m).
Qed.

Lemma chained_chain_invariant (s : Session) :
  chained (pointsStart s) (matches s) <-> chain_invariant s.
Proof. apply chained_lookup. Qed.

Lemma recalc_elem_pointsBefore (formula : string) (p : number) (m : Match) :
  pointsBefore (recalc_elem formula p m) = p.
Proof. unfold recalc_elem. by destruct (customPointsAfter m). Qed.

Lemma recalc_elem_id (formula : string) (p : number) (m : Match) :
  _id (recalc_elem formula p m) = _id m.
Proof. unfold recalc_elem. by destruct (customPointsAfter m). Qed.

Lemma recalc_elem_custom (formula : string) (p : number) (m : Match) :
  customPointsAfter (recalc_elem formula p m) = customPointsAfter m.
Proof.
  unfold recalc_elem. destruct (customPointsAfter m) eqn:E; simpl; congruence.
Qed.

Lemma chained_rechain (formula : string) (p : number) (ms : list Match) :
  chained p (rechain (recalc_elem formula) p ms).
Proof.
  revert p. induction ms as [|a ms IH]; intros p; simpl; [done|].
  split; [apply recalc_elem_pointsBefore | apply IH].
Qed.

Lemma rechain_ids (formula : string) (p : number) (ms : list Match) :
  map _id (rechain (recalc_elem formula) p ms) = map _id ms.
Proof.
  revert p. induction ms as [|a ms IH]; intros p; simpl; [done|].
  by rewrite recalc_elem_id, IH.
Qed.

Lemma rechain_customs (formula : string) (p : number) (ms : list Match) :
  map customPointsAfter (rechain (recalc_elem formula) p ms)
  = map customPointsAfter ms.
Proof.
  revert p. induction ms as [|a ms IH]; intros p; simpl; [done|].
  by rewrite recalc_elem_custom, IH.
Qed.

Lemma rechain_length (elem : number -> Match -> Match) (p : number) (ms : list Match) :
  length (rechain elem p ms) = length ms.
Proof.
  revert p. induction ms as [|a ms IH]; intros p; simpl; [done|].
  by rewrite IH.
Qed.

(** ** Well-formed stored sessions *)

Lemma recalc_elem_override_ok (formula : string) (p : number) (m : Match) :
  override_ok m -> override_ok (recalc_elem formula p m).
Proof.
  unfold override_ok, recalc_elem. intros H c.
  destruct (customPointsAfter m) eqn:E; simpl; [|by rewrite E].
  rewrite E. apply H.
Qed.

Lemma rechain_override_ok (formula : string) (p : number) (ms : list Match) :
  Forall override_ok ms ->
  Forall override_ok (rechain (recalc_elem formula) p ms).
Proof.
  intros H. revert p. induction H as [|a ms Ha _ IH]; intros p; simpl.
  - constructor.
  - constructor; [by apply recalc_elem_override_ok | apply IH].
Qed.

Lemma put_target_id (body : MatchBody) (m : Match) :
  _id (put_target body m) = _id m.
Proof.
  unfold put_target.
  by destruct (truthy (b_deck body)), (truthy (b_opp body)),
    (truthy (b_result body)), (truthy (b_turn body)),
    (b_customPointsAfter body).
Qed.

Lemma put_target_pointsBefore (body : MatchBody) (m : Match) :
  pointsBefore (put_target body m) = pointsBefore m.
Proof.
  unfold put_target.
  by destruct (truthy (b_deck body)), (truthy (b_opp body)),
    (truthy (b_result body)), (truthy (b_turn body)),
    (b_customPointsAfter body).
Qed.

Lemma put_target_pointsAfter (body : MatchBody) (m : Match) :
  pointsAfter (put_target body m)
  = default (pointsAfter m) (b_customPointsAfter body).
Proof.
  unfold put_target.
  by destruct (truthy (b_deck body)), (truthy (b_opp body)),
    (truthy (b_result body)), (truthy (b_turn body)),
    (b_customPointsAfter body).
Qed.

Lemma put_target_custom (body : MatchBody) (m : Match) :
  customPointsAfter (put_target body m)
  = match b_customPointsAfter body with
    | Some c => Some c
    | None => customPointsAfter m
    end.
Proof.
  unfold put_target.
  by destruct (truthy (b_deck body)), (truthy (b_opp body)),
    (truthy (b_result body)), (truthy (b_turn body)),
    (b_customPointsAfter body).
Qed.

Lemma put_target_override_ok (body : MatchBody) (m : Match) :
  override_ok m -> override_ok (put_target body m).
Proof.
  unfold override_ok. intros H c.
  rewrite put_target_custom, put_target_pointsAfter.
  destruct (b_customPointsAfter body); simpl; [congruence | apply H].
Qed.

(** ** What each handler leaves in the collection *)

Lemma findOne_Some (sid reqUser : N) (st : Store) (s : Session) :
  findOne sid reqUser st = Some s <-> st !! sid = Some s /\ user s = reqUser.
Proof.
  unfold findOne. destruct (st !! sid) as [s0|]; [|by split; [|intros []]].
  destruct (user s0 =? reqUser)%N eqn:E.
  - apply N.eqb_eq in E. split; [by intros [= <-]|]. by intros [[= <-] _].
  - apply N.eqb_neq in E. split; [done|]. intros [[= <-] ?]. done.
Qed.

Lemma post_match_outcome (newId reqUser sid : N) (body : MatchBody) (st : Store) :
  (success (response (post_match newId reqUser sid body st)) = false
   /\ store (post_match newId reqUser sid body st) = st)
  \/ exists s,
      st !! sid = Some s /\ user s = reqUser
      /\ validate_session (after_post newId body s) = true
      /\ post_match newId reqUser sid body st
         = mkOutcome
             (mkResponse 201 true "Match added successfully"
                         (Some (appended newId body s))
                         (Some (after_post newId body s)))
             (Some (after_post newId body s))
             (<[sid := after_post newId body s]> st).
Proof.
  unfold post_match.
  destruct (negb (truthy (b_deck body)) || negb (truthy (b_opp body))
            || negb (truthy (b_result body)) || negb (truthy (b_turn body)));
    [by left|].
  destruct (findOne sid reqUser st) as [s|] eqn:Hs; [|by left].
  apply findOne_Some in Hs as [Hs Hu].
  assert (Heq : set_matches
            (matches s ++
             [mkMatch newId (trim (str (b_deck body))) (trim (str (b_opp body)))
                (str (b_result body)) (str (b_turn body))
                match last (matches s) with
                | Some m => pointsAfter m
                | None => pointsStart s
                end
                (post_newPoints (pointsFormula s) (str (b_result body))
                   match last (matches s) with
                   | Some m => pointsAfter m
                   | None => pointsStart s
                   end (b_customPointsAfter body)) (b_customPointsAfter body)]) s
          = after_post newId body s).
  { unfold after_post, appended, last_points. by destruct (last (matches s)). }
  cbv zeta. rewrite Heq. unfold save.
  destruct (validate_session (after_post newId body s)) eqn:Hv; [|by left].
  right. exists s. repeat split; try done.
  simpl. by rewrite last_snoc.
Qed.

Lemma put_match_outcome (reqUser sid matchId : N) (body : MatchBody) (st : Store) :
  (success (response (put_match reqUser sid matchId body st)) = false
   /\ store (put_match reqUser sid matchId body st) = st)
  \/ exists s l1 m l2,
      st !! sid = Some s /\ user s = reqUser
      /\ matches s = l1 ++ m :: l2
      /\ findIndex matchId (matches s) = Some (length l1)
      /\ validate_session (after_put body s l1 l2 m) = true
      /\ put_match reqUser sid matchId body st
         = mkOutcome
             (mkResponse 200 true "Match updated successfully"
                         (Some (put_target body m))
                         (Some (after_put body s l1 l2 m)))
             (Some (after_put body s l1 l2 m))
             (<[sid := after_put body s l1 l2 m]> st).
Proof.
  unfold put_match.
  destruct (findOne sid reqUser st) as [s|] eqn:Hs; [|by left].
  apply findOne_Some in Hs as [Hs Hu].
  destruct (findIndex matchId (matches s)) as [k|] eqn:Hk; [|by left].
  destruct (findIndex_split _ _ _ Hk) as (l1 & m & l2 & Hms & <- & _ & _).
  cbv zeta.
  assert (Hpm : set_matches
                  (put_mutate (pointsFormula s) (length l1) body (matches s)) s
                = after_put body s l1 l2 m)
    by (by rewrite Hms, put_mutate_split).
  rewrite Hpm. unfold save.
  destruct (validate_session (after_put body s l1 l2 m)) eqn:Hv; [|by left].
  right. exists s, l1, m, l2. repeat split; try done.
  simpl. by rewrite list_lookup_middle.
Qed.

Lemma delete_match_outcome (reqUser sid matchId : N) (st : Store) :
  (success (response (delete_match reqUser sid matchId st)) = false
   /\ store (delete_match reqUser sid matchId st) = st)
  \/ exists s l1 m l2,
      st !! sid = Some s /\ user s = reqUser
      /\ matches s = l1 ++ m :: l2
      /\ findIndex matchId (matches s) = Some (length l1)
      /\ validate_session (after_delete s l1 l2) = true
      /\ delete_match reqUser sid matchId st
         = mkOutcome
             (mkResponse 200 true "Match deleted successfully"
                         None (Some (after_delete s l1 l2)))
             (Some (after_delete s l1 l2))
             (<[sid := after_delete s l1 l2]> st).
Proof.
  unfold delete_match.
  destruct (findOne sid reqUser st) as [s|] eqn:Hs; [|by left].
  apply findOne_Some in Hs as [Hs Hu].
  destruct (findIndex matchId (matches s)) as [k|] eqn:Hk; [|by left].
  destruct (findIndex_split _ _ _ Hk) as (l1 & m & l2 & Hms & <- & _ & _).
  cbv zeta.
  assert (Hpm : set_matches
                  (delete_recalc (pointsFormula s) (pointsStart s) (length l1)
                                 (delete (length l1) (matches s))) s
                = after_delete s l1 l2)
    by (by rewrite Hms, delete_middle, delete_recalc_split).
  rewrite Hpm. unfold save.
  destruct (validate_session (after_delete s l1 l2)) eqn:Hv; [|by left].
  right. by exists s, l1, m, l2.
Qed.

Lemma clear_matches_outcome (reqUser sid : N) (st : Store) :
  (success (response (clear_matches reqUser sid st)) = false
   /\ store (clear_matches reqUser sid st) = st)
  \/ exists s,
      st !! sid = Some s /\ user s = reqUser
      /\ validate_session (set_matches [] s) = true
      /\ clear_matches reqUser sid st
         = mkOutcome
             (mkResponse 200 true "All matches cleared successfully"
                         None (Some (set_matches [] s)))
             (Some (set_matches [] s))
             (<[sid := set_matches [] s]> st).
Proof.
  unfold clear_matches.
  destruct (findOne sid reqUser st) as [s|] eqn:Hs; [|by left].
  apply findOne_Some in Hs as [Hs Hu].
  cbv zeta. unfold save.
  destruct (validate_session (set_matches [] s)) eqn:Hv; [|by left].
  right. by exists s.
Qed.

Lemma create_session_outcome (newId reqUser : N) (body : SessionBody)
      (st : Store) :
  (success (response (create_session newId reqUser body st)) = false
   /\ store (create_session newId reqUser body st) = st)
  \/ exists doc,
      st !! newId = None /\ matches doc = [] /\ validate_session doc = true
      /\ store (create_session newId reqUser body st) = <[newId := doc]> st.
Proof.
  unfold create_session.
  destruct (negb (truthy (b_name body))); [by left|].
  destruct (st !! newId) eqn:Hn; [by left|].
  cbv zeta. unfold save.
  match goal with
  | |- context [validate_session ?d] =>
      destruct (validate_session d) eqn:Hv; [|by left];
      right; by exists d
  end.
Qed.

(** ** Every stored session is well formed *)

Lemma fresh_id_spec (newId : N) (ms : list Match) :
  fresh_id newId ms = true -> newId ∉ map _id ms.
Proof.
  unfold fresh_id. rewrite forallb_forall. intros H Hin.
  apply list_elem_of_fmap in Hin as (m & -> & Hm).
  apply list_elem_of_In, H in Hm. rewrite N.eqb_refl in Hm. done.
Qed.

Lemma wf_after_post (newId : N) (body : MatchBody) (s : Session) :
  wf_session s -> fresh_id newId (matches s) = true ->
  validate_session (after_post newId body s) = true ->
  wf_session (after_post newId body s).
Proof.
  intros [_ Hc Ho Hi] Hf Hv. split; [done| | |]; simpl.
  - apply chained_app. split; [done|]. simpl. done.
  - apply Forall_app. split; [done|]. constructor; [|constructor].
    intros c Hcu. simpl in *. rewrite Hcu. done.
  - rewrite map_app. simpl. apply NoDup_app. split; [done|]. split.
    + intros x Hx Hx'. apply list_elem_of_singleton in Hx' as ->.
      by apply (fresh_id_spec _ _ Hf).
    + apply NoDup_singleton.
Qed.

Lemma wf_after_put (body : MatchBody) (s : Session) (l1 l2 : list Match)
      (m : Match) :
  wf_session s -> matches s = l1 ++ m :: l2 ->
  validate_session (after_put body s l1 l2 m) = true ->
  wf_session (after_put body s l1 l2 m).
Proof.
  intros [_ Hc Ho Hi] Hms Hv. rewrite Hms in Hc, Ho, Hi.
  apply chained_app in Hc as [Hc1 [Hcm Hc2]].
  apply Forall_app in Ho as [Ho1 Ho2]. apply Forall_cons in Ho2 as [Hom Ho2].
  split; [done| | |]; simpl.
  - apply chained_app. split; [done|]. simpl.
    rewrite put_target_pointsBefore, put_target_pointsAfter. split; [done|].
    destruct (b_customPointsAfter body); simpl; [apply chained_rechain | done].
  - apply Forall_app. split; [done|]. constructor.
    + by apply put_target_override_ok.
    + destruct (b_customPointsAfter body); [by apply rechain_override_ok|done].
  - rewrite map_app in *. simpl in *. rewrite put_target_id.
    destruct (b_customPointsAfter body); [by rewrite rechain_ids | done].
Qed.

Lemma wf_after_delete (s : Session) (l1 l2 : list Match) (m : Match) :
  wf_session s -> matches s = l1 ++ m :: l2 ->
  validate_session (after_delete s l1 l2) = true ->
  wf_session (after_delete s l1 l2).
Proof.
  intros [_ Hc Ho Hi] Hms Hv. rewrite Hms in Hc, Ho, Hi.
  apply chained_app in Hc as [Hc1 _].
  apply Forall_app in Ho as [Ho1 Ho2]. apply Forall_cons in Ho2 as [_ Ho2].
  split; [done| | |]; simpl.
  - apply chained_app. split; [done | apply chained_rechain].
  - apply Forall_app. split; [done | by apply rechain_override_ok].
  - rewrite map_app in *. simpl in Hi. rewrite rechain_ids.
    apply NoDup_app in Hi as (Hi1 & Hi2 & Hi3).
    apply NoDup_cons in Hi3 as [_ Hi3].
    apply NoDup_app. split; [done|]. split; [|done].
    intros x Hx Hx'. apply (Hi2 x Hx). by constructor.
Qed.

Lemma wf_empty_matches (s : Session) :
  validate_session s = true -> matches s = [] -> wf_session s.
Proof.
  intros Hv Hm. split; [done|..]; rewrite Hm; simpl; [done| |]; constructor.
Qed.

Theorem reachable_wf (st : Store) :
  reachable st -> forall sid s, st !! sid = Some s -> wf_session s.
Proof.
  induction 1 as [|st r Hr IH Hf]; intros sid0 s0 Hl; [done|].
  destruct r as [newId u body | newId u sid body | u sid mid body
                | u sid mid | u sid]; simpl in Hl, Hf.
  - destruct (create_session_outcome newId u body st)
      as [[_ He] | (doc & _ & Hm & Hv & He)]; rewrite He in Hl; [by eauto|].
    destruct (decide (newId = sid0)) as [<-|Hne].
    + rewrite lookup_insert_eq in Hl. injection Hl as <-.
      by apply wf_empty_matches.
    + rewrite lookup_insert_ne in Hl by done. by eauto.
  - destruct (post_match_outcome newId u sid body st)
      as [[_ He] | (s & Hs & _ & Hv & He)]; rewrite He in Hl; [by eauto|].
    simpl in Hl. rewrite Hs in Hf.
    destruct (decide (sid = sid0)) as [<-|Hne].
    + rewrite lookup_insert_eq in Hl. injection Hl as <-.
      apply wf_after_post; eauto.
    + rewrite lookup_insert_ne in Hl by done. by eauto.
  - destruct (put_match_outcome u sid mid body st)
      as [[_ He] | (s & l1 & m & l2 & Hs & _ & Hms & _ & Hv & He)];
      rewrite He in Hl; [by eauto|].
    simpl in Hl. destruct (decide (sid = sid0)) as [<-|Hne].
    + rewrite lookup_insert_eq in Hl. injection Hl as <-.
      apply wf_after_put; eauto.
    + rewrite lookup_insert_ne in Hl by done. by eauto.
  - destruct (delete_match_outcome u sid mid st)
      as [[_ He] | (s & l1 & m & l2 & Hs & _ & Hms & _ & Hv & He)];
      rewrite He in Hl; [by eauto|].
    simpl in Hl. destruct (decide (sid = sid0)) as [<-|Hne].
    + rewrite lookup_insert_eq in Hl. injection Hl as <-.
      eapply wf_after_delete; eauto.
    + rewrite lookup_insert_ne in Hl by done. by eauto.
  - destruct (clear_matches_outcome u sid st)
      as [[_ He] | (s & Hs & _ & Hv & He)]; rewrite He in Hl; [by eauto|].
    simpl in Hl. destruct (decide (sid = sid0)) as [<-|Hne].
    + rewrite lookup_insert_eq in Hl. injection Hl as <-.
      by apply wf_empty_matches.
    + rewrite lookup_insert_ne in Hl by done. by eauto.
Qed.

Lemma reachable_run (rs : list Request) (st : Store) :
  reachable st -> fresh_run rs st = true -> reachable (run rs st).
Proof.
  revert st. induction rs as [|r rs IH]; intros st Hr Hf; simpl in *; [done|].
  apply andb_true_iff in Hf as [Hf1 Hf2].
  apply IH; [by constructor | done].
Qed.

(** ** The pass over the suffix is the specification's forward recompute *)

Lemma recalc_elem_forward (formula : string) (p : number) (m : Match) :
  validate_match m = true -> override_ok m ->
  (formula = "rated"%string \/ formula = "dc"%string) ->
  recalc_elem formula p m
  = set_pointsAfter
      match customPointsAfter m with
      | Some c => c
      | None => scoring_rule_str p (result m) formula
      end (set_pointsBefore p m).
Proof.
  intros Hv Ho Hf. unfold recalc_elem.
  destruct (customPointsAfter m) as [c|] eqn:E.
  - rewrite <- (Ho c E). by destruct m.
  - rewrite post_newPoints_scoring; [done| |done].
    by apply validate_match_result.
Qed.

Lemma rechain_forward_recompute (formula : string) (p : number) (ms : list Match) :
  Forall (fun m => validate_match m = true) ms -> Forall override_ok ms ->
  (formula = "rated"%string \/ formula = "dc"%string) ->
  rechain (recalc_elem formula) p ms = forward_recompute formula p ms.
Proof.
  intros Hv Ho Hf. revert p Ho.
  induction Hv as [|m ms Hm _ IH]; intros p Ho; simpl; [done|].
  apply Forall_cons in Ho as [Hom Ho].
  rewrite (recalc_elem_forward formula p m Hm Hom Hf). simpl.
  by rewrite IH.
Qed.

(** ** Bodies the schema accepts *)

Lemma truthy_required (v : option string) :
  truthy v = true -> required_string (str v) = true.
Proof. by destruct v. Qed.

Lemma post_newPoints_not_nan (formula result : string) (p : number)
      (c : option number) :
  is_nan p = false ->
  match c with Some x => cast_number x | None => true end = true ->
  is_nan (post_newPoints formula result p c) = false.
Proof.
  intros Hp Hc. unfold post_newPoints.
  destruct c as [x|]; [by apply cast_number_true|].
  destruct (formula =? "rated")%string, (result =? "Win")%string,
    (p <? 15); by first [apply fadd_not_nan | apply fsub_not_nan].
Qed.

Lemma last_points_not_nan (p : number) (ms : list Match) :
  is_nan p = false -> forallb validate_match ms = true ->
  is_nan (last_points p ms) = false.
Proof.
  intros Hp Hv. unfold last_points.
  destruct (last ms) as [m|] eqn:E; simpl; [|done].
  rewrite forallb_forall in Hv.
  apply (validate_match_points m), Hv, list_elem_of_In.
  by eapply last_Some_elem_of.
Qed.

Lemma validate_session_matches (s : Session) :
  validate_session s = true -> forallb validate_match (matches s) = true.
Proof.
  unfold validate_session. rewrite !andb_true_iff. tauto.
Qed.

Lemma validate_session_set_matches (s : Session) (ms : list Match) :
  validate_session s = true -> forallb validate_match ms = true ->
  validate_session (set_matches ms s) = true.
Proof.
  unfold validate_session. simpl. rewrite !andb_true_iff. tauto.
Qed.

Lemma validate_appended (newId : N) (body : MatchBody) (s : Session) :
  post_body_ok body = true -> validate_session s = true ->
  validate_match (appended newId body s) = true.
Proof.
  unfold post_body_ok, custom_ok. rewrite !andb_true_iff.
  intros [[[[[[[[_ _] Hr] Ht] Hd] Ho] Her] Het] Hc] Hv.
  assert (Hl : is_nan (last_points (pointsStart s) (matches s)) = false).
  { apply last_points_not_nan;
      [by apply validate_session_start | by apply validate_session_matches]. }
  rewrite validate_match_split. apply andb_true_iff. split.
  - unfold strings_ok. simpl. rewrite !andb_true_iff.
    auto 10 using truthy_required.
  - unfold points_ok. simpl. rewrite !andb_true_iff, !cast_number_true.
    split; [split; [done | by apply post_newPoints_not_nan] | done].
Qed.

Lemma put_target_strings_ok (body : MatchBody) (m : Match) :
  put_body_ok body = true -> strings_ok m = true ->
  strings_ok (put_target body m) = true.
Proof.
  unfold put_body_ok, strings_ok, put_target.
  rewrite !andb_true_iff.
  intros [[[[Hd Ho] Hr] Ht] _] [[[[[Md Mo] Mr] Mre] Mt] Mte].
  destruct (truthy (b_deck body)) eqn:Td, (truthy (b_opp body)) eqn:To,
    (truthy (b_result body)) eqn:Tr, (truthy (b_turn body)) eqn:Tt,
    (b_customPointsAfter body); simpl in *;
    auto 10 using truthy_required.
Qed.

Lemma put_target_points_ok (body : MatchBody) (m : Match) :
  put_body_ok body = true -> points_ok m = true ->
  points_ok (put_target body m) = true.
Proof.
  unfold put_body_ok, custom_ok, points_ok, put_target.
  rewrite !andb_true_iff. intros [_ Hc] [[Hb Ha] Hcu].
  by destruct (truthy (b_deck body)), (truthy (b_opp body)),
    (truthy (b_result body)), (truthy (b_turn body)),
    (b_customPointsAfter body); simpl; rewrite ?Hb, ?Ha, ?Hc, ?Hcu.
Qed.

Lemma validate_put_target (body : MatchBody) (m : Match) :
  put_body_ok body = true -> validate_match m = true ->
  validate_match (put_target body m) = true.
Proof.
  rewrite !validate_match_split, !andb_true_iff. intros Hb [Hs Hp].
  by rewrite put_target_strings_ok, put_target_points_ok.
Qed.

Lemma recalc_elem_strings_ok (formula : string) (p : number) (m : Match) :
  strings_ok (recalc_elem formula p m) = strings_ok m.
Proof. unfold recalc_elem. by destruct (customPointsAfter m). Qed.

Lemma recalc_elem_pointsAfter (formula : string) (p : number) (m : Match) :
  pointsAfter (recalc_elem formula p m)
  = match customPointsAfter m with
    | Some _ => pointsAfter m
    | None => post_newPoints formula (result m) p None
    end.
Proof. unfold recalc_elem. by destruct (customPointsAfter m). Qed.

Lemma recalc_elem_points_ok (formula : string) (p : number) (m : Match) :
  is_nan p = false -> points_ok m = true ->
  points_ok (recalc_elem formula p m) = true.
Proof.
  unfold points_ok. rewrite !andb_true_iff, !cast_number_true.
  intros Hp [[Hb Ha] Hc].
  rewrite recalc_elem_pointsBefore, recalc_elem_pointsAfter,
    recalc_elem_custom.
  split; [split; [done|] | done].
  destruct (customPointsAfter m); [done|].
  by apply post_newPoints_not_nan.
Qed.

Lemma validate_recalc_elem (formula : string) (p : number) (m : Match) :
  is_nan p = false -> validate_match m = true ->
  validate_match (recalc_elem formula p m) = true.
Proof.
  rewrite !validate_match_split, !andb_true_iff. intros Hp [Hs Hm].
  by rewrite recalc_elem_strings_ok, recalc_elem_points_ok.
Qed.

Lemma validate_rechain (formula : string) (p : number) (ms : list Match) :
  is_nan p = false -> forallb validate_match ms = true ->
  forallb validate_match (rechain (recalc_elem formula) p ms) = true.
Proof.
  revert p. induction ms as [|a ms IH]; intros p Hp Hv; simpl; [done|].
  simpl in Hv. apply andb_true_iff in Hv as [Ha Hms].
  pose proof (validate_recalc_elem formula p a Hp Ha) as Hr.
  rewrite Hr. simpl. apply IH; [|done].
  by apply (validate_match_points _ Hr).
Qed.

Lemma validate_after_post (newId : N) (body : MatchBody) (s : Session) :
  validate_session s = true -> post_body_ok body = true ->
  validate_session (after_post newId body s) = true.
Proof.
  intros Hv Hb. apply validate_session_set_matches; [done|].
  rewrite forallb_app. simpl.
  by rewrite validate_session_matches, validate_appended.
Qed.

Lemma validate_after_put (body : MatchBody) (s : Session)
      (l1 l2 : list Match) (m : Match) :
  validate_session s = true -> matches s = l1 ++ m :: l2 ->
  put_body_ok body = true ->
  validate_session (after_put body s l1 l2 m) = true.
Proof.
  intros Hv Hms Hb. apply validate_session_set_matches; [done|].
  apply validate_session_matches in Hv. rewrite Hms in Hv.
  rewrite forallb_app in *. simpl in *.
  apply andb_true_iff in Hv as [H1 H2]. apply andb_true_iff in H2 as [Hm H2].
  rewrite H1, validate_put_target by done. simpl.
  destruct (b_customPointsAfter body) as [c|] eqn:Hc; [|done].
  apply validate_rechain; [|done].
  unfold put_body_ok, custom_ok in Hb. rewrite Hc in Hb.
  apply andb_true_iff in Hb as [_ Hb]. by apply cast_number_true.
Qed.

Lemma validate_after_delete (s : Session) (l1 l2 : list Match) (m : Match) :
  validate_session s = true -> matches s = l1 ++ m :: l2 ->
  validate_session (after_delete s l1 l2) = true.
Proof.
  intros Hv Hms. apply validate_session_set_matches; [done|].
  pose proof (validate_session_start s Hv) as Hst.
  apply validate_session_matches in Hv. rewrite Hms in Hv.
  rewrite forallb_app in *. simpl in *.
  apply andb_true_iff in Hv as [H1 H2]. apply andb_true_iff in H2 as [Hm H2].
  rewrite H1. simpl. apply validate_rechain; [|done].
  by apply last_points_not_nan.
Qed.

(** ** When the handlers succeed *)

Lemma post_match_ok (newId reqUser sid : N) (body : MatchBody) (st : Store)
      (s : Session) :
  st !! sid = Some s -> user s = reqUser ->
  validate_session s = true -> post_body_ok body = true ->
  post_match newId reqUser sid body st
  = mkOutcome
      (mkResponse 201 true "Match added successfully"
                  (Some (appended newId body s))
                  (Some (after_post newId body s)))
      (Some (after_post newId body s))
      (<[sid := after_post newId body s]> st).
Proof.
  intros Hs Hu Hv Hb.
  destruct (post_match_outcome newId reqUser sid body st)
    as [[Hf _] | (s0 & Hs0 & _ & _ & He)].
  - exfalso. revert Hf. unfold post_match.
    pose proof Hb as Hb'. unfold post_body_ok in Hb'.
    rewrite !andb_true_iff in Hb'.
    destruct Hb' as [[[[[[[[-> ->] ->] ->] _] _] _] _] _]. simpl.
    rewrite (proj2 (findOne_Some sid reqUser st s) (conj Hs Hu)).
    cbv zeta. unfold save.
    match goal with
    | |- context [validate_session ?d] =>
        replace d with (after_post newId body s)
    end.
    + by rewrite (validate_after_post newId body s Hv Hb).
    + unfold after_post, appended, last_points.
      by destruct (last (matches s)).
  - rewrite Hs in Hs0. injection Hs0 as <-. done.
Qed.

Lemma put_match_ok (reqUser sid : N) (body : MatchBody) (st : Store)
      (s : Session) (l1 l2 : list Match) (m : Match) :
  st !! sid = Some s -> user s = reqUser ->
  matches s = l1 ++ m :: l2 -> NoDup (map _id (matches s)) ->
  validate_session s = true -> put_body_ok body = true ->
  put_match reqUser sid (_id m) body st
  = mkOutcome
      (mkResponse 200 true "Match updated successfully"
                  (Some (put_target body m))
                  (Some (after_put body s l1 l2 m)))
      (Some (after_put body s l1 l2 m))
      (<[sid := after_put body s l1 l2 m]> st).
Proof.
  intros Hs Hu Hms Hnd Hv Hb.
  assert (Hk : findIndex (_id m) (matches s) = Some (length l1)).
  { apply findIndex_NoDup; [done|]. rewrite Hms. by apply list_lookup_middle. }
  unfold put_match.
  rewrite (proj2 (findOne_Some sid reqUser st s) (conj Hs Hu)), Hk.
  cbv zeta.
  assert (Hpm : set_matches
                  (put_mutate (pointsFormula s) (length l1) body (matches s)) s
                = after_put body s l1 l2 m)
    by (by rewrite Hms, put_mutate_split).
  rewrite Hpm. unfold save.
  rewrite (validate_after_put body s l1 l2 m Hv Hms Hb).
  simpl. by rewrite list_lookup_middle.
Qed.

Lemma delete_match_ok (reqUser sid : N) (st : Store)
      (s : Session) (l1 l2 : list Match) (m : Match) :
  st !! sid = Some s -> user s = reqUser ->
  matches s = l1 ++ m :: l2 -> NoDup (map _id (matches s)) ->
  validate_session s = true ->
  delete_match reqUser sid (_id m) st
  = mkOutcome
      (mkResponse 200 true "Match deleted successfully"
                  None (Some (after_delete s l1 l2)))
      (Some (after_delete s l1 l2))
      (<[sid := after_delete s l1 l2]> st).
Proof.
  intros Hs Hu Hms Hnd Hv.
  assert (Hk : findIndex (_id m) (matches s) = Some (length l1)).
  { apply findIndex_NoDup; [done|]. rewrite Hms. by apply list_lookup_middle. }
  unfold delete_match.
  rewrite (proj2 (findOne_Some sid reqUser st s) (conj Hs Hu)), Hk.
  cbv zeta.
  assert (Hpm : set_matches
                  (delete_recalc (pointsFormula s) (pointsStart s) (length l1)
                                 (delete (length l1) (matches s))) s
                = after_delete s l1 l2)
    by (by rewrite Hms, delete_middle, delete_recalc_split).
  rewrite Hpm. unfold save.
  by rewrite (validate_after_delete s l1 l2 m Hv Hms).
Qed.

Lemma lookup_split (ms : list Match) (k : nat) (m : Match) :
  ms !! k = Some m ->
  ms = take k ms ++ m :: drop (S k) ms /\ length (take k ms) = k.
Proof.
  intros H. split; [by rewrite take_drop_middle|].
  rewrite length_take. apply lookup_lt_Some in H. lia.
Qed.

(** ** The model on concrete inputs *)

Example trim_example : trim "  Branded  " = "Branded"%string.
Proof. reflexivity. Qed.

(** U+00A0 is trimmed as well. *)
Example trim_nbsp :
  trim (nbsp ++ "Branded" ++ nbsp) = "Branded"%string
  /\ trim nbsp = EmptyString.
Proof. split; reflexivity. Qed.

Example dc_loss_at_15 : post_newPoints "dc" "Loss" 15 None = 14.
Proof. vm_compute. reflexivity. Qed.

Example dc_loss_at_10 : post_newPoints "dc" "Loss" 10 None = 9.5.
Proof. vm_compute. reflexivity. Qed.

Example rated_win_after_1500 : post_newPoints "rated" "Win" 1500 None = 1507.
Proof. vm_compute. reflexivity. Qed.

(** The sums are binary64 sums: at 2^53 a rated win adds 8, and 0.56 + 7 is
    not the number that 7.56 denotes. *)
Example rated_win_at_2_53 :
  post_newPoints "rated" "Win" 9007199254740992 None = 9007199254741000.
Proof. vm_compute. reflexivity. Qed.

Example rated_win_at_0_56 :
  post_newPoints "rated" "Win" 0.56 None
  = S754_finite false 8511803295730238 (-50)
  /\ post_newPoints "rated" "Win" 0.56 None <> 7.56.
Proof. split; [vm_compute; reflexivity | by vm_compute]. Qed.

Example ex_store_session : ex_store !! 1%N = Some ex_session.
Proof. vm_compute. reflexivity. Qed.

(** The first match of a session starting at 1500 is entered with 1500. *)
Example empty_session_append :
  map points_of
    <$> (matches <$> run (take 2 ex_requests) ∅ !! 1%N)
  = Some [(1500, 1507)].
Proof. vm_compute. reflexivity. Qed.

(** A deck name of white space only, U+00A0 included, is stored empty and
    fails the validators: the append and the edit answer 500 and the session
    is as before. *)
Example nbsp_deck_rejected :
  status (response
            (post_match 13 7 1
               (mkMatchBody (Some nbsp) (Some "Maliss"%string)
                            (Some "Win"%string) (Some "1st"%string) None)
               ex_store)) = 500%nat
  /\ status (response
               (put_match 7 1 10
                  (mkMatchBody (Some nbsp) None None None (Some 1400))
                  ex_store)) = 500%nat
  /\ store (put_match 7 1 10
               (mkMatchBody (Some nbsp) None None None (Some 1400))
               ex_store) = ex_store.
Proof. repeat split; vm_compute; reflexivity. Qed.

(** Pinning the first match at 1400 re-derives the two later matches. *)
Example edit_with_override :
  map points_of
    <$> (matches
           <$> store (put_match 7 1 10
                        (mkMatchBody None None None None (Some 1400))
                        ex_store) !! 1%N)
  = Some [(1500, 1400); (1400, 1393); (1393, 1400)].
Proof. vm_compute. reflexivity. Qed.

(** Turning the Loss into a Win without an override moves no points. *)
Example edit_result_only :
  map (fun m => (result m, points_of m))
    <$> (matches
           <$> store (put_match 7 1 11
                        (mkMatchBody None None (Some "Win"%string) None None)
                        ex_store) !! 1%N)
  = Some [("Win"%string, (1500, 1507)); ("Win"%string, (1507, 1500));
          ("Win"%string, (1500, 1507))].
Proof. vm_compute. reflexivity. Qed.

Example stats_example :
  winRate (stats ex_session) = 66.7
  /\ winRate1st (stats ex_session) = 66.7
  /\ winRate2nd (stats ex_session) = 0
  /\ currentPoints (stats ex_session) = 1507
  /\ peakPoints (stats ex_session) = 1507.
Proof. repeat split; vm_compute; reflexivity. Qed.

(** The rate is rounded from a binary64 product: 201 wins of 400 give
    502.49999999999994 before rounding, hence 50.2. *)
Example win_rate_201_of_400 :
  num 201 / num 400 * 1000 = S754_finite false 8840073487319039 (-44)
  /\ rate_spec 201 400 = 50.2.
Proof. split; vm_compute; reflexivity. Qed.

(** ** The claims *)

(** C1. In every stored session reachable through the API (sessions are
    created empty, then changed by append, edit, delete and clear), the first
    match's [pointsBefore] is the session's [pointsStart] and every later
    match's [pointsBefore] is its predecessor's [pointsAfter]. *)
Theorem C1_chain_invariant (st : Store) (sid : N) (s : Session) :
  reachable st -> st !! sid = Some s -> chain_invariant s.
Proof.
  intros Hr Hs. apply chained_chain_invariant.
  by destruct (reachable_wf st Hr sid s Hs).
Qed.

Lemma C1_chain_invariant_witness :
  reachable ex_store /\ ex_store !! 1%N = Some ex_session
  /\ chain_invariant ex_session.
Proof.
  assert (Hr : reachable ex_store)
    by (apply reachable_run; [constructor | vm_compute; reflexivity]).
  assert (Hs : ex_store !! 1%N = Some ex_session)
    by (vm_compute; reflexivity).
  exact (conj Hr (conj Hs (C1_chain_invariant ex_store 1 ex_session Hr Hs))).
Defined.

(** C2. Editing the match at index [k] with [customPointsAfter = X] succeeds
    and sets that match's [pointsAfter] (and override) to [X] whatever its
    result; the matches before [k] are as they were; the matches after [k]
    are the forward recompute of the old suffix from prior points [X]; and
    every later match that carries an override ends with that override as
    its [pointsAfter]. *)
Theorem C2_override_precedence (st : Store) (sid : N) (s : Session) (k : nat)
        (m : Match) (body : MatchBody) (X : number) :
  reachable st -> st !! sid = Some s -> matches s !! k = Some m ->
  b_customPointsAfter body = Some X -> put_body_ok body = true ->
  exists s' mk,
    status (response (put_match (user s) sid (_id m) body st)) = 200%nat
    /\ store (put_match (user s) sid (_id m) body st) !! sid = Some s'
    /\ length (matches s') = length (matches s)
    /\ take k (matches s') = take k (matches s)
    /\ matches s' !! k = Some mk
    /\ pointsAfter mk = X /\ customPointsAfter mk = Some X
    /\ drop (S k) (matches s')
       = forward_recompute (pointsFormula s) X (drop (S k) (matches s))
    /\ (forall j mj c, (k < j)%nat -> matches s' !! j = Some mj ->
                       customPointsAfter mj = Some c -> pointsAfter mj = c).
Proof.
  intros Hr Hs Hk HX Hb.
  destruct (reachable_wf st Hr sid s Hs) as [Hv Hc Ho Hi].
  destruct (lookup_split _ _ _ Hk) as [Hms Hlen].
  set (l1 := take k (matches s)) in *. set (l2 := drop (S k) (matches s)) in *.
  pose proof (put_match_ok (user s) sid body st s l1 l2 m Hs eq_refl
                Hms Hi Hv Hb) as He.
  assert (Hr' : reachable (store (handle (UpdateMatch (user s) sid (_id m) body) st)))
    by (by constructor).
  simpl in Hr'. rewrite He in *. simpl in Hr'.
  destruct (validate_session_inv s Hv) as [Hvm Hf].
  assert (Hvm2 : Forall (fun x => validate_match x = true) l2).
  { rewrite Hms in Hvm. apply Forall_app in Hvm as [_ Hvm].
    by apply Forall_cons in Hvm as [_ Hvm]. }
  assert (Ho2 : Forall override_ok l2).
  { rewrite Hms in Ho. apply Forall_app in Ho as [_ Ho].
    by apply Forall_cons in Ho as [_ Ho]. }
  exists (after_put body s l1 l2 m), (put_target body m). simpl.
  rewrite HX.
  repeat split.
  - by rewrite lookup_insert_eq.
  - rewrite Hms, !length_app. simpl. by rewrite rechain_length.
  - rewrite <- Hlen at 1. by rewrite take_app_length.
  - rewrite <- Hlen at 1. by rewrite list_lookup_middle.
  - by rewrite put_target_pointsAfter, HX.
  - by rewrite put_target_custom, HX.
  - rewrite (cons_middle _ l1), app_assoc.
    rewrite drop_app_length' by (rewrite length_app; simpl; lia).
    by apply rechain_forward_recompute.
  - intros j mj c _ Hj Hcu.
    pose proof (reachable_wf _ Hr' sid _ (lookup_insert_eq _ _ _)) as [_ _ Ho' _].
    simpl in Ho'. rewrite HX in Ho'.
    rewrite Forall_lookup in Ho'. by apply (Ho' j mj Hj c).
Qed.

Lemma C2_override_precedence_witness :
  reachable ex_store /\ ex_store !! 1%N = Some ex_session /\
  exists s' mk,
    status (response (put_match 7 1 10
                        (mkMatchBody None None None None (Some 1400))
                        ex_store)) = 200%nat
    /\ store (put_match 7 1 10 (mkMatchBody None None None None (Some 1400))
                        ex_store) !! 1%N = Some s'
    /\ length (matches s') = 3%nat
    /\ take 0 (matches s') = []
    /\ matches s' !! 0%nat = Some mk
    /\ pointsAfter mk = 1400 /\ customPointsAfter mk = Some 1400
    /\ drop 1 (matches s')
       = forward_recompute "rated" 1400
           [ex_match 11 "Loss" 1507 1500; ex_match 12 "Win" 1500 1507]
    /\ (forall j mj c, (0 < j)%nat -> matches s' !! j = Some mj ->
                       customPointsAfter mj = Some c -> pointsAfter mj = c).
Proof.
  assert (Hr : reachable ex_store)
    by (apply reachable_run; [constructor | vm_compute; reflexivity]).
  assert (Hs : ex_store !! 1%N = Some ex_session)
    by (vm_compute; reflexivity).
  exact (conj Hr (conj Hs
           (C2_override_precedence ex_store 1 ex_session 0
              (ex_match 10 "Win" 1500 1507)
              (mkMatchBody None None None None (Some 1400)) 1400
              Hr Hs eq_refl eq_refl eq_refl))).
Defined.

(** C3. Deleting the match at index [k] succeeds, shortens the sequence by
    one, leaves the matches before [k] as they were and makes the matches
    from [k] on the forward recompute of the old matches after [k], started
    from the [pointsAfter] of the match now at [k - 1], or from [pointsStart]
    when [k = 0].  In the rated session starting at 1500 with Win, Loss, Win
    (1500 -> 1507 -> 1500 -> 1507), deleting the second match leaves the
    chain 1500 -> 1507 -> 1514. *)
Theorem C3_delete_recompute :
  (forall (st : Store) (sid : N) (s : Session) (k : nat) (m : Match),
      reachable st -> st !! sid = Some s -> matches s !! k = Some m ->
      exists s',
        status (response (delete_match (user s) sid (_id m) st)) = 200%nat
        /\ store (delete_match (user s) sid (_id m) st) !! sid = Some s'
        /\ S (length (matches s')) = length (matches s)
        /\ take k (matches s') = take k (matches s)
        /\ drop k (matches s')
           = forward_recompute (pointsFormula s) (prior_points s' k)
                               (drop (S k) (matches s)))
  /\ (pointsFormula ex_session = "rated"%string
      /\ pointsStart ex_session = 1500
      /\ map result (matches ex_session) = ["Win"; "Loss"; "Win"]%string
      /\ map points_of (matches ex_session)
         = [(1500, 1507); (1507, 1500); (1500, 1507)]
      /\ (map points_of ∘ matches)
           <$> store (delete_match 7 1 11 ex_store) !! 1%N
         = Some [(1500, 1507); (1507, 1514)]).
Proof.
  split; [|by vm_compute].
  intros st sid s k m Hr Hs Hk.
  destruct (reachable_wf st Hr sid s Hs) as [Hv Hc Ho Hi].
  destruct (lookup_split _ _ _ Hk) as [Hms Hlen].
  set (l1 := take k (matches s)) in *. set (l2 := drop (S k) (matches s)) in *.
  pose proof (delete_match_ok (user s) sid st s l1 l2 m Hs eq_refl
                Hms Hi Hv) as He.
  rewrite He. simpl.
  destruct (validate_session_inv s Hv) as [Hvm Hf].
  assert (Hvm2 : Forall (fun x => validate_match x = true) l2).
  { rewrite Hms in Hvm. apply Forall_app in Hvm as [_ Hvm].
    by apply Forall_cons in Hvm as [_ Hvm]. }
  assert (Ho2 : Forall override_ok l2).
  { rewrite Hms in Ho. apply Forall_app in Ho as [_ Ho].
    by apply Forall_cons in Ho as [_ Ho]. }
  exists (after_delete s l1 l2). simpl. repeat split.
  - by rewrite lookup_insert_eq.
  - rewrite Hms, !length_app. simpl. rewrite rechain_length. lia.
  - rewrite <- Hlen at 1. by rewrite take_app_length.
  - assert (Hp : prior_points (after_delete s l1 l2) k
                 = last_points (pointsStart s) l1).
    { rewrite last_points_lookup, Hlen. unfold prior_points. simpl.
      destruct k as [|j]; [done|].
      by rewrite lookup_app_l by lia. }
    rewrite Hp. rewrite <- Hlen at 1. rewrite drop_app_length.
    by apply rechain_forward_recompute.
Qed.

Lemma C3_delete_recompute_witness :
  reachable ex_store /\ ex_store !! 1%N = Some ex_session /\
  exists s',
    status (response (delete_match 7 1 11 ex_store)) = 200%nat
    /\ store (delete_match 7 1 11 ex_store) !! 1%N = Some s'
    /\ S (length (matches s')) = 3%nat
    /\ take 1 (matches s') = [ex_match 10 "Win" 1500 1507]
    /\ drop 1 (matches s')
       = forward_recompute "rated" (prior_points s' 1)
                           [ex_match 12 "Win" 1500 1507].
Proof.
  assert (Hr : reachable ex_store)
    by (apply reachable_run; [constructor | vm_compute; reflexivity]).
  assert (Hs : ex_store !! 1%N = Some ex_session)
    by (vm_compute; reflexivity).
  exact (conj Hr (conj Hs
           (proj1 C3_delete_recompute ex_store 1%N ex_session 1%nat
                  (ex_match 11 "Loss" 1507 1500) Hr Hs eq_refl))).
Defined.

(** C4. On a session the caller owns, a POST with a valid payload succeeds
    and appends exactly one match: its [pointsBefore] is the previous last
    match's [pointsAfter] (or [pointsStart] on an empty sequence), its
    [pointsAfter] is [customPointsAfter] when supplied and otherwise the
    scoring rule on ([pointsBefore], [result], formula); the sequence grows
    by one and every match that was there is unchanged. *)
Theorem C4_append_postcondition (st : Store) (newId sid : N) (s : Session)
        (body : MatchBody) :
  reachable st -> st !! sid = Some s -> post_body_ok body = true ->
  exists s' mnew,
    status (response (post_match newId (user s) sid body st)) = 201%nat
    /\ resMatch (response (post_match newId (user s) sid body st)) = Some mnew
    /\ store (post_match newId (user s) sid body st) !! sid = Some s'
    /\ matches s' = matches s ++ [mnew]
    /\ length (matches s') = S (length (matches s))
    /\ (forall j mj, matches s !! j = Some mj -> matches s' !! j = Some mj)
    /\ pointsBefore mnew
       = match last (matches s) with
         | Some lastMatch => pointsAfter lastMatch
         | None => pointsStart s
         end
    /\ pointsAfter mnew
       = match b_customPointsAfter body with
         | Some c => c
         | None => scoring_rule_str (pointsBefore mnew) (str (b_result body))
                                    (pointsFormula s)
         end
    /\ result mnew = str (b_result body)
    /\ customPointsAfter mnew = b_customPointsAfter body.
Proof.
  intros Hr Hs Hb.
  destruct (reachable_wf st Hr sid s Hs) as [Hv _ _ _].
  rewrite (post_match_ok newId (user s) sid body st s Hs eq_refl Hv Hb).
  exists (after_post newId body s), (appended newId body s). simpl.
  repeat split.
  - by rewrite lookup_insert_eq.
  - rewrite length_app. simpl. lia.
  - intros j mj Hj. by apply lookup_app_l_Some.
  - unfold last_points. by destruct (last (matches s)).
  - destruct (b_customPointsAfter body) as [c|]; [done|].
    apply post_newPoints_scoring.
    + unfold post_body_ok in Hb. rewrite !andb_true_iff in Hb.
      destruct Hb as [[[_ Hb] _] _]. by apply enum_member_result.
    + by destruct (validate_session_inv s Hv).
Qed.

Lemma C4_append_postcondition_witness :
  reachable ex_store /\ ex_store !! 1%N = Some ex_session /\
  exists s' mnew,
    status (response (post_match 13 7 1 (ex_body "Loss") ex_store)) = 201%nat
    /\ resMatch (response (post_match 13 7 1 (ex_body "Loss") ex_store))
       = Some mnew
    /\ store (post_match 13 7 1 (ex_body "Loss") ex_store) !! 1%N = Some s'
    /\ matches s' = matches ex_session ++ [mnew]
    /\ length (matches s') = 4%nat
    /\ (forall j mj, matches ex_session !! j = Some mj ->
                     matches s' !! j = Some mj)
    /\ pointsBefore mnew = 1507
    /\ pointsAfter mnew = scoring_rule_str (pointsBefore mnew) "Loss" "rated"
    /\ result mnew = "Loss"%string
    /\ customPointsAfter mnew = None.
Proof.
  assert (Hr : reachable ex_store)
    by (apply reachable_run; [constructor | vm_compute; reflexivity]).
  assert (Hs : ex_store !! 1%N = Some ex_session)
    by (vm_compute; reflexivity).
  exact (conj Hr (conj Hs
           (C4_append_postcondition ex_store 13 1 ex_session (ex_body "Loss")
              Hr Hs eq_refl))).
Defined.

Lemma fle_not_nan (x y : number) :
  (x <=? y) = true -> is_nan x = false /\ is_nan y = false.
Proof. by destruct x, y. Qed.

(** C5. The points computed for an appended match without override: rated
    gives [p + 7] on a Win and [p - 7] on a Loss; dc gives [p + 1] on a Win
    and, on a Loss, [p - 1] when [p >= 15] and [p - 0.5] when [p < 15].  The
    sums and differences are those of the program's numbers, for every
    number [p].  This is the specification's scoring rule, the two recompute
    loops compute the same number, and nothing clamps it: both formulas can
    go negative. *)
Theorem C5_scoring_rule (p : number) :
  post_newPoints "rated" "Win" p None = p + 7
  /\ post_newPoints "rated" "Loss" p None = p - 7
  /\ post_newPoints "dc" "Win" p None = p + 1
  /\ ((15 <=? p) = true -> post_newPoints "dc" "Loss" p None = p - 1)
  /\ ((p <? 15) = true -> post_newPoints "dc" "Loss" p None = p - 0.5)
  /\ (forall r f,
        post_newPoints (formula_name f) (result_name r) p None
        = scoring_rule p r f)
  /\ (forall formula prevMatch cur,
        customPointsAfter cur = None -> pointsAfter prevMatch = p ->
        pointsAfter <$> put_recalc_step formula 1 [prevMatch; cur] !! 1%nat
        = Some (post_newPoints formula (result cur) p None))
  /\ (forall formula cur,
        customPointsAfter cur = None ->
        pointsAfter <$> delete_recalc_step formula p 0 [cur] !! 0%nat
        = Some (post_newPoints formula (result cur) p None))
  /\ (post_newPoints "rated" "Loss" 0 None <? 0) = true
  /\ (post_newPoints "dc" "Loss" 0 None <? 0) = true.
Proof.
  repeat split; try done.
  - intros H. unfold post_newPoints. simpl.
    destruct (fle_not_nan _ _ H) as [_ Hp].
    by rewrite (flt_fle p 15 Hp eq_refl), H.
  - intros H. unfold post_newPoints. simpl. by rewrite H.
  - intros [] []; unfold post_newPoints; simpl; try done.
    apply dc_loss_threshold.
  - intros formula prevMatch cur Hc <-.
    rewrite (put_recalc_step_elem formula 0 [prevMatch; cur] prevMatch cur)
      by done.
    simpl. unfold recalc_elem. by rewrite Hc.
  - intros formula cur Hc.
    rewrite (delete_recalc_step_elem formula p p 0 [cur] cur) by done.
    simpl. unfold recalc_elem. by rewrite Hc.
Qed.

Lemma C5_scoring_rule_witness :
  (15 <=? 15) = true /\ post_newPoints "dc" "Loss" 15 None = 15 - 1
  /\ (10 <? 15) = true /\ post_newPoints "dc" "Loss" 10 None = 10 - 0.5.
Proof.
  assert (H15 : (15 <=? 15) = true) by (vm_compute; reflexivity).
  assert (H10 : (10 <? 15) = true) by (vm_compute; reflexivity).
  exact (conj H15
          (conj (proj1 (proj2 (proj2 (proj2 (C5_scoring_rule 15)))) H15)
            (conj H10
              (proj1 (proj2 (proj2 (proj2 (proj2 (C5_scoring_rule 10)))))
                     H10)))).
Defined.

Lemma lookup_middle_ne (l1 l2 : list Match) (x y : Match) (j : nat) :
  j <> length l1 -> (l1 ++ x :: l2) !! j = (l1 ++ y :: l2) !! j.
Proof.
  intros Hne. destruct (decide (j < length l1)%nat) as [Hlt|Hge].
  - by rewrite !lookup_app_l.
  - rewrite !lookup_app_r by lia.
    destruct (j - length l1)%nat eqn:E; [lia | done].
Qed.

(** C6. An edit whose payload carries no [customPointsAfter] runs no forward
    recompute, even when it changes [result]: in every session of the
    collection the [pointsBefore] and [pointsAfter] of every match, the
    edited one included, are as before, and every match other than the
    located one is unchanged altogether. *)
Theorem C6_edit_without_override_frame (st : Store) (reqUser sid matchId : N)
        (body : MatchBody) (sid0 : N) (s : Session) :
  b_customPointsAfter body = None -> st !! sid0 = Some s ->
  exists s',
    store (put_match reqUser sid matchId body st) !! sid0 = Some s'
    /\ length (matches s') = length (matches s)
    /\ map points_of (matches s') = map points_of (matches s)
    /\ (forall j mj,
          matches s !! j = Some mj ->
          (sid0 = sid -> findIndex matchId (matches s) <> Some j) ->
          matches s' !! j = Some mj).
Proof.
  intros Hn Hs.
  destruct (put_match_outcome reqUser sid matchId body st)
    as [[_ He] | (s1 & l1 & m & l2 & Hs1 & _ & Hms & Hk & _ & He)];
    rewrite He; [by exists s|].
  simpl. destruct (decide (sid = sid0)) as [<-|Hne].
  - rewrite lookup_insert_eq. rewrite Hs in Hs1. injection Hs1 as <-.
    exists (after_put body s l1 l2 m). unfold after_put. simpl.
    rewrite Hn, Hms. split; [done|]. split; [by rewrite !length_app|].
    split.
    + rewrite !map_app. simpl. unfold points_of at 2 4.
      by rewrite put_target_pointsBefore, put_target_pointsAfter, Hn.
    + intros j mj Hj Hne. rewrite Hms in Hk.
      assert (j <> length l1) by (intros ->; by apply Hne).
      rewrite <- Hj. by apply lookup_middle_ne.
  - rewrite lookup_insert_ne by done. by exists s.
Qed.

Lemma C6_edit_without_override_frame_witness :
  ex_store !! 1%N = Some ex_session /\
  exists s',
    store (put_match 7 1 11 (mkMatchBody None None (Some "Win"%string) None None)
                     ex_store) !! 1%N = Some s'
    /\ length (matches s') = 3%nat
    /\ map points_of (matches s') = [(1500, 1507); (1507, 1500); (1500, 1507)]
    /\ (forall j mj,
          matches ex_session !! j = Some mj ->
          (1%N = 1%N -> findIndex 11 (matches ex_session) <> Some j) ->
          matches s' !! j = Some mj).
Proof.
  assert (Hs : ex_store !! 1%N = Some ex_session)
    by (vm_compute; reflexivity).
  exact (conj Hs
           (C6_edit_without_override_frame ex_store 7 1 11
              (mkMatchBody None None (Some "Win"%string) None None)
              1 ex_session eq_refl Hs)).
Defined.

(** ** Failures *)









(** ** Idempotence of the recompute *)

Lemma recalc_elem_idem (formula : string) (p : number) (m : Match) :
  recalc_elem formula p (recalc_elem formula p m) = recalc_elem formula p m.
Proof.
  unfold recalc_elem. destruct (customPointsAfter m) eqn:E; simpl; by rewrite E.
Qed.

Lemma rechain_idem (formula : string) (p : number) (ms : list Match) :
  rechain (recalc_elem formula) p (rechain (recalc_elem formula) p ms)
  = rechain (recalc_elem formula) p ms.
Proof.
  revert p. induction ms as [|a ms IH]; intros p; simpl; [done|].
  by rewrite recalc_elem_idem, IH.
Qed.

Lemma delete_recalc_idem (formula : string) (start0 : number) (k : nat)
      (ms : list Match) :
  delete_recalc formula start0 k (delete_recalc formula start0 k ms)
  = delete_recalc formula start0 k ms.
Proof.
  destruct (decide (k <= length ms)%nat) as [Hle|Hgt].
  - assert (exists l1 l2, ms = l1 ++ l2 /\ length l1 = k)
      as (l1 & l2 & -> & <-).
    { exists (take k ms), (drop k ms).
      split; [by rewrite take_drop | rewrite length_take; lia]. }
    rewrite !delete_recalc_split. by rewrite rechain_idem.
  - unfold delete_recalc.
    replace (length ms - k)%nat with 0%nat by lia. simpl.
    by replace (length ms - k)%nat with 0%nat by lia.
Qed.

Lemma put_recalc_idem (formula : string) (j : nat) (ms : list Match) :
  put_recalc formula (S j) (put_recalc formula (S j) ms)
  = put_recalc formula (S j) ms.
Proof.
  destruct (ms !! j) as [m|] eqn:Hj.
  - assert (exists l1 l2, ms = l1 ++ m :: l2 /\ length l1 = j)
      as (l1 & l2 & -> & <-).
    { exists (take j ms), (drop (S j) ms). by apply lookup_split. }
    rewrite !put_recalc_split. by rewrite rechain_idem.
  - apply lookup_ge_None in Hj. unfold put_recalc.
    replace (length ms - S j)%nat with 0%nat by lia. simpl.
    by replace (length ms - S j)%nat with 0%nat by lia.
Qed.

Lemma forward_recompute_idem (formula : string) (p : number) (ms : list Match) :
  forward_recompute formula p (forward_recompute formula p ms)
  = forward_recompute formula p ms.
Proof.
  revert p. induction ms as [|a ms IH]; intros p; simpl; [done|].
  by rewrite IH.
Qed.

(** C8. Running either recompute loop a second time, from the same starting
    index and on the sequence the first run produced, changes nothing: the
    delete loop (from any index [k], prior points read from the sequence or
    [pointsStart]) and the edit loop (from any index [j + 1], prior points
    read from match [j]) are idempotent, so every [pointsBefore] and
    [pointsAfter] is the one of the first run; so is the specification's
    forward recompute. *)
Theorem C8_idempotent_recompute (formula : string) (start0 : number) (k : nat)
        (ms : list Match) :
  delete_recalc formula start0 k (delete_recalc formula start0 k ms)
  = delete_recalc formula start0 k ms
  /\ put_recalc formula (S k) (put_recalc formula (S k) ms)
     = put_recalc formula (S k) ms
  /\ map points_of
         (delete_recalc formula start0 k (delete_recalc formula start0 k ms))
     = map points_of (delete_recalc formula start0 k ms)
  /\ map points_of
         (put_recalc formula (S k) (put_recalc formula (S k) ms))
     = map points_of (put_recalc formula (S k) ms)
  /\ forward_recompute formula start0 (forward_recompute formula start0 ms)
     = forward_recompute formula start0 ms.
Proof.
  rewrite delete_recalc_idem, put_recalc_idem, forward_recompute_idem. done.
Qed.

(** ** Aggregates *)

Lemma filter_length_count (P : Match -> bool) (ms : list Match) :
  length (List.filter P ms) = count_matches P ms.
Proof.
  induction ms as [|a ms IH]; simpl; [done|].
  destruct (P a); simpl; by rewrite IH.
Qed.

Lemma filter_filter_count (P R : Match -> bool) (ms : list Match) :
  length (List.filter R (List.filter P ms))
  = count_matches (fun m => P m && R m) ms.
Proof.
  induction ms as [|a ms IH]; simpl; [done|].
  destruct (P a); simpl; [|done]. destruct (R a); simpl; by rewrite IH.
Qed.

Lemma rate_spec_code (w t : nat) :
  (if (0 <? t)%nat then Math_round (num w / num t * 1000) / 10 else 0)
  = rate_spec w t.
Proof. by destruct t. Qed.

Lemma rate_spec_zero (w : nat) : rate_spec w 0 = 0.
Proof. done. Qed.

Lemma currentPoints_last (s : Session) :
  currentPoints (stats s)
  = match last (matches s) with
    | Some lastMatch => pointsAfter lastMatch
    | None => pointsStart s
    end.
Proof.
  unfold stats. simpl. rewrite last_lookup.
  destruct (matches s) as [|a ms]; simpl; [done|].
  rewrite Nat.sub_0_r.
  destruct (lookup_lt_is_Some_2 (a :: ms) (length ms)) as [x Hx];
    [simpl; lia|].
  by rewrite Hx.
Qed.

Lemma peakPoints_is_peak (s : Session) : is_peak s (peakPoints (stats s)).
Proof.
  unfold is_peak, stats. cbn [peakPoints].
  set (args := map pointsAfter (matches s) ++ [pointsStart s]).
  split; [|split].
  - apply Math_max_ge. apply in_or_app. right. by left.
  - intros m Hin. apply Math_max_ge. apply in_or_app. left. by apply in_map.
  - assert (Hne : exists x xs, args = x :: xs).
    { unfold args. destruct (map pointsAfter (matches s)); by eauto. }
    destruct Hne as (x & xs & Hargs).
    pose proof (Math_max_attained x xs) as H. rewrite <- Hargs in H.
    apply in_app_or in H as [H | [H | []]]; [|by left].
    apply in_map_iff in H as (m & Hm & Hin). right. by exists m.
Qed.

Lemma validate_session_points (s : Session) (m : Match) :
  validate_session s = true -> In m (matches s) ->
  is_nan (pointsAfter m) = false.
Proof.
  intros Hv Hin. apply validate_session_matches in Hv.
  rewrite forallb_forall in Hv. by apply (validate_match_points m), Hv.
Qed.

Lemma peakPoints_not_nan (s : Session) :
  validate_session s = true -> is_nan (peakPoints (stats s)) = false.
Proof.
  intros Hv. destruct (peakPoints_is_peak s) as (_ & _ & [-> | (m & Hin & ->)]).
  - by apply validate_session_start.
  - by apply (validate_session_points s).
Qed.

(** C9. The derived statistics of a session: the win rate is 0 without
    matches and otherwise [round(wins/total * 1000) / 10], in the arithmetic
    of the program's numbers; the going-1st and going-2nd win rates are the
    same over the matches with that turn value, and 0 when there are none;
    the current points are the last match's [pointsAfter], or [pointsStart]
    without matches; the peak points are the maximum of [pointsStart] and
    every [pointsAfter]: one of these values, with none of them above it;
    one win out of three matches gives 33.3, and 201 wins out of 400 give
    50.2, the product 502.49999999999994 being below the half. *)
Theorem C9_session_stats (s : Session) :
  total (stats s) = length (matches s)
  /\ wins (stats s) = count_matches isWin (matches s)
  /\ winRate (stats s)
     = rate_spec (count_matches isWin (matches s)) (length (matches s))
  /\ winRate1st (stats s)
     = rate_spec (count_matches (fun m => is1st m && isWin m) (matches s))
                 (count_matches is1st (matches s))
  /\ winRate2nd (stats s)
     = rate_spec (count_matches (fun m => is2nd m && isWin m) (matches s))
                 (count_matches is2nd (matches s))
  /\ (matches s = [] -> winRate (stats s) = 0)
  /\ (count_matches is1st (matches s) = 0%nat -> winRate1st (stats s) = 0)
  /\ (count_matches is2nd (matches s) = 0%nat -> winRate2nd (stats s) = 0)
  /\ currentPoints (stats s)
     = match last (matches s) with
       | Some lastMatch => pointsAfter lastMatch
       | None => pointsStart s
       end
  /\ is_peak s (peakPoints (stats s))
  /\ (validate_session s = true ->
      (pointsStart s <=? peakPoints (stats s)) = true
      /\ forall m, In m (matches s) ->
                   (pointsAfter m <=? peakPoints (stats s)) = true)
  /\ (length (matches s) = 3%nat -> count_matches isWin (matches s) = 1%nat ->
      winRate (stats s) = 33.3)
  /\ (length (matches s) = 400%nat ->
      count_matches isWin (matches s) = 201%nat ->
      winRate (stats s) = 50.2).
Proof.
  assert (H0 : winRate (stats s)
               = rate_spec (count_matches isWin (matches s))
                           (length (matches s))).
  { unfold stats. cbn [winRate]. rewrite filter_length_count.
    apply rate_spec_code. }
  assert (H1 : winRate1st (stats s)
               = rate_spec
                   (count_matches (fun m => is1st m && isWin m) (matches s))
                   (count_matches is1st (matches s))).
  { unfold stats. cbn [winRate1st].
    rewrite filter_filter_count, filter_length_count. apply rate_spec_code. }
  assert (H2 : winRate2nd (stats s)
               = rate_spec
                   (count_matches (fun m => is2nd m && isWin m) (matches s))
                   (count_matches is2nd (matches s))).
  { unfold stats. cbn [winRate2nd].
    rewrite filter_filter_count, filter_length_count. apply rate_spec_code. }
  split; [done|]. split; [apply filter_length_count|].
  split; [exact H0|]. split; [exact H1|]. split; [exact H2|].
  split; [by intros E; rewrite H0, E|].
  split; [by intros E; rewrite H1, E|].
  split; [by intros E; rewrite H2, E|].
  split; [apply currentPoints_last|].
  split; [apply peakPoints_is_peak|].
  split.
  - intros Hv. destruct (peakPoints_is_peak s) as (Hs & Hall & _).
    pose proof (peakPoints_not_nan s Hv) as Hp.
    split.
    + apply not_above_fle; [by apply validate_session_start | done | done].
    + intros m Hin. apply not_above_fle;
        [by apply (validate_session_points s) | done | by apply Hall].
  - split; intros H3 H1'; rewrite H0, H3, H1'; vm_compute; reflexivity.
Qed.

Lemma C9_session_stats_witness :
  length (matches ex_session_1of3) = 3%nat
  /\ count_matches isWin (matches ex_session_1of3) = 1%nat
  /\ winRate (stats ex_session_1of3) = 33.3
  /\ validate_session ex_session_1of3 = true
  /\ (pointsStart ex_session_1of3 <=? peakPoints (stats ex_session_1of3))
     = true.
Proof.
  assert (Hv : validate_session ex_session_1of3 = true)
    by (vm_compute; reflexivity).
  pose proof (C9_session_stats ex_session_1of3) as H.
  exact (conj eq_refl
          (conj eq_refl
            (conj (proj1 (proj2 (proj2 (proj2 (proj2 (proj2 (proj2 (proj2
                     (proj2 (proj2 (proj2 (proj2 H))))))))))) eq_refl eq_refl)
              (conj Hv
                 (proj1 (proj1 (proj2 (proj2 (proj2 (proj2 (proj2 (proj2
                    (proj2 (proj2 (proj2 (proj2 H)))))))))) Hv)))))).
Defined.

(** ** Overrides stay *)

Lemma kept_refl (l : list Match) : Forall2 kept l l.
Proof. induction l; constructor; [by split | done]. Qed.

Lemma kept_rechain (formula : string) (p : number) (l : list Match) :
  Forall2 kept l (rechain (recalc_elem formula) p l).
Proof.
  revert p. induction l as [|a l IH]; intros p; simpl; constructor; [|done].
  split; [apply recalc_elem_id | by rewrite recalc_elem_custom].
Qed.

Lemma kept_put_target (body : MatchBody) (m : Match) :
  kept m (put_target body m).
Proof.
  split; [apply put_target_id|]. rewrite put_target_custom.
  by destruct (b_customPointsAfter body).
Qed.

Lemma overrides_kept_Forall2 (s s' : Session) (extra : list Match) :
  (exists front, matches s' = front ++ extra /\ Forall2 kept (matches s) front) ->
  overrides_kept s s'.
Proof.
  intros (front & Hm & HF) j m Hj Hc.
  destruct (Forall2_lookup_l _ _ _ _ _ HF Hj) as (m' & Hj' & Hid & Hk).
  exists m'. rewrite Hm. split; [by apply lookup_app_l_Some|]. by auto.
Qed.

Lemma overrides_kept_refl (s : Session) : overrides_kept s s.
Proof.
  apply (overrides_kept_Forall2 s s []). exists (matches s).
  split; [by rewrite app_nil_r | apply kept_refl].
Qed.

Lemma overrides_kept_after_put (body : MatchBody) (s : Session)
      (l1 l2 : list Match) (m : Match) :
  matches s = l1 ++ m :: l2 -> overrides_kept s (after_put body s l1 l2 m).
Proof.
  intros Hms. apply (overrides_kept_Forall2 _ _ []). eexists.
  split; [by rewrite app_nil_r|]. rewrite Hms. simpl.
  apply Forall2_app; [apply kept_refl|].
  constructor; [apply kept_put_target|].
  destruct (b_customPointsAfter body); [apply kept_rechain | apply kept_refl].
Qed.

(** C10. An override cannot be removed by an edit.  In a reachable
    collection: every stored match that carries an override has it as its
    [pointsAfter]; an edit whose payload omits [customPointsAfter] leaves the
    [customPointsAfter] of every match of every session as it was; after any
    request other than deleting a match or clearing the session, each match
    that carried an override is still there, at its index, with an override;
    and deleting a match leaves the other matches' overrides as they were. *)
Theorem C10_override_irremovable (st : Store) (sid : N) (s : Session) :
  reachable st -> st !! sid = Some s ->
  (forall j m c, matches s !! j = Some m -> customPointsAfter m = Some c ->
                 pointsAfter m = c)
  /\ (forall reqUser sid1 matchId body,
        b_customPointsAfter body = None ->
        exists s',
          store (put_match reqUser sid1 matchId body st) !! sid = Some s'
          /\ map customPointsAfter (matches s')
             = map customPointsAfter (matches s))
  /\ (forall r,
        match r with
        | DeleteMatch _ _ _ | ClearMatches _ _ => False
        | _ => True
        end ->
        exists s', store (handle r st) !! sid = Some s' /\ overrides_kept s s')
  /\ (forall reqUser matchId k,
        findIndex matchId (matches s) = Some k ->
        exists s',
          store (delete_match reqUser sid matchId st) !! sid = Some s'
          /\ (matches s' = matches s
              \/ (map _id (matches s') = map _id (delete k (matches s))
                  /\ map customPointsAfter (matches s')
                     = map customPointsAfter (delete k (matches s))))).
Proof.
  intros Hr Hs. destruct (reachable_wf st Hr sid s Hs) as [Hv Hc Ho Hi].
  split; [|split; [|split]].
  - intros j m c Hj Hcu. rewrite Forall_lookup in Ho. by apply (Ho j m Hj c).
  - intros u sid1 mid body Hn.
    destruct (put_match_outcome u sid1 mid body st)
      as [[_ He] | (s1 & l1 & m & l2 & Hs1 & _ & Hms & _ & _ & He)];
      rewrite He; [by exists s|].
    simpl. destruct (decide (sid1 = sid)) as [->|Hne].
    + rewrite lookup_insert_eq. rewrite Hs in Hs1. injection Hs1 as <-.
      eexists. split; [done|]. unfold after_put. simpl.
      rewrite Hn, Hms, !map_app. simpl. by rewrite put_target_custom, Hn.
    + rewrite lookup_insert_ne by done. by exists s.
  - intros [newId u body | newId u sid1 body | u sid1 mid body
           | u sid1 mid | u sid1] Hreq; try done; simpl.
    + destruct (create_session_outcome newId u body st)
        as [[_ He] | (doc & Hnone & _ & _ & He)]; rewrite He.
      * exists s. split; [done | apply overrides_kept_refl].
      * exists s. split; [|apply overrides_kept_refl].
        rewrite lookup_insert_ne; [done|]. intros ->. congruence.
    + destruct (post_match_outcome newId u sid1 body st)
        as [[_ He] | (s1 & Hs1 & _ & _ & He)]; rewrite He.
      * exists s. split; [done | apply overrides_kept_refl].
      * simpl. destruct (decide (sid1 = sid)) as [->|Hne].
        -- rewrite lookup_insert_eq. rewrite Hs in Hs1. injection Hs1 as <-.
           eexists. split; [done|].
           apply (overrides_kept_Forall2 _ _ [appended newId body s]).
           exists (matches s). split; [done | apply kept_refl].
        -- rewrite lookup_insert_ne by done.
           exists s. split; [done | apply overrides_kept_refl].
    + destruct (put_match_outcome u sid1 mid body st)
        as [[_ He] | (s1 & l1 & m & l2 & Hs1 & _ & Hms & _ & _ & He)];
        rewrite He.
      * exists s. split; [done | apply overrides_kept_refl].
      * simpl. destruct (decide (sid1 = sid)) as [->|Hne].
        -- rewrite lookup_insert_eq. rewrite Hs in Hs1. injection Hs1 as <-.
           eexists. split; [done|]. by apply overrides_kept_after_put.
        -- rewrite lookup_insert_ne by done.
           exists s. split; [done | apply overrides_kept_refl].
  - intros u mid k Hk.
    destruct (delete_match_outcome u sid mid st)
      as [[_ He] | (s1 & l1 & m & l2 & Hs1 & _ & Hms & Hk1 & _ & He)];
      rewrite He; [exists s; by auto|].
    simpl. rewrite lookup_insert_eq. rewrite Hs in Hs1. injection Hs1 as <-.
    rewrite Hk in Hk1. injection Hk1 as ->.
    eexists. split; [done|]. right. unfold after_delete. simpl.
    rewrite Hms, delete_middle, !map_app.
    by rewrite rechain_ids, rechain_customs.
Qed.

Lemma C10_override_irremovable_witness :
  reachable (run ex_pinned ∅)
  /\ run ex_pinned ∅ !! 1%N = Some ex_pinned_session
  /\ (forall j m c,
        matches ex_pinned_session !! j = Some m ->
        customPointsAfter m = Some c -> pointsAfter m = c).
Proof.
  assert (Hr : reachable (run ex_pinned ∅))
    by (apply reachable_run; [constructor | vm_compute; reflexivity]).
  assert (Hs : run ex_pinned ∅ !! 1%N = Some ex_pinned_session)
    by (vm_compute; reflexivity).
  exact (conj Hr (conj Hs
           (proj1 (C10_override_irremovable (run ex_pinned ∅) 1%N
                     ex_pinned_session Hr Hs)))).
Defined.

(** * Further properties of the match routes *)

(** ** Ownership and frames *)





(** X2. No request removes a session or changes its owner, name, formula or
    starting points, and a request leaves every session it does not address
    exactly as it was. *)
Theorem request_frame (r : Request) (st : Store) (sid : N) (s : Session) :
  st !! sid = Some s ->
  exists s',
    store (handle r st) !! sid = Some s'
    /\ user s' = user s /\ name s' = name s
    /\ pointsFormula s' = pointsFormula s /\ pointsStart s' = pointsStart s
    /\ (request_session r <> Some sid -> s' = s).
Proof.
  intros Hs.
  destruct r as [newId u body | newId u sid1 body | u sid1 mid body
                | u sid1 mid | u sid1]; simpl.
  - destruct (create_session_outcome newId u body st)
      as [[_ He] | (doc & Hnone & _ & _ & He)]; rewrite He.
    + exists s. by auto 10.
    + exists s. rewrite lookup_insert_ne; [by auto 10|]. intros ->. congruence.
  - destruct (post_match_outcome newId u sid1 body st)
      as [[_ He] | (s1 & Hs1 & _ & _ & He)]; rewrite He;
      [exists s; by auto 10|].
    simpl. destruct (decide (sid1 = sid)) as [->|Hne].
    + rewrite lookup_insert_eq. rewrite Hs in Hs1. injection Hs1 as <-.
      eexists. split; [done|]. simpl. by repeat split.
    + rewrite lookup_insert_ne by done. exists s. by auto 10.
  - destruct (put_match_outcome u sid1 mid body st)
      as [[_ He] | (s1 & l1 & m & l2 & Hs1 & _ & _ & _ & _ & He)];
      rewrite He; [exists s; by auto 10|].
    simpl. destruct (decide (sid1 = sid)) as [->|Hne].
    + rewrite lookup_insert_eq. rewrite Hs in Hs1. injection Hs1 as <-.
      eexists. split; [done|]. simpl. by repeat split.
    + rewrite lookup_insert_ne by done. exists s. by auto 10.
  - destruct (delete_match_outcome u sid1 mid st)
      as [[_ He] | (s1 & l1 & m & l2 & Hs1 & _ & _ & _ & _ & He)];
      rewrite He; [exists s; by auto 10|].
    simpl. destruct (decide (sid1 = sid)) as [->|Hne].
    + rewrite lookup_insert_eq. rewrite Hs in Hs1. injection Hs1 as <-.
      eexists. split; [done|]. simpl. by repeat split.
    + rewrite lookup_insert_ne by done. exists s. by auto 10.
  - destruct (clear_matches_outcome u sid1 st)
      as [[_ He] | (s1 & Hs1 & _ & _ & He)]; rewrite He;
      [exists s; by auto 10|].
    simpl. destruct (decide (sid1 = sid)) as [->|Hne].
    + rewrite lookup_insert_eq. rewrite Hs in Hs1. injection Hs1 as <-.
      eexists. split; [done|]. simpl. by repeat split.
    + rewrite lookup_insert_ne by done. exists s. by auto 10.
Qed.

Lemma request_frame_witness :
  ex_store !! 1%N = Some ex_session /\
  exists s',
    store (handle (ClearMatches 7 1) ex_store) !! 1%N = Some s'
    /\ user s' = 7%N /\ name s' = "Ladder"%string
    /\ pointsFormula s' = "rated"%string /\ pointsStart s' = 1500
    /\ (request_session (ClearMatches 7 1) <> Some 1%N -> s' = ex_session).
Proof.
  assert (Hs : ex_store !! 1%N = Some ex_session)
    by (vm_compute; reflexivity).
  exact (conj Hs (request_frame (ClearMatches 7 1) ex_store 1 ex_session Hs)).
Defined.

(** ** Appending and then deleting restores the ledger *)

Lemma set_matches_same (s : Session) (ms : list Match) :
  ms = matches s -> set_matches ms s = s.
Proof. intros ->. by destruct s. Qed.

(** X3. Deleting the match that was just appended succeeds and restores the
    session's ledger: the match sequence is the one from before the append,
    so no earlier match is renumbered or re-scored; owner, name, formula and
    starting points are as before, and so is every other session. *)
Theorem append_then_delete (st : Store) (newId sid : N) (s : Session)
        (body : MatchBody) :
  reachable st -> st !! sid = Some s ->
  fresh_id newId (matches s) = true -> post_body_ok body = true ->
  exists s',
    status (response (post_match newId (user s) sid body st)) = 201%nat
    /\ status (response
                 (delete_match (user s) sid newId
                    (store (post_match newId (user s) sid body st))))
       = 200%nat
    /\ store (delete_match (user s) sid newId
                (store (post_match newId (user s) sid body st))) !! sid
       = Some s'
    /\ matches s' = matches s
    /\ user s' = user s /\ name s' = name s
    /\ pointsFormula s' = pointsFormula s /\ pointsStart s' = pointsStart s
    /\ (forall sid', sid' <> sid ->
          store (delete_match (user s) sid newId
                   (store (post_match newId (user s) sid body st))) !! sid'
          = st !! sid').
Proof.
  intros Hr Hs Hf Hb.
  pose proof (reachable_wf st Hr sid s Hs) as Hwf.
  pose proof (wf_valid s Hwf) as Hv.
  pose proof (post_match_ok newId (user s) sid body st s Hs eq_refl Hv Hb)
    as Hp.
  rewrite Hp. simpl.
  assert (Hwf' : wf_session (after_post newId body s)).
  { apply wf_after_post; [done..|]. by apply validate_after_post. }
  destruct Hwf' as [Hv' _ _ Hi'].
  pose proof (delete_match_ok (user s) sid
                (<[sid := after_post newId body s]> st)
                (after_post newId body s) (matches s) []
                (appended newId body s)
                (lookup_insert_eq _ _ _) eq_refl eq_refl Hi' Hv') as Hd.
  simpl in Hd. rewrite Hd. simpl.
  exists (after_delete (after_post newId body s) (matches s) []).
  split; [done|]. split; [done|].
  split; [by rewrite lookup_insert_eq|].
  split; [simpl; by rewrite app_nil_r|].
  repeat (split; [done|]).
  intros sid' Hne. by rewrite !lookup_insert_ne.
Qed.

Lemma append_then_delete_witness :
  reachable ex_store /\ ex_store !! 1%N = Some ex_session
  /\ exists s',
      store (delete_match 7 1 13
               (store (post_match 13 7 1 (ex_body "Loss") ex_store))) !! 1%N
      = Some s'
      /\ matches s' = matches ex_session.
Proof.
  assert (Hr : reachable ex_store)
    by (apply reachable_run; [constructor | vm_compute; reflexivity]).
  assert (Hs : ex_store !! 1%N = Some ex_session)
    by (vm_compute; reflexivity).
  destruct (append_then_delete ex_store 13 1 ex_session (ex_body "Loss")
              Hr Hs eq_refl eq_refl) as (s' & _ & _ & Hl & Hm & _).
  exact (conj Hr (conj Hs (ex_intro _ s' (conj Hl Hm)))).
Defined.

(** ** A recompute only moves points *)

Lemma recalc_elem_descr (formula : string) (p : number) (m : Match) :
  descr (recalc_elem formula p m) = descr m.
Proof.
  unfold recalc_elem, descr.
  destruct (customPointsAfter m) eqn:E; simpl; by rewrite E.
Qed.

Lemma rechain_descr (formula : string) (p : number) (ms : list Match) :
  map descr (rechain (recalc_elem formula) p ms) = map descr ms.
Proof.
  revert p. induction ms as [|a ms IH]; intros p; simpl; [done|].
  by rewrite recalc_elem_descr, IH.
Qed.

(** X4. The recompute that follows an edit or a delete rewrites nothing but
    [pointsBefore] and [pointsAfter]: after a delete the remaining matches
    keep their id, decks, result, turn and override, in order; after an edit
    every match other than the located one does. *)
Theorem recompute_moves_points_only (st : Store) (reqUser sid matchId : N)
        (s : Session) (k : nat) :
  st !! sid = Some s -> findIndex matchId (matches s) = Some k ->
  (exists s',
      store (delete_match reqUser sid matchId st) !! sid = Some s'
      /\ (s' = s \/ map descr (matches s') = map descr (delete k (matches s))))
  /\ (forall body,
        exists s',
          store (put_match reqUser sid matchId body st) !! sid = Some s'
          /\ length (matches s') = length (matches s)
          /\ (forall j m, matches s !! j = Some m -> j <> k ->
                exists m', matches s' !! j = Some m' /\ descr m' = descr m)).
Proof.
  intros Hs Hk. split.
  - destruct (delete_match_outcome reqUser sid matchId st)
      as [[_ He] | (s1 & l1 & m & l2 & Hs1 & _ & Hms & Hk1 & _ & He)];
      rewrite He; [exists s; by auto|].
    simpl. rewrite lookup_insert_eq. rewrite Hs in Hs1. injection Hs1 as <-.
    rewrite Hk in Hk1. injection Hk1 as ->.
    eexists. split; [done|]. right. unfold after_delete. simpl.
    by rewrite Hms, delete_middle, !map_app, rechain_descr.
  - intros body.
    destruct (put_match_outcome reqUser sid matchId body st)
      as [[_ He] | (s1 & l1 & m & l2 & Hs1 & _ & Hms & Hk1 & _ & He)];
      rewrite He; [exists s; by eauto|].
    simpl. rewrite lookup_insert_eq. rewrite Hs in Hs1. injection Hs1 as <-.
    rewrite Hk in Hk1. injection Hk1 as ->.
    eexists. split; [done|]. unfold after_put. simpl. split.
    + rewrite Hms, !length_app. simpl.
      destruct (b_customPointsAfter body); by rewrite ?rechain_length.
    + intros j mj Hj Hne. rewrite Hms in Hj.
      assert (Hd : map descr
                     (l1 ++ put_target body m
                         :: match b_customPointsAfter body with
                            | Some c => rechain (recalc_elem (pointsFormula s)) c l2
                            | None => l2
                            end) !! j
                   = map descr (l1 ++ m :: l2) !! j).
      { rewrite !map_app. simpl.
        replace (map descr match b_customPointsAfter body with
                           | Some c => rechain (recalc_elem (pointsFormula s)) c l2
                           | None => l2
                           end) with (map descr l2)
          by (destruct (b_customPointsAfter body); by rewrite ?rechain_descr).
        destruct (decide (j < length l1)%nat) as [Hlt|Hge].
        - by rewrite !lookup_app_l by (by rewrite length_map).
        - rewrite !lookup_app_r by (rewrite length_map; lia).
          rewrite length_map.
          destruct (j - length l1)%nat eqn:E; [lia | done]. }
      rewrite !list_lookup_fmap, Hj in Hd. simpl in Hd.
      match type of Hd with
      | descr <$> ?x = _ => destruct x as [m'|] eqn:Hm'; [|done]
      end.
      simpl in Hd. exists m'. split; [reflexivity | congruence].
Qed.

Lemma recompute_moves_points_only_witness :
  ex_store !! 1%N = Some ex_session
  /\ findIndex 10 (matches ex_session) = Some 0%nat
  /\ exists s',
      store (delete_match 7 1 10 ex_store) !! 1%N = Some s'
      /\ (s' = ex_session
          \/ map descr (matches s')
             = map descr (delete 0%nat (matches ex_session))).
Proof.
  assert (Hs : ex_store !! 1%N = Some ex_session)
    by (vm_compute; reflexivity).
  exact (conj Hs (conj eq_refl
           (proj1 (recompute_moves_points_only ex_store 7 1 10 ex_session 0
                     Hs eq_refl)))).
Defined.

(** ** What a success response carries *)

(** X5. Whenever a request succeeds, the status is 200 or 201 and the session
    in the response is the document the handler holds and the one now stored
    under some id, and it passes the schema. *)
Theorem success_returns_stored (r : Request) (st : Store) :
  success (response (handle r st)) = true ->
  (status (response (handle r st)) = 200%nat
   \/ status (response (handle r st)) = 201%nat)
  /\ exists sid s',
      resSession (response (handle r st)) = Some s'
      /\ document (handle r st) = Some s'
      /\ store (handle r st) !! sid = Some s'
      /\ validate_session s' = true
      /\ user s' = request_user r.
Proof.
  destruct r as [newId u body | newId u sid body | u sid mid body
                | u sid mid | u sid]; simpl.
  - unfold create_session.
    destruct (negb (truthy (b_name body))); [done|].
    destruct (st !! newId); [done|].
    cbv zeta. unfold save.
    match goal with
    | |- context [validate_session ?d] =>
        destruct (validate_session d) eqn:Hv; [|done]
    end.
    simpl. intros _. split; [by right|].
    eexists newId, _. by rewrite lookup_insert_eq.
  - destruct (post_match_outcome newId u sid body st)
      as [[Hf _] | (s & Hs & Hu & Hv & He)]; [congruence|].
    rewrite He. simpl. intros _. split; [by right|].
    exists sid. eexists. by rewrite lookup_insert_eq.
  - destruct (put_match_outcome u sid mid body st)
      as [[Hf _] | (s & l1 & m & l2 & Hs & Hu & _ & _ & Hv & He)];
      [congruence|].
    rewrite He. simpl. intros _. split; [by left|].
    exists sid. eexists. by rewrite lookup_insert_eq.
  - destruct (delete_match_outcome u sid mid st)
      as [[Hf _] | (s & l1 & m & l2 & Hs & Hu & _ & _ & Hv & He)];
      [congruence|].
    rewrite He. simpl. intros _. split; [by left|].
    exists sid. eexists. by rewrite lookup_insert_eq.
  - destruct (clear_matches_outcome u sid st)
      as [[Hf _] | (s & Hs & Hu & Hv & He)]; [congruence|].
    rewrite He. simpl. intros _. split; [by left|].
    exists sid. eexists. by rewrite lookup_insert_eq.
Qed.

Lemma success_returns_stored_witness :
  success (response (handle (AddMatch 13 7 1 (ex_body "Win")) ex_store)) = true
  /\ (status (response (handle (AddMatch 13 7 1 (ex_body "Win")) ex_store))
      = 200%nat
      \/ status (response (handle (AddMatch 13 7 1 (ex_body "Win")) ex_store))
         = 201%nat).
Proof.
  assert (H : success (response (handle (AddMatch 13 7 1 (ex_body "Win"))
                                        ex_store)) = true)
    by (vm_compute; reflexivity).
  exact (conj H (proj1 (success_returns_stored _ _ H))).
Defined.

(** ** Bounds on the statistics *)

Lemma count_matches_le_length (P : Match -> bool) (ms : list Match) :
  (count_matches P ms <= length ms)%nat.
Proof. induction ms as [|a ms IH]; simpl; [lia|]. destruct (P a); lia. Qed.

Lemma count_matches_and_le (P R : Match -> bool) (ms : list Match) :
  (count_matches (fun m => P m && R m) ms <= count_matches P ms)%nat.
Proof.
  induction ms as [|a ms IH]; simpl; [lia|].
  destruct (P a), (R a); simpl; lia.
Qed.

(** X6. The statistics of any session are well formed: wins and losses add up
    to the total, the three win rates lie between 0 and 100 (for a session of
    fewer than 2^53 matches, as every array is), and the current points are
    not above the peak, which on a session that passes the validators is the
    program's [<=]. *)
Theorem stats_bounds (s : Session) :
  (wins (stats s) + losses (stats s) = total (stats s))%nat
  /\ ((Z.of_nat (length (matches s)) < 2 ^ 53)%Z ->
      ((0 <=? winRate (stats s)) = true
       /\ (winRate (stats s) <=? 100) = true)
      /\ ((0 <=? winRate1st (stats s)) = true
          /\ (winRate1st (stats s) <=? 100) = true)
      /\ ((0 <=? winRate2nd (stats s)) = true
          /\ (winRate2nd (stats s) <=? 100) = true))
  /\ not_above (currentPoints (stats s)) (peakPoints (stats s))
  /\ (validate_session s = true ->
      (currentPoints (stats s) <=? peakPoints (stats s)) = true).
Proof.
  assert (Hcp : not_above (currentPoints (stats s)) (peakPoints (stats s))).
  { destruct (peakPoints_is_peak s) as (Hstart & Hall & _).
    rewrite currentPoints_last.
    destruct (last (matches s)) as [m|] eqn:Hl; [|done].
    apply Hall. apply list_elem_of_In. by eapply last_Some_elem_of. }
  split; [|split; [|split; [done|]]].
  - unfold stats. simpl. rewrite filter_length_count.
    pose proof (count_matches_le_length isWin (matches s)). lia.
  - intros Hlen.
    pose proof (count_matches_le_length is1st (matches s)) as H1.
    pose proof (count_matches_le_length is2nd (matches s)) as H2.
    unfold stats.
    cbn [winRate winRate1st winRate2nd].
    rewrite !filter_filter_count, !filter_length_count.
    split; [|split].
    + apply rate_field_range; [apply count_matches_le_length | done].
    + apply rate_field_range; [apply count_matches_and_le | lia].
    + apply rate_field_range; [apply count_matches_and_le | lia].
  - intros Hv. apply not_above_fle; [|by apply peakPoints_not_nan|done].
    rewrite currentPoints_last.
    destruct (last (matches s)) as [m|] eqn:Hl;
      [|by apply validate_session_start].
    apply (validate_session_points s); [done|].
    apply list_elem_of_In. by eapply last_Some_elem_of.
Qed.

Lemma stats_bounds_witness :
  (Z.of_nat (length (matches ex_session)) < 2 ^ 53)%Z
  /\ (0 <=? winRate (stats ex_session)) = true
  /\ (winRate (stats ex_session) <=? 100) = true.
Proof.
  assert (H : (Z.of_nat (length (matches ex_session)) < 2 ^ 53)%Z)
    by (vm_compute; reflexivity).
  exact (conj H (proj1 (proj1 (proj2 (stats_bounds ex_session)) H))).
Defined.

(** ** Clearing *)

Lemma clear_matches_ok (sid : N) (st : Store) (s : Session) :
  st !! sid = Some s -> validate_session s = true ->
  clear_matches (user s) sid st
  = mkOutcome
      (mkResponse 200 true "All matches cleared successfully"
                  None (Some (set_matches [] s)))
      (Some (set_matches [] s))
      (<[sid := set_matches [] s]> st).
Proof.
  intros Hs Hv. unfold clear_matches.
  rewrite (proj2 (findOne_Some sid (user s) st s) (conj Hs eq_refl)).
  cbv zeta. unfold save.
  by rewrite (validate_session_set_matches s [] Hv eq_refl).
Qed.

Lemma Math_max_single (x : number) : Math_max [x] = x.
Proof. by destruct x as [[]|[]| |[] m e]. Qed.

(** X7. Clearing a session the caller owns succeeds and takes the ledger back
    to its start: no matches, win rate 0, current and peak points equal to
    [pointsStart], and the next appended match is entered with
    [pointsStart]. *)
Theorem clear_restarts_ledger (st : Store) (sid : N) (s : Session) :
  reachable st -> st !! sid = Some s ->
  exists s',
    status (response (clear_matches (user s) sid st)) = 200%nat
    /\ store (clear_matches (user s) sid st) !! sid = Some s'
    /\ matches s' = []
    /\ total (stats s') = 0%nat
    /\ winRate (stats s') = 0
    /\ currentPoints (stats s') = pointsStart s
    /\ peakPoints (stats s') = pointsStart s
    /\ (forall newId body,
          post_body_ok body = true ->
          exists mnew,
            resMatch (response
                        (post_match newId (user s) sid body
                           (store (clear_matches (user s) sid st))))
            = Some mnew
            /\ pointsBefore mnew = pointsStart s).
Proof.
  intros Hr Hs.
  destruct (reachable_wf st Hr sid s Hs) as [Hv _ _ _].
  rewrite (clear_matches_ok sid st s Hs Hv). simpl.
  exists (set_matches [] s). rewrite lookup_insert_eq.
  repeat split; try done.
  - apply Math_max_single.
  - intros newId body Hb.
    rewrite (post_match_ok newId (user s) sid body _ (set_matches [] s)
               (lookup_insert_eq _ _ _) eq_refl
               (validate_session_set_matches s [] Hv eq_refl) Hb).
    simpl. by eexists.
Qed.

Lemma clear_restarts_ledger_witness :
  reachable ex_store /\ ex_store !! 1%N = Some ex_session /\
  exists s',
    status (response (clear_matches 7 1 ex_store)) = 200%nat
    /\ store (clear_matches 7 1 ex_store) !! 1%N = Some s'
    /\ matches s' = []
    /\ total (stats s') = 0%nat
    /\ winRate (stats s') = 0
    /\ currentPoints (stats s') = 1500
    /\ peakPoints (stats s') = 1500
    /\ (forall newId body,
          post_body_ok body = true ->
          exists mnew,
            resMatch (response
                        (post_match newId 7 1 body
                           (store (clear_matches 7 1 ex_store))))
            = Some mnew
            /\ pointsBefore mnew = 1500).
Proof.
  assert (Hr : reachable ex_store)
    by (apply reachable_run; [constructor | vm_compute; reflexivity]).
  assert (Hs : ex_store !! 1%N = Some ex_session)
    by (vm_compute; reflexivity).
  exact (conj Hr (conj Hs (clear_restarts_ledger ex_store 1 ex_session Hr Hs))).
Defined.

(** ** The derived ledger *)

Lemma derived_from_app (formula : string) (p : number) (l1 l2 : list Match) :
  derived_from formula p (l1 ++ l2)
  <-> derived_from formula p l1
      /\ derived_from formula (last_points p l1) l2.
Proof.
  revert p. induction l1 as [|a l1 IH]; intros p; simpl.
  - rewrite last_points_nil. tauto.
  - rewrite last_points_cons, IH. tauto.
Qed.

Lemma derived_from_forward (formula : string) (p : number) (ms : list Match) :
  derived_from formula p (forward_recompute formula p ms).
Proof.
  revert p. induction ms as [|a ms IH]; intros p; simpl; [done|].
  split; [done|]. split; [done | apply IH].
Qed.

Lemma derived_from_fixpoint (formula : string) (p : number) (ms : list Match) :
  derived_from formula p ms <-> forward_recompute formula p ms = ms.
Proof.
  split.
  - revert p. induction ms as [|a ms IH]; intros p; simpl; [done|].
    intros (Hb & Ha & Hr). rewrite <- Ha, (IH _ Hr), <- Hb. by destruct a.
  - intros <-. apply derived_from_forward.
Qed.

Lemma put_target_result (body : MatchBody) (m : Match) :
  truthy (b_result body) = false -> result (put_target body m) = result m.
Proof.
  intros H. unfold put_target. rewrite H.
  by destruct (truthy (b_deck body)), (truthy (b_opp body)),
    (truthy (b_turn body)), (b_customPointsAfter body).
Qed.

Lemma wf_suffix (s : Session) (l1 l2 : list Match) (m : Match) :
  wf_session s -> matches s = l1 ++ m :: l2 ->
  Forall (fun x => validate_match x = true) l2 /\ Forall override_ok l2
  /\ (pointsFormula s = "rated"%string \/ pointsFormula s = "dc"%string).
Proof.
  intros [Hv _ Ho _] Hms.
  destruct (validate_session_inv s Hv) as [Hvm Hf].
  rewrite Hms in Hvm, Ho.
  apply Forall_app in Hvm as [_ Hvm]. apply Forall_cons in Hvm as [_ Hvm].
  apply Forall_app in Ho as [_ Ho]. apply Forall_cons in Ho as [_ Ho].
  done.
Qed.

(** X8. The ledger stays fully derived: if every point value of a session
    follows from [pointsStart], the results and the overrides, it still does
    after any request, except an edit that assigns [result] without an
    override.  A session created by the request is derived too. *)
Theorem ledger_stays_derived (r : Request) (st : Store) (sid : N)
        (s' : Session) :
  reachable st -> ~ bare_result_edit r ->
  (forall s, st !! sid = Some s -> derived s) ->
  store (handle r st) !! sid = Some s' ->
  derived s'
  /\ forward_recompute (pointsFormula s') (pointsStart s') (matches s')
     = matches s'.
Proof.
  intros Hr Hbare Hd Hs'.
  cut (derived s'); [intros H; split; [done | by apply derived_from_fixpoint]|].
  assert (Hwf : forall s, st !! sid = Some s -> wf_session s)
    by (intros s; apply (reachable_wf st Hr)).
  destruct r as [newId u body | newId u sid1 body | u sid1 mid body
                | u sid1 mid | u sid1]; simpl in Hs', Hbare.
  - destruct (create_session_outcome newId u body st)
      as [[_ He] | (doc & Hnone & Hm & _ & He)]; rewrite He in Hs';
      [by apply Hd|].
    destruct (decide (newId = sid)) as [->|Hne].
    + rewrite lookup_insert_eq in Hs'. injection Hs' as <-.
      unfold derived. by rewrite Hm.
    + rewrite lookup_insert_ne in Hs' by done. by apply Hd.
  - destruct (post_match_outcome newId u sid1 body st)
      as [[_ He] | (s & Hs & _ & Hv & He)]; rewrite He in Hs';
      [by apply Hd|].
    simpl in Hs'. destruct (decide (sid1 = sid)) as [->|Hne].
    + rewrite lookup_insert_eq in Hs'. injection Hs' as <-.
      unfold derived. simpl. apply derived_from_app. split; [by apply Hd|].
      simpl. split; [done|]. split; [|done].
      destruct (b_customPointsAfter body) as [c|]; [done|].
      destruct (validate_session_inv _ Hv) as [Hvm Hf]. simpl in Hvm, Hf.
      apply Forall_app in Hvm as [_ Hvm]. apply Forall_cons in Hvm as [Hva _].
      apply post_newPoints_scoring; [|done].
      by apply (validate_match_result _ Hva).
    + rewrite lookup_insert_ne in Hs' by done. by apply Hd.
  - destruct (put_match_outcome u sid1 mid body st)
      as [[_ He] | (s & l1 & m & l2 & Hs & _ & Hms & _ & Hv & He)];
      rewrite He in Hs'; [by apply Hd|].
    simpl in Hs'. destruct (decide (sid1 = sid)) as [->|Hne].
    + rewrite lookup_insert_eq in Hs'. injection Hs' as <-.
      pose proof (Hd s Hs) as Hds. unfold derived in Hds. rewrite Hms in Hds.
      apply derived_from_app in Hds as [Hd1 (Hb & Ha & Hd2)].
      destruct (wf_suffix s l1 l2 m (Hwf s Hs) Hms) as (Hvm2 & Ho2 & Hf).
      unfold derived, after_put. simpl. apply derived_from_app.
      split; [done|]. simpl.
      rewrite put_target_pointsBefore, put_target_pointsAfter,
        put_target_custom.
      destruct (b_customPointsAfter body) as [c|] eqn:Hc; simpl.
      * split; [done|]. split; [done|].
        rewrite rechain_forward_recompute by done.
        apply derived_from_forward.
      * assert (Ht : truthy (b_result body) = false).
        { destruct (truthy (b_result body)) eqn:E; [|done].
          exfalso. by apply Hbare. }
        by rewrite (put_target_result body m Ht).
    + rewrite lookup_insert_ne in Hs' by done. by apply Hd.
  - destruct (delete_match_outcome u sid1 mid st)
      as [[_ He] | (s & l1 & m & l2 & Hs & _ & Hms & _ & Hv & He)];
      rewrite He in Hs'; [by apply Hd|].
    simpl in Hs'. destruct (decide (sid1 = sid)) as [->|Hne].
    + rewrite lookup_insert_eq in Hs'. injection Hs' as <-.
      pose proof (Hd s Hs) as Hds. unfold derived in Hds. rewrite Hms in Hds.
      apply derived_from_app in Hds as [Hd1 _].
      destruct (wf_suffix s l1 l2 m (Hwf s Hs) Hms) as (Hvm2 & Ho2 & Hf).
      unfold derived, after_delete. simpl. apply derived_from_app.
      split; [done|].
      rewrite rechain_forward_recompute by done.
      apply derived_from_forward.
    + rewrite lookup_insert_ne in Hs' by done. by apply Hd.
  - destruct (clear_matches_outcome u sid1 st)
      as [[_ He] | (s & Hs & _ & Hv & He)]; rewrite He in Hs';
      [by apply Hd|].
    simpl in Hs'. destruct (decide (sid1 = sid)) as [->|Hne].
    + rewrite lookup_insert_eq in Hs'. by injection Hs' as <-.
    + rewrite lookup_insert_ne in Hs' by done. by apply Hd.
Qed.

Lemma ex_session_derived (s : Session) :
  ex_store !! 1%N = Some s -> derived s.
Proof.
  intros H. vm_compute in H. injection H as <-.
  unfold derived. simpl. repeat split.
Qed.

Lemma ledger_stays_derived_witness :
  reachable ex_store
  /\ ~ bare_result_edit (DeleteMatch 7 1 11)
  /\ (forall s, ex_store !! 1%N = Some s -> derived s)
  /\ exists s',
      store (handle (DeleteMatch 7 1 11) ex_store) !! 1%N = Some s'
      /\ derived s'.
Proof.
  assert (Hr : reachable ex_store)
    by (apply reachable_run; [constructor | vm_compute; reflexivity]).
  assert (Hb : ~ bare_result_edit (DeleteMatch 7 1 11)) by (simpl; tauto).
  assert (Hs' : store (handle (DeleteMatch 7 1 11) ex_store) !! 1%N
                = Some (mkSession 7 "Ladder"
                          [ ex_match 10 "Win" 1500 1507;
                            ex_match 12 "Win" 1507 1514 ] "rated" 1500))
    by (vm_compute; reflexivity).
  refine (conj Hr (conj Hb (conj ex_session_derived
            (ex_intro _ _ (conj Hs' _))))).
  exact (proj1 (ledger_stays_derived (DeleteMatch 7 1 11) ex_store 1 _
                  Hr Hb ex_session_derived Hs')).
Defined.

(** * The deck routes *)

(** ** Adding and removing decks *)

Lemma decks_findOne (sid : N) (st : gmap N Decks.SessionDoc)
      (doc : Decks.SessionDoc) :
  st !! sid = Some doc ->
  Decks.findOne sid (user (Decks.session doc)) st = Some doc.
Proof. intros H. unfold Decks.findOne. by rewrite H, N.eqb_refl. Qed.

Lemma includes_elem_of (d : string) (l : list string) :
  Decks.includes d l = true <-> d ∈ l.
Proof.
  unfold Decks.includes. rewrite existsb_exists. split.
  - intros (x & Hin & Heq). apply String.eqb_eq in Heq as ->.
    by apply list_elem_of_In.
  - intros Hin. exists d. split; [by apply list_elem_of_In|].
    apply String.eqb_refl.
Qed.

Lemma filter_neq_elem_of (d x : string) (l : list string) :
  x ∈ List.filter (fun deck => negb (deck =? d)%string) l <-> x ∈ l /\ x <> d.
Proof.
  rewrite !list_elem_of_In, filter_In, negb_true_iff, String.eqb_neq. tauto.
Qed.

Lemma filter_neq_absent (d : string) (l : list string) :
  d ∉ l -> List.filter (fun deck => negb (deck =? d)%string) l = l.
Proof.
  induction l as [|a l IH]; simpl; [done|].
  intros Hn. apply not_elem_of_cons in Hn as [Hne Hn].
  destruct (a =? d)%string eqn:E; [by apply String.eqb_eq in E; subst|].
  simpl. by rewrite IH.
Qed.

Lemma map_trim_trimmed (l : list string) : Decks.trimmed l -> map trim l = l.
Proof.
  induction 1 as [|a l Ha _ IH]; simpl; [done|]. by rewrite Ha, IH.
Qed.

Lemma trimmed_filter (f : string -> bool) (l : list string) :
  Decks.trimmed l -> Decks.trimmed (List.filter f l).
Proof.
  induction 1 as [|a l Ha _ IH]; simpl; [constructor|].
  destruct (f a); [by constructor | done].
Qed.

Lemma add_deck_cases (sid : N) (st : gmap N Decks.SessionDoc)
        (doc : Decks.SessionDoc) (deckName : string) :
  st !! sid = Some doc -> validate_session (Decks.session doc) = true ->
  deckName <> EmptyString ->
  (deckName ∈ Decks.decks doc ->
   Decks.status (Decks.response
      (Decks.add_deck (user (Decks.session doc)) sid (Some deckName) st))
   = 400%nat
   /\ Decks.store
        (Decks.add_deck (user (Decks.session doc)) sid (Some deckName) st)
      = st)
  /\ (deckName ∉ Decks.decks doc ->
      Decks.status (Decks.response
         (Decks.add_deck (user (Decks.session doc)) sid (Some deckName) st))
      = 200%nat
      /\ Decks.store
           (Decks.add_deck (user (Decks.session doc)) sid (Some deckName) st)
         = <[sid := Decks.mkSessionDoc (Decks.session doc)
                      (Decks.decks doc ++ [trim deckName])]> st
      /\ (Decks.trimmed (Decks.decks doc) ->
          Decks.trimmed (Decks.decks doc ++ [trim deckName]))
      /\ (trim deckName = deckName -> NoDup (Decks.decks doc) ->
          NoDup (Decks.decks doc ++ [trim deckName]))).
Proof.
  intros Hs Hv Hne.
  assert (Ht : truthy (Some deckName) = true).
  { simpl. destruct (deckName =? EmptyString)%string eqn:E; [|done].
    by apply String.eqb_eq in E. }
  unfold Decks.add_deck. rewrite Ht, (decks_findOne sid st doc Hs). simpl.
  split.
  - intros Hin. by rewrite (proj2 (includes_elem_of _ _) Hin).
  - intros Hnin.
    destruct (Decks.includes deckName (Decks.decks doc)) eqn:E;
      [by apply includes_elem_of in E|].
    unfold Decks.save. simpl. rewrite Hv. simpl.
    split; [done|]. split; [done|]. split.
    + intros Htr. apply Forall_app. split; [done|].
      constructor; [apply trim_idem | constructor].
    + intros Heq Hnd. rewrite Heq. apply NoDup_app. split; [done|].
      split; [|apply NoDup_singleton].
      intros x Hx Hx'. apply list_elem_of_singleton in Hx' as ->. done.
Qed.

(** X10. Adding a deck to a valid session of the caller: a name that is
    already in the list is refused with 400 and nothing changes; otherwise
    the call succeeds, the earlier decks stay in place and the trimmed name
    is put last.  With a name that is its own trimmed form, a list without
    duplicates stays without duplicates, and stored names stay trimmed. *)
Theorem add_deck_behaviour (sid : N) (st : gmap N Decks.SessionDoc)
        (doc : Decks.SessionDoc) (deckName : string) :
  st !! sid = Some doc -> validate_session (Decks.session doc) = true ->
  deckName <> EmptyString ->
  (deckName ∈ Decks.decks doc ->
   Decks.status (Decks.response
      (Decks.add_deck (user (Decks.session doc)) sid (Some deckName) st))
   = 400%nat
   /\ Decks.store
        (Decks.add_deck (user (Decks.session doc)) sid (Some deckName) st)
      = st)
  /\ (deckName ∉ Decks.decks doc ->
      Decks.status (Decks.response
         (Decks.add_deck (user (Decks.session doc)) sid (Some deckName) st))
      = 200%nat
      /\ Decks.store
           (Decks.add_deck (user (Decks.session doc)) sid (Some deckName) st)
         = <[sid := Decks.mkSessionDoc (Decks.session doc)
                      (Decks.decks doc ++ [trim deckName])]> st
      /\ (Decks.trimmed (Decks.decks doc) ->
          Decks.trimmed (Decks.decks doc ++ [trim deckName]))
      /\ (trim deckName = deckName -> NoDup (Decks.decks doc) ->
          NoDup (Decks.decks doc ++ [trim deckName]))).
Proof. exact (add_deck_cases sid st doc deckName). Qed.

Lemma add_deck_behaviour_witness :
  Decks.ex_docs !! 1%N = Some Decks.ex_doc
  /\ validate_session (Decks.session Decks.ex_doc) = true
  /\ "Orcust"%string <> EmptyString
  /\ ("Orcust"%string ∉ Decks.decks Decks.ex_doc ->
      Decks.status (Decks.response
         (Decks.add_deck 7 1 (Some "Orcust"%string) Decks.ex_docs)) = 200%nat).
Proof.
  assert (Hs : Decks.ex_docs !! 1%N = Some Decks.ex_doc)
    by (vm_compute; reflexivity).
  assert (Hv : validate_session (Decks.session Decks.ex_doc) = true)
    by (vm_compute; reflexivity).
  assert (Hne : "Orcust"%string <> EmptyString) by discriminate.
  exact (conj Hs (conj Hv (conj Hne
           (fun Hn => proj1 (proj2 (add_deck_behaviour 1 Decks.ex_docs
                                      Decks.ex_doc "Orcust" Hs Hv Hne) Hn))))).
Defined.

(** X11. The duplicate check compares the name as sent, the list stores it
    trimmed: a name that is not in the list but whose trimmed form is gets
    added, and the trimmed form is then in the list once more than before. *)
Theorem add_deck_padded_duplicate (sid : N) (st : gmap N Decks.SessionDoc)
        (doc : Decks.SessionDoc) (deckName : string) :
  st !! sid = Some doc -> validate_session (Decks.session doc) = true ->
  deckName <> EmptyString ->
  deckName ∉ Decks.decks doc -> (trim deckName) ∈ Decks.decks doc ->
  exists doc',
    Decks.status (Decks.response
       (Decks.add_deck (user (Decks.session doc)) sid (Some deckName) st))
    = 200%nat
    /\ Decks.store
         (Decks.add_deck (user (Decks.session doc)) sid (Some deckName) st)
       !! sid = Some doc'
    /\ count_occ string_dec (Decks.decks doc') (trim deckName)
       = S (count_occ string_dec (Decks.decks doc) (trim deckName))
    /\ ~ NoDup (Decks.decks doc').
Proof.
  intros Hs Hv Hne Hnin Hin.
  destruct (proj2 (add_deck_cases sid st doc deckName Hs Hv Hne) Hnin)
    as (Hst & Hstore & _ & _).
  eexists. split; [done|]. rewrite Hstore, lookup_insert_eq.
  split; [done|]. simpl. split.
  - rewrite count_occ_app. simpl.
    destruct (string_dec (trim deckName) (trim deckName)); [lia | done].
  - intros Hnd. apply NoDup_app in Hnd as (_ & Hd & _).
    apply (Hd _ Hin). by apply list_elem_of_singleton.
Qed.

Lemma add_deck_padded_duplicate_witness :
  Decks.ex_docs !! 1%N = Some Decks.ex_doc
  /\ (" Maliss"%string ∉ Decks.decks Decks.ex_doc)
  /\ (trim " Maliss") ∈ Decks.decks Decks.ex_doc
  /\ exists doc',
      Decks.store (Decks.add_deck 7 1 (Some " Maliss"%string) Decks.ex_docs)
      !! 1%N = Some doc'
      /\ ~ NoDup (Decks.decks doc').
Proof.
  assert (Hs : Decks.ex_docs !! 1%N = Some Decks.ex_doc)
    by (vm_compute; reflexivity).
  assert (Hv : validate_session (Decks.session Decks.ex_doc) = true)
    by (vm_compute; reflexivity).
  assert (Hne : " Maliss"%string <> EmptyString) by discriminate.
  assert (Hnin : " Maliss"%string ∉ Decks.decks Decks.ex_doc).
  { apply not_elem_of_cons. split; [discriminate|].
    apply not_elem_of_cons. split; [discriminate|]. apply not_elem_of_nil. }
  assert (Hin : (trim " Maliss") ∈ Decks.decks Decks.ex_doc).
  { change (trim " Maliss") with "Maliss"%string. simpl.
    apply list_elem_of_further, list_elem_of_here. }
  destruct (add_deck_padded_duplicate 1 Decks.ex_docs Decks.ex_doc " Maliss"
              Hs Hv Hne Hnin Hin) as (doc' & _ & Hl & _ & Hd).
  exact (conj Hs (conj Hnin (conj Hin (ex_intro _ doc' (conj Hl Hd))))).
Defined.

Lemma NoDup_filter_list (f : string -> bool) (l : list string) :
  NoDup l -> NoDup (List.filter f l).
Proof.
  induction 1 as [|a l Ha _ IH]; simpl; [constructor|].
  destruct (f a); [|done]. constructor; [|done].
  intros Hin. apply Ha. apply list_elem_of_In in Hin.
  apply filter_In in Hin as [Hin _]. by apply list_elem_of_In.
Qed.

Lemma remove_deck_ok (sid : N) (st : gmap N Decks.SessionDoc)
      (doc : Decks.SessionDoc) (deckName : string) :
  st !! sid = Some doc -> validate_session (Decks.session doc) = true ->
  Decks.trimmed (Decks.decks doc) ->
  Decks.remove_deck (user (Decks.session doc)) sid deckName st
  = Decks.mkOutcome
      (Decks.mkResponse 200 true "Deck removed successfully"
         (Some (Decks.mkSessionDoc (Decks.session doc)
                  (List.filter (fun deck => negb (deck =? deckName)%string)
                               (Decks.decks doc)))))
      (<[sid := Decks.mkSessionDoc (Decks.session doc)
                  (List.filter (fun deck => negb (deck =? deckName)%string)
                               (Decks.decks doc))]> st).
Proof.
  intros Hs Hv Ht. unfold Decks.remove_deck.
  rewrite (decks_findOne sid st doc Hs). cbv zeta.
  rewrite (map_trim_trimmed _ (trimmed_filter _ _ Ht)).
  unfold Decks.save. simpl. by rewrite Hv.
Qed.

(** X12. Removing a deck from a valid session of the caller always answers
    200: every occurrence of the name is gone, every other deck is kept, in
    order; removing a name that is not in the list changes nothing; stored
    names stay trimmed and distinct; and removing the same name again
    changes nothing more. *)
Theorem remove_deck_behaviour (sid : N) (st : gmap N Decks.SessionDoc)
        (doc : Decks.SessionDoc) (deckName : string) :
  st !! sid = Some doc -> validate_session (Decks.session doc) = true ->
  Decks.trimmed (Decks.decks doc) ->
  exists doc',
    Decks.status (Decks.response
       (Decks.remove_deck (user (Decks.session doc)) sid deckName st))
    = 200%nat
    /\ Decks.store
         (Decks.remove_deck (user (Decks.session doc)) sid deckName st)
       = <[sid := doc']> st
    /\ Decks.session doc' = Decks.session doc
    /\ (deckName ∉ Decks.decks doc')
    /\ (forall d, d <> deckName ->
          count_occ string_dec (Decks.decks doc') d
          = count_occ string_dec (Decks.decks doc) d)
    /\ Decks.decks doc' `sublist_of` Decks.decks doc
    /\ (deckName ∉ Decks.decks doc -> doc' = doc)
    /\ Decks.trimmed (Decks.decks doc')
    /\ (NoDup (Decks.decks doc) -> NoDup (Decks.decks doc'))
    /\ Decks.store
         (Decks.remove_deck (user (Decks.session doc)) sid deckName
            (<[sid := doc']> st))
       = <[sid := doc']> st.
Proof.
  intros Hs Hv Ht.
  rewrite (remove_deck_ok sid st doc deckName Hs Hv Ht).
  set (l' := List.filter (fun deck => negb (deck =? deckName)%string)
                         (Decks.decks doc)).
  exists (Decks.mkSessionDoc (Decks.session doc) l'). simpl.
  split; [done|]. split; [done|]. split; [done|].
  assert (Hgone : deckName ∉ l').
  { intros Hin. apply filter_neq_elem_of in Hin as [_ Hne]. done. }
  split; [done|]. split.
  { intros d Hd. unfold l'. clear -Hd.
    induction (Decks.decks doc) as [|a l IH]; simpl; [done|].
    destruct (a =? deckName)%string eqn:E; simpl.
    - apply String.eqb_eq in E as ->.
      destruct (string_dec deckName d); [congruence | done].
    - destruct (string_dec a d); by rewrite IH. }
  split.
  { unfold l'. clear. induction (Decks.decks doc) as [|a l IH]; simpl; [done|].
    destruct (negb (a =? deckName)%string);
      [by apply sublist_skip | by apply sublist_cons]. }
  split.
  { intros Hn. unfold l'. rewrite (filter_neq_absent _ _ Hn). by destruct doc. }
  split; [by apply trimmed_filter|].
  split; [by apply NoDup_filter_list|].
  pose proof (remove_deck_ok sid
                (<[sid := Decks.mkSessionDoc (Decks.session doc) l']> st)
                (Decks.mkSessionDoc (Decks.session doc) l') deckName
                (lookup_insert_eq _ _ _) Hv (trimmed_filter _ _ Ht)) as H2.
  simpl in H2. rewrite H2. simpl.
  rewrite insert_insert_eq. f_equal. f_equal.
  by apply filter_neq_absent.
Qed.

Lemma remove_deck_behaviour_witness :
  Decks.ex_docs !! 1%N = Some Decks.ex_doc
  /\ validate_session (Decks.session Decks.ex_doc) = true
  /\ Decks.trimmed (Decks.decks Decks.ex_doc)
  /\ exists doc',
      Decks.store (Decks.remove_deck 7 1 "Branded" Decks.ex_docs)
      = <[1%N := doc']> Decks.ex_docs
      /\ ("Branded"%string ∉ Decks.decks doc').
Proof.
  assert (Hs : Decks.ex_docs !! 1%N = Some Decks.ex_doc)
    by (vm_compute; reflexivity).
  assert (Hv : validate_session (Decks.session Decks.ex_doc) = true)
    by (vm_compute; reflexivity).
  assert (Ht : Decks.trimmed (Decks.decks Decks.ex_doc))
    by (repeat constructor).
  destruct (remove_deck_behaviour 1 Decks.ex_docs Decks.ex_doc "Branded"
              Hs Hv Ht) as (doc' & _ & Hst & _ & Hg & _).
  exact (conj Hs (conj Hv (conj Ht (ex_intro _ doc' (conj Hst Hg))))).
Defined.

(** X13. Adding a deck and then removing it by its stored (trimmed) name
    gives back the list of decks, provided neither the name nor its trimmed
    form was in the list; the session part of the document and every other
    document are as before. *)
Theorem add_then_remove_deck (sid : N) (st : gmap N Decks.SessionDoc)
        (doc : Decks.SessionDoc) (deckName : string) :
  st !! sid = Some doc -> validate_session (Decks.session doc) = true ->
  Decks.trimmed (Decks.decks doc) -> deckName <> EmptyString ->
  deckName ∉ Decks.decks doc -> (trim deckName) ∉ Decks.decks doc ->
  exists doc',
    Decks.store
      (Decks.remove_deck (user (Decks.session doc)) sid (trim deckName)
         (Decks.store
            (Decks.add_deck (user (Decks.session doc)) sid (Some deckName)
                            st))) !! sid
    = Some doc'
    /\ Decks.decks doc' = Decks.decks doc
    /\ Decks.session doc' = Decks.session doc
    /\ (forall sid', sid' <> sid ->
          Decks.store
            (Decks.remove_deck (user (Decks.session doc)) sid (trim deckName)
               (Decks.store
                  (Decks.add_deck (user (Decks.session doc)) sid
                                  (Some deckName) st))) !! sid'
          = st !! sid').
Proof.
  intros Hs Hv Ht Hne Hnin Hnin'.
  destruct (proj2 (add_deck_cases sid st doc deckName Hs Hv Hne) Hnin)
    as (_ & Hstore & Htr & _).
  rewrite Hstore.
  pose proof (remove_deck_ok sid
                (<[sid := Decks.mkSessionDoc (Decks.session doc)
                            (Decks.decks doc ++ [trim deckName])]> st)
                (Decks.mkSessionDoc (Decks.session doc)
                   (Decks.decks doc ++ [trim deckName]))
                (trim deckName) (lookup_insert_eq _ _ _) Hv (Htr Ht)) as H2.
  simpl in H2. rewrite H2. simpl.
  eexists. split; [by rewrite lookup_insert_eq|]. simpl.
  split.
  - rewrite List.filter_app, (filter_neq_absent _ _ Hnin'). simpl.
    rewrite String.eqb_refl. simpl. by rewrite app_nil_r.
  - split; [done|]. intros sid' Hn. by rewrite !lookup_insert_ne.
Qed.

Lemma add_then_remove_deck_witness :
  Decks.ex_docs !! 1%N = Some Decks.ex_doc
  /\ exists doc',
      Decks.store
        (Decks.remove_deck 7 1 (trim "Orcust ")
           (Decks.store (Decks.add_deck 7 1 (Some "Orcust "%string)
                                        Decks.ex_docs))) !! 1%N
      = Some doc'
      /\ Decks.decks doc' = Decks.decks Decks.ex_doc.
Proof.
  assert (Hs : Decks.ex_docs !! 1%N = Some Decks.ex_doc)
    by (vm_compute; reflexivity).
  assert (Hv : validate_session (Decks.session Decks.ex_doc) = true)
    by (vm_compute; reflexivity).
  assert (Ht : Decks.trimmed (Decks.decks Decks.ex_doc))
    by (repeat constructor).
  assert (Hne : "Orcust "%string <> EmptyString) by discriminate.
  assert (Hnin : "Orcust "%string ∉ Decks.decks Decks.ex_doc).
  { apply not_elem_of_cons. split; [discriminate|].
    apply not_elem_of_cons. split; [discriminate|]. apply not_elem_of_nil. }
  assert (Hnin' : (trim "Orcust ") ∉ Decks.decks Decks.ex_doc).
  { change (trim "Orcust ") with "Orcust"%string.
    apply not_elem_of_cons. split; [discriminate|].
    apply not_elem_of_cons. split; [discriminate|]. apply not_elem_of_nil. }
  destruct (add_then_remove_deck 1 Decks.ex_docs Decks.ex_doc "Orcust "
              Hs Hv Ht Hne Hnin Hnin') as (doc' & Hl & Hd & _).
  exact (conj Hs (ex_intro _ doc' (conj Hl Hd))).
Defined.

(** * The post-save hook *)

Lemma last_points_app (p : number) (l1 l2 : list Match) :
  last_points p (l1 ++ l2) = last_points (last_points p l1) l2.
Proof.
  revert p. induction l1 as [|a l1 IH]; intros p; simpl; [done|].
  change (a :: l1 ++ l2) with (a :: (l1 ++ l2)).
  by rewrite !last_points_cons, IH.
Qed.

Lemma count_matches_app (P : Match -> bool) (l1 l2 : list Match) :
  count_matches P (l1 ++ l2)
  = (count_matches P l1 + count_matches P l2)%nat.
Proof. induction l1 as [|a l1 IH]; simpl; [done|]. rewrite IH. lia. Qed.

Lemma max_step_neg_infinity (x : number) : max_step (S754_infinity true) x = x.
Proof. by destruct x as [[]|[]| |[] m e]. Qed.

Lemma forEach_body_fold (sessions : list Session) (t w : nat) (c p : number) :
  fold_left PostSave.forEach_body sessions (t, w, c, p)
  = ((t + length (PostSave.all_matches sessions))%nat,
     (w + count_matches isWin (PostSave.all_matches sessions))%nat,
     last_points c (PostSave.all_matches sessions),
     fold_left max_step (map pointsAfter (PostSave.all_matches sessions)) p).
Proof.
  revert t w c p. induction sessions as [|s ss IH]; intros t w c p.
  - simpl. unfold PostSave.all_matches. simpl.
    by rewrite !Nat.add_0_r, last_points_nil.
  - cbn [fold_left]. unfold PostSave.forEach_body at 2.
    unfold PostSave.all_matches in *. cbn [map concat].
    rewrite filter_length_count.
    destruct (matches s) as [|a ms] eqn:Hm.
    + simpl. rewrite IH. by rewrite !Nat.add_0_r.
    + cbn [length Nat.ltb Nat.leb]. rewrite IH.
      rewrite length_app, count_matches_app, map_app, fold_left_app,
        last_points_app.
      assert (Hlast : default c (pointsAfter <$> (a :: ms) !! (S (length ms) - 1)%nat)
                      = last_points c (a :: ms)).
      { rewrite last_points_lookup. simpl. by rewrite Nat.sub_0_r. }
      cbn [length] in Hlast |- *. rewrite Hlast.
      unfold Math_max. cbn [fold_left]. rewrite max_step_neg_infinity.
      by rewrite !Nat.add_assoc.
Qed.

Lemma post_save_summary (this : Session) (sessions : list Session) :
  PostSave.totalMatches (PostSave.post_save this sessions)
  = length (PostSave.all_matches sessions)
  /\ PostSave.wins (PostSave.post_save this sessions)
     = count_matches isWin (PostSave.all_matches sessions)
  /\ (PostSave.wins (PostSave.post_save this sessions)
      + PostSave.losses (PostSave.post_save this sessions)
      = PostSave.totalMatches (PostSave.post_save this sessions))%nat
  /\ PostSave.currentPoints (PostSave.post_save this sessions)
     = last_points (PostSave.initial this) (PostSave.all_matches sessions)
  /\ not_above (PostSave.initial this)
               (PostSave.peakPoints (PostSave.post_save this sessions))
  /\ (forall m, In m (PostSave.all_matches sessions) ->
        not_above (pointsAfter m)
                  (PostSave.peakPoints (PostSave.post_save this sessions)))
  /\ (PostSave.peakPoints (PostSave.post_save this sessions)
      = PostSave.initial this
      \/ exists m, In m (PostSave.all_matches sessions)
           /\ PostSave.peakPoints (PostSave.post_save this sessions)
              = pointsAfter m)
  /\ not_above (PostSave.currentPoints (PostSave.post_save this sessions))
               (PostSave.peakPoints (PostSave.post_save this sessions)).
Proof.
  unfold PostSave.post_save. rewrite forEach_body_fold. simpl.
  fold (PostSave.initial this).
  set (flat := PostSave.all_matches sessions).
  set (init := PostSave.initial this).
  assert (Hge : forall m, In m flat ->
            not_above (pointsAfter m)
                      (fold_left max_step (map pointsAfter flat) init)).
  { intros m Hin. apply fold_max_ge_elem. by apply in_map. }
  split; [done|]. split; [done|]. split.
  { pose proof (count_matches_le_length isWin flat). lia. }
  split; [done|]. split; [apply fold_max_ge_init|]. split; [done|]. split.
  { destruct (fold_max_cases (map pointsAfter flat) init) as [H | H];
      [by left|].
    right. apply in_map_iff in H as (m & Hm & Hin). by exists m. }
  unfold last_points. destruct (last flat) as [m|] eqn:Hl; simpl.
  - apply Hge. apply list_elem_of_In. by eapply last_Some_elem_of.
  - apply fold_max_ge_init.
Qed.

Lemma all_matches_not_nan (sessions : list Session) (m : Match) :
  Forall (fun s => validate_session s = true) sessions ->
  In m (PostSave.all_matches sessions) -> is_nan (pointsAfter m) = false.
Proof.
  intros Hv Hin. unfold PostSave.all_matches in Hin.
  apply in_concat in Hin as (ms & Hms & Hin).
  apply in_map_iff in Hms as (s & <- & Hs).
  rewrite Forall_forall in Hv.
  apply (validate_session_points s); [|done].
  apply Hv. by apply list_elem_of_In.
Qed.

Lemma initial_not_nan (this : Session) : is_nan (PostSave.initial this) = false.
Proof.
  unfold PostSave.initial. by destruct (pointsFormula this =? "rated")%string.
Qed.

Lemma post_save_ordered (this : Session) (sessions : list Session) :
  Forall (fun s => validate_session s = true) sessions ->
  (PostSave.initial this
   <=? PostSave.peakPoints (PostSave.post_save this sessions)) = true
  /\ (forall m, In m (PostSave.all_matches sessions) ->
        (pointsAfter m
         <=? PostSave.peakPoints (PostSave.post_save this sessions)) = true)
  /\ (PostSave.currentPoints (PostSave.post_save this sessions)
      <=? PostSave.peakPoints (PostSave.post_save this sessions)) = true.
Proof.
  intros Hv.
  destruct (post_save_summary this sessions)
    as (_ & _ & _ & Hc & Hi & Hall & Hatt & Hcp).
  assert (Hp : is_nan (PostSave.peakPoints (PostSave.post_save this sessions))
               = false).
  { destruct Hatt as [-> | (m & Hin & ->)];
      [apply initial_not_nan | by apply (all_matches_not_nan sessions)]. }
  assert (Hcur : is_nan (PostSave.currentPoints
                           (PostSave.post_save this sessions)) = false).
  { rewrite Hc. unfold last_points.
    destruct (last (PostSave.all_matches sessions)) as [m|] eqn:Hl; simpl;
      [|apply initial_not_nan].
    apply (all_matches_not_nan sessions); [done|].
    apply list_elem_of_In. by eapply last_Some_elem_of. }
  split; [apply not_above_fle; [apply initial_not_nan | done | done]|].
  split; [|by apply not_above_fle].
  intros m Hin. apply not_above_fle;
    [by apply (all_matches_not_nan sessions) | done | by apply Hall].
Qed.

(** X14. What the hook writes into the user's statistics is an aggregate of
    all matches of the listed sessions taken in order: their number, the
    number of wins, losses as the difference, the last [pointsAfter] as
    current points (the start value 1500 or 0 when there is no match), and
    as peak the largest of the start value and every [pointsAfter]: one of
    these values, with none of them above it; the current points are not
    above the peak. On sessions that pass the validators these comparisons
    are the program's [<=]. *)
Theorem post_save_aggregate (this : Session) (sessions : list Session) :
  PostSave.totalMatches (PostSave.post_save this sessions)
  = length (PostSave.all_matches sessions)
  /\ PostSave.wins (PostSave.post_save this sessions)
     = count_matches isWin (PostSave.all_matches sessions)
  /\ (PostSave.wins (PostSave.post_save this sessions)
      + PostSave.losses (PostSave.post_save this sessions)
      = PostSave.totalMatches (PostSave.post_save this sessions))%nat
  /\ PostSave.currentPoints (PostSave.post_save this sessions)
     = last_points (PostSave.initial this) (PostSave.all_matches sessions)
  /\ not_above (PostSave.initial this)
               (PostSave.peakPoints (PostSave.post_save this sessions))
  /\ (forall m, In m (PostSave.all_matches sessions) ->
        not_above (pointsAfter m)
                  (PostSave.peakPoints (PostSave.post_save this sessions)))
  /\ (PostSave.peakPoints (PostSave.post_save this sessions)
      = PostSave.initial this
      \/ exists m, In m (PostSave.all_matches sessions)
           /\ PostSave.peakPoints (PostSave.post_save this sessions)
              = pointsAfter m)
  /\ not_above (PostSave.currentPoints (PostSave.post_save this sessions))
               (PostSave.peakPoints (PostSave.post_save this sessions))
  /\ (Forall (fun s => validate_session s = true) sessions ->
      (PostSave.initial this
       <=? PostSave.peakPoints (PostSave.post_save this sessions)) = true
      /\ (forall m, In m (PostSave.all_matches sessions) ->
            (pointsAfter m
             <=? PostSave.peakPoints (PostSave.post_save this sessions)) = true)
      /\ (PostSave.currentPoints (PostSave.post_save this sessions)
          <=? PostSave.peakPoints (PostSave.post_save this sessions)) = true).
Proof.
  destruct (post_save_summary this sessions)
    as (H1 & H2 & H3 & H4 & H5 & H6 & H7 & H8).
  repeat (split; [done|]).
  exact (post_save_ordered this sessions).
Qed.

(** X15. When the listed sessions are just the saved one and it starts at the
    hook's start value (1500 for rated, 0 otherwise), the user's statistics
    are that session's own: same total, wins, losses and current points, and
    the same peak. *)
Theorem post_save_single_session (this : Session) :
  pointsStart this = PostSave.initial this ->
  PostSave.totalMatches (PostSave.post_save this [this]) = total (stats this)
  /\ PostSave.wins (PostSave.post_save this [this]) = wins (stats this)
  /\ PostSave.losses (PostSave.post_save this [this]) = losses (stats this)
  /\ PostSave.currentPoints (PostSave.post_save this [this])
     = currentPoints (stats this)
  /\ PostSave.peakPoints (PostSave.post_save this [this])
     = peakPoints (stats this).
Proof.
  intros Hstart.
  destruct (post_save_summary this [this])
    as (Ht & Hw & _ & Hc & _).
  assert (Hflat : PostSave.all_matches [this] = matches this)
    by (unfold PostSave.all_matches; simpl; apply app_nil_r).
  rewrite Hflat in *.
  assert (Hl : PostSave.losses (PostSave.post_save this [this])
               = losses (stats this)).
  { unfold PostSave.post_save. rewrite forEach_body_fold, Hflat. simpl.
    by rewrite filter_length_count. }
  assert (Hcs : currentPoints (stats this)
                = last_points (pointsStart this) (matches this)).
  { unfold stats. simpl. rewrite last_points_lookup.
    destruct (matches this) as [|a ms]; simpl; [done|].
    by rewrite Nat.sub_0_r. }
  split; [done|]. split; [by rewrite Hw; unfold stats; simpl;
                             rewrite filter_length_count|].
  split; [done|]. split; [by rewrite Hc, Hcs, Hstart|].
  unfold PostSave.post_save. rewrite forEach_body_fold, Hflat.
  cbn [PostSave.peakPoints].
  change (fold_left max_step (map pointsAfter (matches this))
            (PostSave.initial this) = peakPoints (stats this)).
  rewrite <- Hstart. unfold stats. cbn [peakPoints].
  by rewrite Math_max_snoc.
Qed.

Lemma post_save_single_session_witness :
  pointsStart ex_session = PostSave.initial ex_session
  /\ PostSave.currentPoints (PostSave.post_save ex_session [ex_session])
     = currentPoints (stats ex_session).
Proof.
  exact (conj eq_refl
           (proj1 (proj2 (proj2 (proj2
              (post_save_single_session ex_session eq_refl)))))).
Defined.

Lemma post_save_aggregate_witness :
  In (ex_match 10 "Win" 1500 1507) (PostSave.all_matches [ex_session])
  /\ Forall (fun s => validate_session s = true) [ex_session]
  /\ not_above (pointsAfter (ex_match 10 "Win" 1500 1507))
       (PostSave.peakPoints (PostSave.post_save ex_session [ex_session]))
  /\ (pointsAfter (ex_match 10 "Win" 1500 1507)
      <=? PostSave.peakPoints (PostSave.post_save ex_session [ex_session]))
     = true.
Proof.
  assert (H : In (ex_match 10 "Win" 1500 1507)
                 (PostSave.all_matches [ex_session]))
    by (simpl; auto).
  assert (Hv : Forall (fun s => validate_session s = true) [ex_session]).
  { constructor; [vm_compute; reflexivity | constructor]. }
  destruct (post_save_aggregate ex_session [ex_session])
    as (_ & _ & _ & _ & _ & Hall & _ & _ & Hord).
  exact (conj H (conj Hv (conj (Hall _ H) (proj1 (proj2 (Hord Hv)) _ H)))).
Defined.

(** * The tier list votes *)

Lemma vote_findIndex_split (u : N) (vs : list TierList.Vote) (k : nat) :
  TierList.findIndex u vs = Some k ->
  exists l1 v l2,
    vs = l1 ++ v :: l2 /\ length l1 = k /\ TierList.user v = u
    /\ Forall (fun x => TierList.user x <> u) l1.
Proof.
  revert k. induction vs as [|a vs IH]; intros k; simpl; [done|].
  destruct (TierList.user a =? u)%N eqn:E.
  - intros [= <-]. apply N.eqb_eq in E. by exists [], a, vs.
  - destruct (TierList.findIndex u vs) as [k'|]; [|done].
    intros [= <-].
    destruct (IH k' eq_refl) as (l1 & v & l2 & -> & <- & Hid & Hl1).
    exists (a :: l1), v, l2. repeat split; try done.
    constructor; [|done]. by apply N.eqb_neq.
Qed.

Lemma vote_findIndex_None (u : N) (vs : list TierList.Vote) :
  TierList.findIndex u vs = None ->
  Forall (fun x => TierList.user x <> u) vs.
Proof.
  induction vs as [|a vs IH]; simpl; [constructor|].
  destruct (TierList.user a =? u)%N eqn:E; [done|].
  destruct (TierList.findIndex u vs); [done|]. intros _.
  constructor; [by apply N.eqb_neq | by apply IH].
Qed.

Lemma vote_of_app (l1 l2 : list TierList.Vote) (u : N) :
  vote_of (l1 ++ l2) u
  = match vote_of l1 u with Some t => Some t | None => vote_of l2 u end.
Proof.
  unfold vote_of. induction l1 as [|a l1 IH]; simpl; [done|].
  by destruct (TierList.user a =? u)%N.
Qed.

Lemma vote_of_absent (l : list TierList.Vote) (u : N) :
  Forall (fun x => TierList.user x <> u) l -> vote_of l u = None.
Proof.
  unfold vote_of. induction 1 as [|a l Ha _ IH]; simpl; [done|].
  apply N.eqb_neq in Ha. by rewrite Ha.
Qed.

Lemma vote_of_cons (v : TierList.Vote) (l : list TierList.Vote) (u : N) :
  vote_of (v :: l) u
  = if (TierList.user v =? u)%N then Some (TierList.type v) else vote_of l u.
Proof. unfold vote_of. simpl. by destruct (TierList.user v =? u)%N. Qed.

Lemma getUserVote_vote_of (i : TierList.TierItem) (u : N) :
  TierList.getUserVote i u = vote_of (TierList.votes i) u.
Proof.
  unfold TierList.getUserVote, vote_of.
  by destruct (List.find _ (TierList.votes i)).
Qed.

Lemma absent_not_in (l : list TierList.Vote) (u : N) :
  Forall (fun x => TierList.user x <> u) l <-> u ∉ map TierList.user l.
Proof.
  rewrite Forall_forall. split.
  - intros H Hin. apply list_elem_of_fmap in Hin as (x & -> & Hx).
    by apply (H x Hx).
  - intros H x Hx Heq. apply H. rewrite <- Heq.
    apply list_elem_of_fmap. by exists x.
Qed.

(** The three cases of [cast_vote]. *)
Lemma cast_vote_cases (u : N) (t : string) (vs : list TierList.Vote) :
  (Forall (fun x => TierList.user x <> u) vs
   /\ cast_vote u t vs = vs ++ [TierList.mkVote u t])
  \/ exists l1 v l2,
      vs = l1 ++ v :: l2 /\ TierList.user v = u
      /\ Forall (fun x => TierList.user x <> u) l1
      /\ ((TierList.type v = t /\ cast_vote u t vs = l1 ++ l2)
          \/ (TierList.type v <> t
              /\ cast_vote u t vs = l1 ++ TierList.mkVote u t :: l2)).
Proof.
  unfold cast_vote.
  destruct (TierList.findIndex u vs) as [k|] eqn:Hk.
  - right.
    destruct (vote_findIndex_split u vs k Hk)
      as (l1 & v & l2 & -> & <- & Hu & Hl1).
    exists l1, v, l2. rewrite list_lookup_middle by done.
    split; [done|]. split; [done|]. split; [done|].
    destruct (TierList.type v =? t)%string eqn:E.
    + left. apply String.eqb_eq in E. by rewrite delete_middle.
    + right. apply String.eqb_neq in E. split; [done|].
      assert (Ha : forall (f : TierList.Vote -> TierList.Vote) l,
                 alter f (length l) (l ++ v :: l2) = l ++ f v :: l2).
      { intros f l. induction l as [|a l IH]; simpl; [done|].
        f_equal. exact IH. }
      rewrite Ha. unfold TierList.set_type. by rewrite Hu.
  - left. split; [by apply vote_findIndex_None | done].
Qed.

(** What a vote does to the list of votes, when each user has at most one
    vote in it: the caller's vote becomes the one sent, or disappears if it
    was already that one; nobody else's vote changes; and each user still has
    at most one vote. *)
Lemma cast_vote_toggle (u : N) (t : string) (vs : list TierList.Vote) :
  NoDup (map TierList.user vs) ->
  vote_of (cast_vote u t vs) u
  = (if decide (vote_of vs u = Some t) then None else Some t)
  /\ (forall u', u' <> u -> vote_of (cast_vote u t vs) u' = vote_of vs u')
  /\ NoDup (map TierList.user (cast_vote u t vs)).
Proof.
  intros Hnd.
  destruct (cast_vote_cases u t vs)
    as [[Habs ->] | (l1 & v & l2 & -> & Hu & Hl1 & Hc)].
  - split; [|split].
    + rewrite vote_of_app, (vote_of_absent _ _ Habs), vote_of_cons. simpl.
      rewrite N.eqb_refl. by destruct (decide (None = Some t)).
    + intros u' Hne. rewrite vote_of_app, vote_of_cons. simpl.
      apply N.eqb_neq in Hne. rewrite N.eqb_sym, Hne.
      change (vote_of [] u') with (@None string).
      by destruct (vote_of vs u').
    + rewrite map_app. simpl. apply NoDup_app. split; [done|].
      split; [|apply NoDup_singleton].
      intros x Hx Hx'. apply list_elem_of_singleton in Hx' as ->.
      by apply absent_not_in in Habs.
  - rewrite map_app in Hnd. simpl in Hnd.
    apply NoDup_app in Hnd as (Hn1 & Hdisj & Hn2).
    apply NoDup_cons in Hn2 as [Hv2 Hn2]. rewrite Hu in Hv2.
    assert (Hl2 : Forall (fun x => TierList.user x <> u) l2)
      by (by apply absent_not_in).
    assert (Hold : vote_of (l1 ++ v :: l2) u = Some (TierList.type v)).
    { rewrite vote_of_app, (vote_of_absent _ _ Hl1), vote_of_cons.
      by rewrite Hu, N.eqb_refl. }
    rewrite Hold.
    assert (Hother : forall u' w, u' <> u -> TierList.user w = u ->
              vote_of (l1 ++ w :: l2) u' = vote_of (l1 ++ l2) u').
    { intros u' w Hne Hw. rewrite !vote_of_app, vote_of_cons, Hw.
      apply N.eqb_neq in Hne. by rewrite N.eqb_sym, Hne. }
    destruct Hc as [[Ht ->] | [Ht ->]].
    + split; [|split].
      * rewrite vote_of_app, (vote_of_absent _ _ Hl1),
          (vote_of_absent _ _ Hl2).
        destruct (decide (Some (TierList.type v) = Some t)); congruence.
      * intros u' Hne. by rewrite (Hother u' v Hne Hu).
      * rewrite map_app. apply NoDup_app. split; [done|]. split; [|done].
        intros x Hx Hx'. apply (Hdisj x Hx). by constructor.
    + split; [|split].
      * rewrite vote_of_app, (vote_of_absent _ _ Hl1), vote_of_cons. simpl.
        rewrite N.eqb_refl.
        destruct (decide (Some (TierList.type v) = Some t)); congruence.
      * intros u' Hne.
        by rewrite (Hother u' v Hne Hu),
          (Hother u' (TierList.mkVote u t) Hne eq_refl).
      * rewrite map_app. simpl. apply NoDup_app. split; [done|].
        split; [by rewrite <- Hu | constructor; [done | done]].
Qed.

Lemma calculateScore_votes (i : TierList.TierItem) (n : Z) :
  TierList.calculateScore (TierList.set_score n i) = TierList.calculateScore i.
Proof. done. Qed.

(** The score of a list of votes, vote by vote. *)
Lemma calculateScore_app (i : TierList.TierItem) (l1 l2 : list TierList.Vote) :
  TierList.calculateScore (TierList.set_votes (l1 ++ l2) i)
  = (TierList.calculateScore (TierList.set_votes l1 i)
     + TierList.calculateScore (TierList.set_votes l2 i))%Z.
Proof.
  unfold TierList.calculateScore. simpl.
  rewrite !List.filter_app, !length_app. lia.
Qed.

Lemma calculateScore_cons (i : TierList.TierItem) (v : TierList.Vote)
      (l : list TierList.Vote) :
  TierList.calculateScore (TierList.set_votes (v :: l) i)
  = (vote_value (Some (TierList.type v))
     + TierList.calculateScore (TierList.set_votes l i))%Z.
Proof.
  unfold TierList.calculateScore, vote_value. simpl.
  destruct (TierList.type v =? "like")%string eqn:E.
  - apply String.eqb_eq in E. rewrite E. simpl. lia.
  - destruct (TierList.type v =? "dislike")%string; simpl; lia.
Qed.

Lemma validate_cast_vote (u : N) (t : string) (vs : list TierList.Vote) :
  (t = "like"%string \/ t = "dislike"%string) ->
  forallb TierList.validate_vote vs = true ->
  forallb TierList.validate_vote (cast_vote u t vs) = true.
Proof.
  intros Ht Hv.
  assert (Hvt : TierList.validate_vote (TierList.mkVote u t) = true)
    by (by destruct Ht as [-> | ->]).
  destruct (cast_vote_cases u t vs)
    as [[_ ->] | (l1 & v & l2 & -> & _ & _ & [[_ ->] | [_ ->]])];
    rewrite ?forallb_app in *; simpl in *;
    rewrite ?andb_true_iff in *; try rewrite Hvt; tauto.
Qed.

(** The item the vote route stores. *)
Lemma vote_route_ok (u id : N) (t : string) (st : gmap N TierList.TierItem)
      (item : TierList.TierItem) :
  st !! id = Some item -> TierList.validate_item item = true ->
  (t = "like"%string \/ t = "dislike"%string) ->
  TierList.vote_route u id (Some t) st
  = TierList.mkOutcome
      (TierList.mkResponse 200 true "Vote submitted successfully"
         (Some (TierList.set_score
                  (TierList.calculateScore
                     (TierList.set_votes
                        (cast_vote u t (TierList.votes item)) item))
                  (TierList.set_votes
                     (cast_vote u t (TierList.votes item)) item)))
         (vote_of (cast_vote u t (TierList.votes item)) u))
      (<[id := TierList.set_score
                 (TierList.calculateScore
                    (TierList.set_votes
                       (cast_vote u t (TierList.votes item)) item))
                 (TierList.set_votes
                    (cast_vote u t (TierList.votes item)) item)]> st).
Proof.
  intros Hs Hv Ht. unfold TierList.vote_route.
  assert (Hc : negb (truthy (Some t))
               || negb (existsb (String.eqb (str (Some t)))
                                ["like"; "dislike"]%string) = false)
    by (by destruct Ht as [-> | ->]).
  rewrite Hc, Hs. cbv beta iota zeta delta [str default from_option Datatypes.id].
  unfold TierList.save.
  assert (Hv' : TierList.validate_item
                  (TierList.set_score
                     (TierList.calculateScore
                        (TierList.set_votes
                           (cast_vote u t (TierList.votes item)) item))
                     (TierList.set_votes
                        (cast_vote u t (TierList.votes item)) item)) = true).
  { unfold TierList.validate_item in *. simpl.
    rewrite !andb_true_iff in *. destruct Hv as [Hv1 Hv2].
    split; [done|]. by apply validate_cast_vote. }
  rewrite getUserVote_vote_of. unfold cast_vote in Hv' |- *.
  by rewrite Hv'.
Qed.

(** X16. A valid vote on an existing, valid tier item in which each user has
    at most one vote succeeds, and afterwards: the caller's vote is the one
    sent, or none if the caller had already cast exactly that vote; the
    response reports it; no other user's vote has changed; each user still
    has at most one vote. *)
Theorem vote_route_toggle (u id : N) (t : string)
        (st : gmap N TierList.TierItem) (item : TierList.TierItem) :
  st !! id = Some item -> TierList.validate_item item = true ->
  (t = "like"%string \/ t = "dislike"%string) ->
  NoDup (map TierList.user (TierList.votes item)) ->
  exists item',
    TierList.status (TierList.response (TierList.vote_route u id (Some t) st))
    = 200%nat
    /\ TierList.store (TierList.vote_route u id (Some t) st) !! id = Some item'
    /\ TierList.tierItem
         (TierList.response (TierList.vote_route u id (Some t) st))
       = Some item'
    /\ TierList.userVote
         (TierList.response (TierList.vote_route u id (Some t) st))
       = TierList.getUserVote item' u
    /\ TierList.getUserVote item' u
       = (if decide (TierList.getUserVote item u = Some t)
          then None else Some t)
    /\ (forall u', u' <> u ->
          TierList.getUserVote item' u' = TierList.getUserVote item u')
    /\ NoDup (map TierList.user (TierList.votes item')).
Proof.
  intros Hs Hv Ht Hnd.
  rewrite (vote_route_ok u id t st item Hs Hv Ht). simpl.
  destruct (cast_vote_toggle u t (TierList.votes item) Hnd)
    as (Hown & Hother & Hnd').
  eexists. rewrite lookup_insert_eq. split; [done|]. split; [done|].
  split; [done|]. rewrite !getUserVote_vote_of. simpl.
  split; [done|]. split; [done|]. split; [|done].
  intros u' Hne. rewrite !getUserVote_vote_of. simpl. by apply Hother.
Qed.

Lemma vote_route_toggle_witness :
  TierList.ex_items !! 5%N = Some TierList.ex_item
  /\ TierList.validate_item TierList.ex_item = true
  /\ NoDup (map TierList.user (TierList.votes TierList.ex_item))
  /\ exists item',
      TierList.store (TierList.vote_route 7 5 (Some "like"%string)
                                          TierList.ex_items) !! 5%N
      = Some item'
      /\ TierList.getUserVote item' 7 = None.
Proof.
  assert (Hs : TierList.ex_items !! 5%N = Some TierList.ex_item)
    by (vm_compute; reflexivity).
  assert (Hv : TierList.validate_item TierList.ex_item = true)
    by (vm_compute; reflexivity).
  assert (H : NoDup (map TierList.user (TierList.votes TierList.ex_item))).
  { simpl. apply NoDup_cons. split.
    - intros Hin. apply list_elem_of_singleton in Hin. discriminate Hin.
    - apply NoDup_singleton. }
  destruct (vote_route_toggle 7 5 "like" TierList.ex_items TierList.ex_item
              Hs Hv (or_introl eq_refl) H)
    as (item' & _ & Hst & _ & _ & Hown & _).
  exact (conj Hs (conj Hv (conj H (ex_intro _ item' (conj Hst Hown))))).
Defined.

(** X17. After a successful vote the stored score is likes minus dislikes of
    the stored votes, and it differs from the score of the votes before by
    exactly the change of the caller's own vote (like = +1, dislike = -1,
    no vote = 0). *)
Theorem vote_route_score (u id : N) (t : string)
        (st : gmap N TierList.TierItem) (item : TierList.TierItem) :
  st !! id = Some item -> TierList.validate_item item = true ->
  (t = "like"%string \/ t = "dislike"%string) ->
  NoDup (map TierList.user (TierList.votes item)) ->
  exists item',
    TierList.store (TierList.vote_route u id (Some t) st) !! id = Some item'
    /\ TierList.score item' = TierList.calculateScore item'
    /\ (TierList.score item' - TierList.calculateScore item
        = vote_value (TierList.getUserVote item' u)
          - vote_value (TierList.getUserVote item u))%Z.
Proof.
  intros Hs Hv Ht Hnd.
  destruct (cast_vote_toggle u t (TierList.votes item) Hnd) as (Hown & _ & _).
  pose proof (cast_vote_cases u t (TierList.votes item)) as Hcases.
  rewrite (vote_route_ok u id t st item Hs Hv Ht).
  remember (cast_vote u t (TierList.votes item)) as cv eqn:Hcv.
  cbn [TierList.store]. rewrite lookup_insert_eq.
  eexists. split; [done|]. split; [done|].
  rewrite !getUserVote_vote_of.
  cbn [TierList.votes TierList.score TierList.set_score TierList.set_votes].
  rewrite Hown.
  assert (Hitem : TierList.calculateScore item
                  = TierList.calculateScore
                      (TierList.set_votes (TierList.votes item) item))
    by done.
  rewrite Hitem. clear Hitem.
  assert (Hnil : TierList.calculateScore (TierList.set_votes [] item) = 0%Z)
    by done.
  destruct Hcases as [[Habs Hc] | (l1 & v & l2 & Hvs & Hu & Hl1 & Hc)].
  - rewrite Hc, (vote_of_absent _ _ Habs).
    destruct (decide (None = Some t)); [done|].
    change (vote_value None) with 0%Z.
    rewrite calculateScore_app, calculateScore_cons, Hnil.
    cbn [TierList.type]. lia.
  - rewrite Hvs.
    assert (Hold : vote_of (l1 ++ v :: l2) u = Some (TierList.type v)).
    { rewrite vote_of_app, (vote_of_absent _ _ Hl1), vote_of_cons.
      by rewrite Hu, N.eqb_refl. }
    rewrite Hold.
    destruct Hc as [[Hty Hc] | [Hty Hc]]; rewrite Hc.
    + destruct (decide (Some (TierList.type v) = Some t)); [|congruence].
      change (vote_value None) with 0%Z.
      rewrite !calculateScore_app, calculateScore_cons. lia.
    + destruct (decide (Some (TierList.type v) = Some t)); [congruence|].
      rewrite !calculateScore_app, !calculateScore_cons.
      cbn [TierList.type]. lia.
Qed.

Lemma vote_route_score_witness :
  TierList.ex_items !! 5%N = Some TierList.ex_item
  /\ exists item',
      TierList.store (TierList.vote_route 8 5 (Some "like"%string)
                                          TierList.ex_items) !! 5%N
      = Some item'
      /\ TierList.score item' = TierList.calculateScore item'.
Proof.
  assert (Hs : TierList.ex_items !! 5%N = Some TierList.ex_item)
    by (vm_compute; reflexivity).
  assert (Hv : TierList.validate_item TierList.ex_item = true)
    by (vm_compute; reflexivity).
  assert (H : NoDup (map TierList.user (TierList.votes TierList.ex_item))).
  { simpl. apply NoDup_cons. split.
    - intros Hin. apply list_elem_of_singleton in Hin. discriminate Hin.
    - apply NoDup_singleton. }
  destruct (vote_route_score 8 5 "like" TierList.ex_items TierList.ex_item
              Hs Hv (or_introl eq_refl) H)
    as (item' & Hst & Hsc & _).
  exact (conj Hs (ex_intro _ item' (conj Hst Hsc))).
Defined.

Lemma vote_findIndex_snoc (u : N) (t : string) (vs : list TierList.Vote) :
  Forall (fun x => TierList.user x <> u) vs ->
  TierList.findIndex u (vs ++ [TierList.mkVote u t]) = Some (length vs).
Proof.
  induction 1 as [|a l Ha _ IH]; simpl; [by rewrite N.eqb_refl|].
  apply N.eqb_neq in Ha. by rewrite Ha, IH.
Qed.

(** X18. Voting twice in a row with the same vote, by a user who had not
    voted, puts the item's votes back: the first call reports the vote, the
    second reports none, and the item stored afterwards has the votes, title,
    image, category, submitter and approval it had, with the score of its
    votes; the other items are untouched. *)
Theorem vote_twice_restores (u id : N) (t : string)
        (st : gmap N TierList.TierItem) (item : TierList.TierItem) :
  st !! id = Some item -> TierList.validate_item item = true ->
  (t = "like"%string \/ t = "dislike"%string) ->
  TierList.getUserVote item u = None ->
  TierList.hasUserVoted item u = None
  /\ TierList.userVote
       (TierList.response (TierList.vote_route u id (Some t) st)) = Some t
  /\ TierList.userVote
       (TierList.response
          (TierList.vote_route u id (Some t)
             (TierList.store (TierList.vote_route u id (Some t) st)))) = None
  /\ exists item',
       TierList.store
         (TierList.vote_route u id (Some t)
            (TierList.store (TierList.vote_route u id (Some t) st))) !! id
       = Some item'
       /\ TierList.votes item' = TierList.votes item
       /\ TierList.score item' = TierList.calculateScore item
       /\ TierList.title item' = TierList.title item
       /\ TierList.imageUrl item' = TierList.imageUrl item
       /\ TierList.category item' = TierList.category item
       /\ TierList.submittedBy item' = TierList.submittedBy item
       /\ TierList.isApproved item' = TierList.isApproved item
       /\ forall j, j <> id ->
            TierList.store
              (TierList.vote_route u id (Some t)
                 (TierList.store (TierList.vote_route u id (Some t) st))) !! j
            = st !! j.
Proof.
  intros Hs Hv Ht Hnone.
  assert (Hfind : List.find (fun v => (TierList.user v =? u)%N)
                            (TierList.votes item) = None).
  { unfold TierList.getUserVote in Hnone.
    by destruct (List.find _ (TierList.votes item)). }
  assert (Habs : Forall (fun x => TierList.user x <> u) (TierList.votes item)).
  { apply Forall_forall. intros x Hx Heq.
    apply list_elem_of_In in Hx.
    apply (find_none _ _ Hfind) in Hx. simpl in Hx.
    rewrite Heq, N.eqb_refl in Hx. done. }
  assert (Hc1 : cast_vote u t (TierList.votes item)
                = TierList.votes item ++ [TierList.mkVote u t]).
  { destruct (cast_vote_cases u t (TierList.votes item))
      as [[_ H] | (l1 & v & l2 & Hvs & Hu & _ & _)]; [done|].
    exfalso. rewrite Hvs in Habs. apply Forall_app in Habs as [_ Habs].
    apply Forall_cons in Habs as [Habs _]. done. }
  assert (Hc2 : cast_vote u t (TierList.votes item ++ [TierList.mkVote u t])
                = TierList.votes item).
  { unfold cast_vote. rewrite (vote_findIndex_snoc u t _ Habs).
    rewrite list_lookup_middle by done. simpl. rewrite String.eqb_refl.
    by rewrite delete_middle, app_nil_r. }
  split; [exact Hfind|].
  rewrite (vote_route_ok u id t st item Hs Hv Ht). simpl.
  rewrite Hc1.
  set (item1 := TierList.set_score _ _).
  assert (Hv1 : TierList.validate_item item1 = true).
  { unfold item1, TierList.validate_item in *. simpl.
    rewrite !andb_true_iff in *. destruct Hv as [Hv1 Hv2].
    split; [done|]. rewrite forallb_app. simpl.
    rewrite Hv2. by destruct Ht as [-> | ->]. }
  rewrite (vote_route_ok u id t _ item1 (lookup_insert_eq _ _ _) Hv1 Ht).
  simpl. rewrite Hc2.
  split; [|split].
  - rewrite vote_of_app, (vote_of_absent _ _ Habs), vote_of_cons. simpl.
    by rewrite N.eqb_refl.
  - by apply vote_of_absent.
  - eexists. split; [apply lookup_insert_eq|]. simpl.
    repeat (split; [done|]).
    intros j Hj. by rewrite !lookup_insert_ne.
Qed.

Lemma vote_twice_restores_witness :
  TierList.ex_items !! 5%N = Some TierList.ex_item
  /\ TierList.getUserVote TierList.ex_item 9 = None
  /\ TierList.userVote
       (TierList.response
          (TierList.vote_route 9 5 (Some "like"%string) TierList.ex_items))
     = Some "like"%string.
Proof.
  assert (Hs : TierList.ex_items !! 5%N = Some TierList.ex_item)
    by (vm_compute; reflexivity).
  assert (Hv : TierList.validate_item TierList.ex_item = true)
    by (vm_compute; reflexivity).
  exact (conj Hs (conj eq_refl
           (proj1 (proj2 (vote_twice_restores 9 5 "like" TierList.ex_items
                            TierList.ex_item Hs Hv (or_introl eq_refl)
                            eq_refl))))).
Defined.

(** * Tournaments *)

Section TournamentFacts.

Local Open Scope Q_scope.






(** X21. The status filter of the list route and the [status] virtual agree
    on every date except exactly one week ahead: there the filter lists the
    tournament as upcoming while its own status reads scheduled.  The
    register route refuses a tournament as completed exactly when its status
    is completed. *)
Theorem status_filter_vs_virtual (now : Z) (t : Tournaments.Tournament) :
  (forall s,
      (s = "completed" \/ s = "upcoming" \/ s = "scheduled")%string ->
      Tournaments.date t <> (now + Tournaments.week)%Z ->
      (Tournaments.date_filter now (Some s) (Tournaments.date t) = true
       <-> Tournaments.status now t = s))
  /\ (Tournaments.date t = (now + Tournaments.week)%Z ->
      Tournaments.date_filter now (Some "upcoming"%string) (Tournaments.date t)
      = true
      /\ Tournaments.status now t = "scheduled"%string)
  /\ (forall id st,
        st !! id = Some t ->
        (Tournaments.message
           (Tournaments.response (Tournaments.register now id st))
         = "Cannot register for completed tournament"%string
         <-> Tournaments.status now t = "completed"%string)).
Proof.
  split; [|split].
  - intros s Hs Hne. unfold Tournaments.date_filter, Tournaments.status.
    pose proof (eq_refl Tournaments.week) as Hw.
    unfold Tournaments.week at 2 in Hw.
    destruct (Tournaments.date t <? now)%Z eqn:E1;
      destruct (Tournaments.date t <? now + Tournaments.week)%Z eqn:E2;
      try apply Z.ltb_lt in E1; try apply Z.ltb_ge in E1;
      try apply Z.ltb_lt in E2; try apply Z.ltb_ge in E2;
      destruct Hs as [-> | [-> | ->]]; simpl;
      rewrite ?andb_true_iff, ?Z.leb_le, ?Z.ltb_lt;
      (split; [intros H; try done; try lia | intros H; try done; try lia]).
  - intros Hd. unfold Tournaments.date_filter, Tournaments.status.
    rewrite Hd. simpl.
    assert (Hw : (0 < Tournaments.week)%Z) by done.
    rewrite (proj2 (Z.leb_le _ _)) by lia.
    rewrite (proj2 (Z.leb_le _ _)) by lia.
    rewrite (proj2 (Z.ltb_ge _ _)) by lia.
    rewrite (proj2 (Z.ltb_ge _ _)) by lia. done.
  - intros id st Hs. unfold Tournaments.register, Tournaments.status.
    rewrite Hs.
    destruct (Tournaments.date t <? now)%Z; [done|].
    split.
    + destruct (_ && _); [discriminate|]. cbv zeta.
      destruct (Tournaments.save _ _ _); discriminate.
    + destruct (Tournaments.date t <? now + Tournaments.week)%Z; discriminate.
Qed.

Lemma status_filter_vs_virtual_witness :
  Tournaments.date Tournaments.ex_tournament
  = (259200000 + Tournaments.week)%Z
  /\ Tournaments.date_filter 259200000 (Some "upcoming"%string)
       (Tournaments.date Tournaments.ex_tournament) = true
  /\ Tournaments.status 259200000 Tournaments.ex_tournament
     = "scheduled"%string.
Proof.
  exact (conj eq_refl
           (proj1 (proj2 (status_filter_vs_virtual 259200000
                            Tournaments.ex_tournament)) eq_refl)).
Defined.

End TournamentFacts.

(** * Deck list statistics *)

Lemma filter_concat_matches (f : Match -> bool) (l : list (list Match)) :
  List.filter f (concat l) = concat (map (List.filter f) l).
Proof.
  induction l as [|a l IH]; simpl; [done|].
  by rewrite List.filter_app, IH.
Qed.

Lemma count_matches_filter (P R : Match -> bool) (ms : list Match) :
  count_matches R (List.filter P ms)
  = count_matches (fun m => P m && R m) ms.
Proof.
  induction ms as [|a ms IH]; simpl; [done|].
  destruct (P a); simpl; by rewrite IH.
Qed.

Lemma deck_forEach_fold (name : string) (sessions : list Session)
      (a1 a2 a3 a4 a5 a6 : nat) :
  fold_left (DeckLists.forEach_body name) sessions (a1, a2, a3, a4, a5, a6)
  = ((a1 + length (DeckLists.played_with name sessions))%nat,
     (a2 + count_matches isWin (DeckLists.played_with name sessions))%nat,
     (a3 + count_matches is1st (DeckLists.played_with name sessions))%nat,
     (a4 + count_matches (fun m => is1st m && isWin m)
                         (DeckLists.played_with name sessions))%nat,
     (a5 + count_matches is2nd (DeckLists.played_with name sessions))%nat,
     (a6 + count_matches (fun m => is2nd m && isWin m)
                         (DeckLists.played_with name sessions))%nat).
Proof.
  revert a1 a2 a3 a4 a5 a6.
  induction sessions as [|s ss IH]; intros a1 a2 a3 a4 a5 a6.
  - unfold DeckLists.played_with. simpl. by rewrite !Nat.add_0_r.
  - cbn [fold_left]. unfold DeckLists.forEach_body at 2.
    rewrite IH. unfold DeckLists.played_with. cbn [map concat].
    rewrite List.filter_app, !length_app, !count_matches_app.
    rewrite !filter_length_count, !count_matches_filter.
    by rewrite !Nat.add_assoc.
Qed.

(** X22. The statistics of a deck list are those of all matches the user
    played with that deck, over all listed sessions: [matches] counts them,
    [wins] counts the wins among them (never more than [matches]), and each
    percentage is the session win-rate formula over those matches, printed
    with a percent sign, or "0%" when there is no such match.  For 201 wins
    out of 400 matches the number printed is 50.2. *)
Theorem deck_stats_aggregate (toString : number -> string) (name : string)
        (sessions : list Session) :
  DeckLists.matches (DeckLists.updateStats toString name sessions)
  = length (DeckLists.played_with name sessions)
  /\ DeckLists.wins (DeckLists.updateStats toString name sessions)
     = count_matches isWin (DeckLists.played_with name sessions)
  /\ (DeckLists.wins (DeckLists.updateStats toString name sessions)
      <= DeckLists.matches (DeckLists.updateStats toString name sessions))%nat
  /\ DeckLists.overallWR (DeckLists.updateStats toString name sessions)
     = (if (0 <? length (DeckLists.played_with name sessions))%nat
        then (toString
                (winRate (stats (DeckLists.session_of
                                   (DeckLists.played_with name sessions))))
              ++ "%")%string
        else "0%"%string)
  /\ DeckLists.wrGoing1st (DeckLists.updateStats toString name sessions)
     = (if (0 <? count_matches is1st (DeckLists.played_with name sessions))%nat
        then (toString
                (winRate1st (stats (DeckLists.session_of
                                      (DeckLists.played_with name sessions))))
              ++ "%")%string
        else "0%"%string)
  /\ DeckLists.wrGoing2nd (DeckLists.updateStats toString name sessions)
     = (if (0 <? count_matches is2nd (DeckLists.played_with name sessions))%nat
        then (toString
                (winRate2nd (stats (DeckLists.session_of
                                      (DeckLists.played_with name sessions))))
              ++ "%")%string
        else "0%"%string)
  /\ DeckLists.overallWR
       (DeckLists.updateStats toString "Branded"
                              [DeckLists.ex_session_201of400])
     = (toString 50.2 ++ "%")%string.
Proof.
  unfold DeckLists.updateStats. rewrite deck_forEach_fold.
  cbn [Nat.add DeckLists.matches DeckLists.wins DeckLists.overallWR
       DeckLists.wrGoing1st DeckLists.wrGoing2nd].
  set (flat := DeckLists.played_with name sessions).
  split; [done|]. split; [done|].
  split; [apply count_matches_le_length|].
  unfold stats. cbn [matches DeckLists.session_of winRate winRate1st winRate2nd].
  rewrite !filter_filter_count, !filter_length_count.
  split; [|split; [|split]].
  - by destruct (0 <? length flat)%nat.
  - by destruct (0 <? count_matches is1st flat)%nat.
  - by destruct (0 <? count_matches is2nd flat)%nat.
  - vm_compute. reflexivity.
Qed.
